(** * rag_assistant: the query pipeline of [main.py], embedded and verified

    The development follows the layout of the program:
    - [PyStr]     the operations of Python's [str] that [main.py] calls;
    - [config]    the constants of [config.py];
    - [Py]        exceptions, the logger and the monad that threads them;
    - one module per component of [main.py].

    A Python [str] is a list of Unicode code points.  String literals are
    written as in the source and decoded from the UTF-8 bytes of this file. *)

From Stdlib Require Import NArith ZArith String Ascii List Bool Lia Permutation.
From stdpp Require Import gmap.
Import ListNotations.

Local Open Scope N_scope.

(* ===================================================================== *)
(** * Python strings *)
(* ===================================================================== *)

Module PyStr.

Definition pystr := list N.

(** ** UTF-8 (the [encoding='utf-8'] of [open], and the source literals) *)

Definition bytes_of (s : string) : list N :=
  map N_of_ascii (list_ascii_of_string s).

Definition is_continuation (b : N) : bool := (128 <=? b) && (b <=? 191).

(** Strict decoder: [None] is Python's [UnicodeDecodeError]. *)
Fixpoint utf8_decode (bs : list N) : option pystr :=
  match bs with
  | [] => Some []
  | b0 :: r0 =>
    if b0 <? 128 then option_map (cons b0) (utf8_decode r0)
    else if (194 <=? b0) && (b0 <=? 223) then
      match r0 with
      | b1 :: r1 =>
        if is_continuation b1
        then option_map (cons ((b0 - 192) * 64 + (b1 - 128))) (utf8_decode r1)
        else None
      | _ => None
      end
    else if (224 <=? b0) && (b0 <=? 239) then
      match r0 with
      | b1 :: b2 :: r2 =>
        let cp := (b0 - 224) * 4096 + (b1 - 128) * 64 + (b2 - 128) in
        if is_continuation b1 && is_continuation b2 && (2048 <=? cp)
           && negb ((55296 <=? cp) && (cp <=? 57343))
        then option_map (cons cp) (utf8_decode r2)
        else None
      | _ => None
      end
    else if (240 <=? b0) && (b0 <=? 244) then
      match r0 with
      | b1 :: b2 :: b3 :: r3 =>
        let cp := (b0 - 240) * 262144 + (b1 - 128) * 4096
                  + (b2 - 128) * 64 + (b3 - 128) in
        if is_continuation b1 && is_continuation b2 && is_continuation b3
           && (65536 <=? cp) && (cp <=? 1114111)
        then option_map (cons cp) (utf8_decode r3)
        else None
      | _ => None
      end
    else None
  end.

(** A source literal. *)
Definition u (s : string) : pystr :=
  match utf8_decode (bytes_of s) with
  | Some l => l
  | None => []
  end.

(** The double quote character, U+0022. *)
Definition dquote : pystr := [34].

(** ** Character classes

    [str.isspace], [str.isalnum] and [str.lower] are those of CPython 3.11,
    whose tables are the Unicode Character Database 14.0.0, on every code
    point from 0 to U+10FFFF. *)

Definition between (lo hi c : N) : bool := (lo <=? c) && (c <=? hi).

Definition isspace (c : N) : bool :=
  between 9 13 c || between 28 32 c || (c =? 133) || (c =? 160)
  || (c =? 5760) || between 8192 8202 c || (c =? 8232) || (c =? 8233)
  || (c =? 8239) || (c =? 8287) || (c =? 12288).

(** Membership in a table of closed ranges in increasing order. *)
Fixpoint in_ranges (c : N) (ranges : list (N * N)) : bool :=
  match ranges with
  | [] => false
  | (lo, hi) :: r =>
    if c <? lo then false else if c <=? hi then true else in_ranges c r
  end.

(** The code points of which [str.isalnum] is true, as closed ranges in
    increasing order. *)
Definition alnum_ranges : list (N * N) :=
  [(48, 57); (65, 90); (97, 122); (170, 170); (178, 179); (181, 181);
   (185, 186); (188, 190); (192, 214); (216, 246); (248, 705); (710, 721);
   (736, 740); (748, 748); (750, 750); (880, 884); (886, 887); (890, 893);
   (895, 895); (902, 902); (904, 906); (908, 908); (910, 929); (931, 1013);
   (1015, 1153); (1162, 1327); (1329, 1366); (1369, 1369); (1376, 1416);
   (1488, 1514); (1519, 1522); (1568, 1610); (1632, 1641); (1646, 1647);
   (1649, 1747); (1749, 1749); (1765, 1766); (1774, 1788); (1791, 1791);
   (1808, 1808); (1810, 1839); (1869, 1957); (1969, 1969); (1984, 2026);
   (2036, 2037); (2042, 2042); (2048, 2069); (2074, 2074); (2084, 2084);
   (2088, 2088); (2112, 2136); (2144, 2154); (2160, 2183); (2185, 2190);
   (2208, 2249); (2308, 2361); (2365, 2365); (2384, 2384); (2392, 2401);
   (2406, 2415); (2417, 2432); (2437, 2444); (2447, 2448); (2451, 2472);
   (2474, 2480); (2482, 2482); (2486, 2489); (2493, 2493); (2510, 2510);
   (2524, 2525); (2527, 2529); (2534, 2545); (2548, 2553); (2556, 2556);
   (2565, 2570); (2575, 2576); (2579, 2600); (2602, 2608); (2610, 2611);
   (2613, 2614); (2616, 2617); (2649, 2652); (2654, 2654); (2662, 2671);
   (2674, 2676); (2693, 2701); (2703, 2705); (2707, 2728); (2730, 2736);
   (2738, 2739); (2741, 2745); (2749, 2749); (2768, 2768); (2784, 2785);
   (2790, 2799); (2809, 2809); (2821, 2828); (2831, 2832); (2835, 2856);
   (2858, 2864); (2866, 2867); (2869, 2873); (2877, 2877); (2908, 2909);
   (2911, 2913); (2918, 2927); (2929, 2935); (2947, 2947); (2949, 2954);
   (2958, 2960); (2962, 2965); (2969, 2970); (2972, 2972); (2974, 2975);
   (2979, 2980); (2984, 2986); (2990, 3001); (3024, 3024); (3046, 3058);
   (3077, 3084); (3086, 3088); (3090, 3112); (3114, 3129); (3133, 3133);
   (3160, 3162); (3165, 3165); (3168, 3169); (3174, 3183); (3192, 3198);
   (3200, 3200); (3205, 3212); (3214, 3216); (3218, 3240); (3242, 3251);
   (3253, 3257); (3261, 3261); (3293, 3294); (3296, 3297); (3302, 3311);
   (3313, 3314); (3332, 3340); (3342, 3344); (3346, 3386); (3389, 3389);
   (3406, 3406); (3412, 3414); (3416, 3425); (3430, 3448); (3450, 3455);
   (3461, 3478); (3482, 3505); (3507, 3515); (3517, 3517); (3520, 3526);
   (3558, 3567); (3585, 3632); (3634, 3635); (3648, 3654); (3664, 3673);
   (3713, 3714); (3716, 3716); (3718, 3722); (3724, 3747); (3749, 3749);
   (3751, 3760); (3762, 3763); (3773, 3773); (3776, 3780); (3782, 3782);
   (3792, 3801); (3804, 3807); (3840, 3840); (3872, 3891); (3904, 3911);
   (3913, 3948); (3976, 3980); (4096, 4138); (4159, 4169); (4176, 4181);
   (4186, 4189); (4193, 4193); (4197, 4198); (4206, 4208); (4213, 4225);
   (4238, 4238); (4240, 4249); (4256, 4293); (4295, 4295); (4301, 4301);
   (4304, 4346); (4348, 4680); (4682, 4685); (4688, 4694); (4696, 4696);
   (4698, 4701); (4704, 4744); (4746, 4749); (4752, 4784); (4786, 4789);
   (4792, 4798); (4800, 4800); (4802, 4805); (4808, 4822); (4824, 4880);
   (4882, 4885); (4888, 4954); (4969, 4988); (4992, 5007); (5024, 5109);
   (5112, 5117); (5121, 5740); (5743, 5759); (5761, 5786); (5792, 5866);
   (5870, 5880); (5888, 5905); (5919, 5937); (5952, 5969); (5984, 5996);
   (5998, 6000); (6016, 6067); (6103, 6103); (6108, 6108); (6112, 6121);
   (6128, 6137); (6160, 6169); (6176, 6264); (6272, 6276); (6279, 6312);
   (6314, 6314); (6320, 6389); (6400, 6430); (6470, 6509); (6512, 6516);
   (6528, 6571); (6576, 6601); (6608, 6618); (6656, 6678); (6688, 6740);
   (6784, 6793); (6800, 6809); (6823, 6823); (6917, 6963); (6981, 6988);
   (6992, 7001); (7043, 7072); (7086, 7141); (7168, 7203); (7232, 7241);
   (7245, 7293); (7296, 7304); (7312, 7354); (7357, 7359); (7401, 7404);
   (7406, 7411); (7413, 7414); (7418, 7418); (7424, 7615); (7680, 7957);
   (7960, 7965); (7968, 8005); (8008, 8013); (8016, 8023); (8025, 8025);
   (8027, 8027); (8029, 8029); (8031, 8061); (8064, 8116); (8118, 8124);
   (8126, 8126); (8130, 8132); (8134, 8140); (8144, 8147); (8150, 8155);
   (8160, 8172); (8178, 8180); (8182, 8188); (8304, 8305); (8308, 8313);
   (8319, 8329); (8336, 8348); (8450, 8450); (8455, 8455); (8458, 8467);
   (8469, 8469); (8473, 8477); (8484, 8484); (8486, 8486); (8488, 8488);
   (8490, 8493); (8495, 8505); (8508, 8511); (8517, 8521); (8526, 8526);
   (8528, 8585); (9312, 9371); (9450, 9471); (10102, 10131); (11264, 11492);
   (11499, 11502); (11506, 11507); (11517, 11517); (11520, 11557);
   (11559, 11559); (11565, 11565); (11568, 11623); (11631, 11631);
   (11648, 11670); (11680, 11686); (11688, 11694); (11696, 11702);
   (11704, 11710); (11712, 11718); (11720, 11726); (11728, 11734);
   (11736, 11742); (11823, 11823); (12293, 12295); (12321, 12329);
   (12337, 12341); (12344, 12348); (12353, 12438); (12445, 12447);
   (12449, 12538); (12540, 12543); (12549, 12591); (12593, 12686);
   (12690, 12693); (12704, 12735); (12784, 12799); (12832, 12841);
   (12872, 12879); (12881, 12895); (12928, 12937); (12977, 12991);
   (13312, 19903); (19968, 42124); (42192, 42237); (42240, 42508);
   (42512, 42539); (42560, 42606); (42623, 42653); (42656, 42735);
   (42775, 42783); (42786, 42888); (42891, 42954); (42960, 42961);
   (42963, 42963); (42965, 42969); (42994, 43009); (43011, 43013);
   (43015, 43018); (43020, 43042); (43056, 43061); (43072, 43123);
   (43138, 43187); (43216, 43225); (43250, 43255); (43259, 43259);
   (43261, 43262); (43264, 43301); (43312, 43334); (43360, 43388);
   (43396, 43442); (43471, 43481); (43488, 43492); (43494, 43518);
   (43520, 43560); (43584, 43586); (43588, 43595); (43600, 43609);
   (43616, 43638); (43642, 43642); (43646, 43695); (43697, 43697);
   (43701, 43702); (43705, 43709); (43712, 43712); (43714, 43714);
   (43739, 43741); (43744, 43754); (43762, 43764); (43777, 43782);
   (43785, 43790); (43793, 43798); (43808, 43814); (43816, 43822);
   (43824, 43866); (43868, 43881); (43888, 44002); (44016, 44025);
   (44032, 55203); (55216, 55238); (55243, 55291); (63744, 64109);
   (64112, 64217); (64256, 64262); (64275, 64279); (64285, 64285);
   (64287, 64296); (64298, 64310); (64312, 64316); (64318, 64318);
   (64320, 64321); (64323, 64324); (64326, 64433); (64467, 64829);
   (64848, 64911); (64914, 64967); (65008, 65019); (65136, 65140);
   (65142, 65276); (65296, 65305); (65313, 65338); (65345, 65370);
   (65382, 65470); (65474, 65479); (65482, 65487); (65490, 65495);
   (65498, 65500); (65536, 65547); (65549, 65574); (65576, 65594);
   (65596, 65597); (65599, 65613); (65616, 65629); (65664, 65786);
   (65799, 65843); (65856, 65912); (65930, 65931); (66176, 66204);
   (66208, 66256); (66273, 66299); (66304, 66339); (66349, 66378);
   (66384, 66421); (66432, 66461); (66464, 66499); (66504, 66511);
   (66513, 66517); (66560, 66717); (66720, 66729); (66736, 66771);
   (66776, 66811); (66816, 66855); (66864, 66915); (66928, 66938);
   (66940, 66954); (66956, 66962); (66964, 66965); (66967, 66977);
   (66979, 66993); (66995, 67001); (67003, 67004); (67072, 67382);
   (67392, 67413); (67424, 67431); (67456, 67461); (67463, 67504);
   (67506, 67514); (67584, 67589); (67592, 67592); (67594, 67637);
   (67639, 67640); (67644, 67644); (67647, 67669); (67672, 67702);
   (67705, 67742); (67751, 67759); (67808, 67826); (67828, 67829);
   (67835, 67867); (67872, 67897); (67968, 68023); (68028, 68047);
   (68050, 68096); (68112, 68115); (68117, 68119); (68121, 68149);
   (68160, 68168); (68192, 68222); (68224, 68255); (68288, 68295);
   (68297, 68324); (68331, 68335); (68352, 68405); (68416, 68437);
   (68440, 68466); (68472, 68497); (68521, 68527); (68608, 68680);
   (68736, 68786); (68800, 68850); (68858, 68899); (68912, 68921);
   (69216, 69246); (69248, 69289); (69296, 69297); (69376, 69415);
   (69424, 69445); (69457, 69460); (69488, 69505); (69552, 69579);
   (69600, 69622); (69635, 69687); (69714, 69743); (69745, 69746);
   (69749, 69749); (69763, 69807); (69840, 69864); (69872, 69881);
   (69891, 69926); (69942, 69951); (69956, 69956); (69959, 69959);
   (69968, 70002); (70006, 70006); (70019, 70066); (70081, 70084);
   (70096, 70106); (70108, 70108); (70113, 70132); (70144, 70161);
   (70163, 70187); (70272, 70278); (70280, 70280); (70282, 70285);
   (70287, 70301); (70303, 70312); (70320, 70366); (70384, 70393);
   (70405, 70412); (70415, 70416); (70419, 70440); (70442, 70448);
   (70450, 70451); (70453, 70457); (70461, 70461); (70480, 70480);
   (70493, 70497); (70656, 70708); (70727, 70730); (70736, 70745);
   (70751, 70753); (70784, 70831); (70852, 70853); (70855, 70855);
   (70864, 70873); (71040, 71086); (71128, 71131); (71168, 71215);
   (71236, 71236); (71248, 71257); (71296, 71338); (71352, 71352);
   (71360, 71369); (71424, 71450); (71472, 71483); (71488, 71494);
   (71680, 71723); (71840, 71922); (71935, 71942); (71945, 71945);
   (71948, 71955); (71957, 71958); (71960, 71983); (71999, 71999);
   (72001, 72001); (72016, 72025); (72096, 72103); (72106, 72144);
   (72161, 72161); (72163, 72163); (72192, 72192); (72203, 72242);
   (72250, 72250); (72272, 72272); (72284, 72329); (72349, 72349);
   (72368, 72440); (72704, 72712); (72714, 72750); (72768, 72768);
   (72784, 72812); (72818, 72847); (72960, 72966); (72968, 72969);
   (72971, 73008); (73030, 73030); (73040, 73049); (73056, 73061);
   (73063, 73064); (73066, 73097); (73112, 73112); (73120, 73129);
   (73440, 73458); (73648, 73648); (73664, 73684); (73728, 74649);
   (74752, 74862); (74880, 75075); (77712, 77808); (77824, 78894);
   (82944, 83526); (92160, 92728); (92736, 92766); (92768, 92777);
   (92784, 92862); (92864, 92873); (92880, 92909); (92928, 92975);
   (92992, 92995); (93008, 93017); (93019, 93025); (93027, 93047);
   (93053, 93071); (93760, 93846); (93952, 94026); (94032, 94032);
   (94099, 94111); (94176, 94177); (94179, 94179); (94208, 100343);
   (100352, 101589); (101632, 101640); (110576, 110579); (110581, 110587);
   (110589, 110590); (110592, 110882); (110928, 110930); (110948, 110951);
   (110960, 111355); (113664, 113770); (113776, 113788); (113792, 113800);
   (113808, 113817); (119520, 119539); (119648, 119672); (119808, 119892);
   (119894, 119964); (119966, 119967); (119970, 119970); (119973, 119974);
   (119977, 119980); (119982, 119993); (119995, 119995); (119997, 120003);
   (120005, 120069); (120071, 120074); (120077, 120084); (120086, 120092);
   (120094, 120121); (120123, 120126); (120128, 120132); (120134, 120134);
   (120138, 120144); (120146, 120485); (120488, 120512); (120514, 120538);
   (120540, 120570); (120572, 120596); (120598, 120628); (120630, 120654);
   (120656, 120686); (120688, 120712); (120714, 120744); (120746, 120770);
   (120772, 120779); (120782, 120831); (122624, 122654); (123136, 123180);
   (123191, 123197); (123200, 123209); (123214, 123214); (123536, 123565);
   (123584, 123627); (123632, 123641); (124896, 124902); (124904, 124907);
   (124909, 124910); (124912, 124926); (124928, 125124); (125127, 125135);
   (125184, 125251); (125259, 125259); (125264, 125273); (126065, 126123);
   (126125, 126127); (126129, 126132); (126209, 126253); (126255, 126269);
   (126464, 126467); (126469, 126495); (126497, 126498); (126500, 126500);
   (126503, 126503); (126505, 126514); (126516, 126519); (126521, 126521);
   (126523, 126523); (126530, 126530); (126535, 126535); (126537, 126537);
   (126539, 126539); (126541, 126543); (126545, 126546); (126548, 126548);
   (126551, 126551); (126553, 126553); (126555, 126555); (126557, 126557);
   (126559, 126559); (126561, 126562); (126564, 126564); (126567, 126570);
   (126572, 126578); (126580, 126583); (126585, 126588); (126590, 126590);
   (126592, 126601); (126603, 126619); (126625, 126627); (126629, 126633);
   (126635, 126651); (127232, 127244); (130032, 130041); (131072, 173791);
   (173824, 177976); (177984, 178205); (178208, 183969); (183984, 191456);
   (194560, 195101); (196608, 201546)].

Definition isalnum (c : N) : bool := in_ranges c alnum_ranges.

(** The code points that [str.lower] changes into one other code point:
    [(first, last, step, image of first)], every [step]-th code point from
    [first] to [last] going to the image of [first] moved by the same distance. *)
Definition lower_table : list (N * N * N * N) :=
  [(65, 90, 1, 97); (192, 214, 1, 224); (216, 222, 1, 248);
   (256, 302, 2, 257); (306, 310, 2, 307); (313, 327, 2, 314);
   (330, 374, 2, 331); (376, 376, 1, 255); (377, 381, 2, 378);
   (385, 385, 1, 595); (386, 388, 2, 387); (390, 390, 1, 596);
   (391, 391, 1, 392); (393, 394, 1, 598); (395, 395, 1, 396);
   (398, 398, 1, 477); (399, 399, 1, 601); (400, 400, 1, 603);
   (401, 401, 1, 402); (403, 403, 1, 608); (404, 404, 1, 611);
   (406, 406, 1, 617); (407, 407, 1, 616); (408, 408, 1, 409);
   (412, 412, 1, 623); (413, 413, 1, 626); (415, 415, 1, 629);
   (416, 420, 2, 417); (422, 422, 1, 640); (423, 423, 1, 424);
   (425, 425, 1, 643); (428, 428, 1, 429); (430, 430, 1, 648);
   (431, 431, 1, 432); (433, 434, 1, 650); (435, 437, 2, 436);
   (439, 439, 1, 658); (440, 440, 1, 441); (444, 444, 1, 445);
   (452, 452, 1, 454); (453, 453, 1, 454); (455, 455, 1, 457);
   (456, 456, 1, 457); (458, 458, 1, 460); (459, 475, 2, 460);
   (478, 494, 2, 479); (497, 497, 1, 499); (498, 500, 2, 499);
   (502, 502, 1, 405); (503, 503, 1, 447); (504, 542, 2, 505);
   (544, 544, 1, 414); (546, 562, 2, 547); (570, 570, 1, 11365);
   (571, 571, 1, 572); (573, 573, 1, 410); (574, 574, 1, 11366);
   (577, 577, 1, 578); (579, 579, 1, 384); (580, 580, 1, 649);
   (581, 581, 1, 652); (582, 590, 2, 583); (880, 882, 2, 881);
   (886, 886, 1, 887); (895, 895, 1, 1011); (902, 902, 1, 940);
   (904, 906, 1, 941); (908, 908, 1, 972); (910, 911, 1, 973);
   (913, 929, 1, 945); (931, 939, 1, 963); (975, 975, 1, 983);
   (984, 1006, 2, 985); (1012, 1012, 1, 952); (1015, 1015, 1, 1016);
   (1017, 1017, 1, 1010); (1018, 1018, 1, 1019); (1021, 1023, 1, 891);
   (1024, 1039, 1, 1104); (1040, 1071, 1, 1072); (1120, 1152, 2, 1121);
   (1162, 1214, 2, 1163); (1216, 1216, 1, 1231); (1217, 1229, 2, 1218);
   (1232, 1326, 2, 1233); (1329, 1366, 1, 1377); (4256, 4293, 1, 11520);
   (4295, 4295, 1, 11559); (4301, 4301, 1, 11565); (5024, 5103, 1, 43888);
   (5104, 5109, 1, 5112); (7312, 7354, 1, 4304); (7357, 7359, 1, 4349);
   (7680, 7828, 2, 7681); (7838, 7838, 1, 223); (7840, 7934, 2, 7841);
   (7944, 7951, 1, 7936); (7960, 7965, 1, 7952); (7976, 7983, 1, 7968);
   (7992, 7999, 1, 7984); (8008, 8013, 1, 8000); (8025, 8031, 2, 8017);
   (8040, 8047, 1, 8032); (8072, 8079, 1, 8064); (8088, 8095, 1, 8080);
   (8104, 8111, 1, 8096); (8120, 8121, 1, 8112); (8122, 8123, 1, 8048);
   (8124, 8124, 1, 8115); (8136, 8139, 1, 8050); (8140, 8140, 1, 8131);
   (8152, 8153, 1, 8144); (8154, 8155, 1, 8054); (8168, 8169, 1, 8160);
   (8170, 8171, 1, 8058); (8172, 8172, 1, 8165); (8184, 8185, 1, 8056);
   (8186, 8187, 1, 8060); (8188, 8188, 1, 8179); (8486, 8486, 1, 969);
   (8490, 8490, 1, 107); (8491, 8491, 1, 229); (8498, 8498, 1, 8526);
   (8544, 8559, 1, 8560); (8579, 8579, 1, 8580); (9398, 9423, 1, 9424);
   (11264, 11311, 1, 11312); (11360, 11360, 1, 11361);
   (11362, 11362, 1, 619); (11363, 11363, 1, 7549); (11364, 11364, 1, 637);
   (11367, 11371, 2, 11368); (11373, 11373, 1, 593); (11374, 11374, 1, 625);
   (11375, 11375, 1, 592); (11376, 11376, 1, 594); (11378, 11378, 1, 11379);
   (11381, 11381, 1, 11382); (11390, 11391, 1, 575);
   (11392, 11490, 2, 11393); (11499, 11501, 2, 11500);
   (11506, 11506, 1, 11507); (42560, 42604, 2, 42561);
   (42624, 42650, 2, 42625); (42786, 42798, 2, 42787);
   (42802, 42862, 2, 42803); (42873, 42875, 2, 42874);
   (42877, 42877, 1, 7545); (42878, 42886, 2, 42879);
   (42891, 42891, 1, 42892); (42893, 42893, 1, 613);
   (42896, 42898, 2, 42897); (42902, 42920, 2, 42903);
   (42922, 42922, 1, 614); (42923, 42923, 1, 604); (42924, 42924, 1, 609);
   (42925, 42925, 1, 620); (42926, 42926, 1, 618); (42928, 42928, 1, 670);
   (42929, 42929, 1, 647); (42930, 42930, 1, 669); (42931, 42931, 1, 43859);
   (42932, 42946, 2, 42933); (42948, 42948, 1, 42900);
   (42949, 42949, 1, 642); (42950, 42950, 1, 7566); (42951, 42953, 2, 42952);
   (42960, 42960, 1, 42961); (42966, 42968, 2, 42967);
   (42997, 42997, 1, 42998); (65313, 65338, 1, 65345);
   (66560, 66599, 1, 66600); (66736, 66771, 1, 66776);
   (66928, 66938, 1, 66967); (66940, 66954, 1, 66979);
   (66956, 66962, 1, 66995); (66964, 66965, 1, 67003);
   (68736, 68786, 1, 68800); (71840, 71871, 1, 71872);
   (93760, 93791, 1, 93792); (125184, 125217, 1, 125218)].

Fixpoint lower_lookup (c : N) (table : list (N * N * N * N)) : option N :=
  match table with
  | [] => None
  | (first, last, step, image) :: r =>
    if c <? first then None
    else if (c <=? last) && ((c - first) mod step =? 0)
         then Some (image + (c - first))
         else lower_lookup c r
  end.

(** The lower-case form of one code point, taken by itself.  Capital I
    with dot above, U+0130, is the one code point with a form of two: small
    i and the combining dot above, U+0307. *)
Definition lower_full (c : N) : pystr :=
  if c =? 304 then [105; 775]
  else match lower_lookup c lower_table with
       | Some d => [d]
       | None => [c]
       end.

(** The code points that CPython takes as cased. *)
Definition cased_ranges : list (N * N) :=
  [(65, 90); (97, 122); (170, 170); (181, 181); (186, 186); (192, 214);
   (216, 246); (248, 442); (444, 447); (452, 659); (661, 696); (704, 705);
   (736, 740); (837, 837); (880, 883); (886, 887); (890, 893); (895, 895);
   (902, 902); (904, 906); (908, 908); (910, 929); (931, 1013); (1015, 1153);
   (1162, 1327); (1329, 1366); (1376, 1416); (4256, 4293); (4295, 4295);
   (4301, 4301); (4304, 4346); (4349, 4351); (5024, 5109); (5112, 5117);
   (7296, 7304); (7312, 7354); (7357, 7359); (7424, 7615); (7680, 7957);
   (7960, 7965); (7968, 8005); (8008, 8013); (8016, 8023); (8025, 8025);
   (8027, 8027); (8029, 8029); (8031, 8061); (8064, 8116); (8118, 8124);
   (8126, 8126); (8130, 8132); (8134, 8140); (8144, 8147); (8150, 8155);
   (8160, 8172); (8178, 8180); (8182, 8188); (8305, 8305); (8319, 8319);
   (8336, 8348); (8450, 8450); (8455, 8455); (8458, 8467); (8469, 8469);
   (8473, 8477); (8484, 8484); (8486, 8486); (8488, 8488); (8490, 8493);
   (8495, 8500); (8505, 8505); (8508, 8511); (8517, 8521); (8526, 8526);
   (8544, 8575); (8579, 8580); (9398, 9449); (11264, 11492); (11499, 11502);
   (11506, 11507); (11520, 11557); (11559, 11559); (11565, 11565);
   (42560, 42605); (42624, 42653); (42786, 42887); (42891, 42894);
   (42896, 42954); (42960, 42961); (42963, 42963); (42965, 42969);
   (42997, 42998); (43000, 43002); (43824, 43866); (43868, 43880);
   (43888, 43967); (64256, 64262); (64275, 64279); (65313, 65338);
   (65345, 65370); (66560, 66639); (66736, 66771); (66776, 66811);
   (66928, 66938); (66940, 66954); (66956, 66962); (66964, 66965);
   (66967, 66977); (66979, 66993); (66995, 67001); (67003, 67004);
   (67456, 67456); (67459, 67461); (67463, 67504); (67506, 67514);
   (68736, 68786); (68800, 68850); (71840, 71903); (93760, 93823);
   (119808, 119892); (119894, 119964); (119966, 119967); (119970, 119970);
   (119973, 119974); (119977, 119980); (119982, 119993); (119995, 119995);
   (119997, 120003); (120005, 120069); (120071, 120074); (120077, 120084);
   (120086, 120092); (120094, 120121); (120123, 120126); (120128, 120132);
   (120134, 120134); (120138, 120144); (120146, 120485); (120488, 120512);
   (120514, 120538); (120540, 120570); (120572, 120596); (120598, 120628);
   (120630, 120654); (120656, 120686); (120688, 120712); (120714, 120744);
   (120746, 120770); (120772, 120779); (122624, 122633); (122635, 122654);
   (125184, 125251); (127280, 127305); (127312, 127337); (127344, 127369)].

(** The code points that CPython takes as case-ignorable. *)
Definition case_ignorable_ranges : list (N * N) :=
  [(39, 39); (46, 46); (58, 58); (94, 94); (96, 96); (168, 168); (173, 173);
   (175, 175); (180, 180); (183, 184); (688, 879); (884, 885); (890, 890);
   (900, 901); (903, 903); (1155, 1161); (1369, 1369); (1375, 1375);
   (1425, 1469); (1471, 1471); (1473, 1474); (1476, 1477); (1479, 1479);
   (1524, 1524); (1536, 1541); (1552, 1562); (1564, 1564); (1600, 1600);
   (1611, 1631); (1648, 1648); (1750, 1757); (1759, 1768); (1770, 1773);
   (1807, 1807); (1809, 1809); (1840, 1866); (1958, 1968); (2027, 2037);
   (2042, 2042); (2045, 2045); (2070, 2093); (2137, 2139); (2184, 2184);
   (2192, 2193); (2200, 2207); (2249, 2306); (2362, 2362); (2364, 2364);
   (2369, 2376); (2381, 2381); (2385, 2391); (2402, 2403); (2417, 2417);
   (2433, 2433); (2492, 2492); (2497, 2500); (2509, 2509); (2530, 2531);
   (2558, 2558); (2561, 2562); (2620, 2620); (2625, 2626); (2631, 2632);
   (2635, 2637); (2641, 2641); (2672, 2673); (2677, 2677); (2689, 2690);
   (2748, 2748); (2753, 2757); (2759, 2760); (2765, 2765); (2786, 2787);
   (2810, 2815); (2817, 2817); (2876, 2876); (2879, 2879); (2881, 2884);
   (2893, 2893); (2901, 2902); (2914, 2915); (2946, 2946); (3008, 3008);
   (3021, 3021); (3072, 3072); (3076, 3076); (3132, 3132); (3134, 3136);
   (3142, 3144); (3146, 3149); (3157, 3158); (3170, 3171); (3201, 3201);
   (3260, 3260); (3263, 3263); (3270, 3270); (3276, 3277); (3298, 3299);
   (3328, 3329); (3387, 3388); (3393, 3396); (3405, 3405); (3426, 3427);
   (3457, 3457); (3530, 3530); (3538, 3540); (3542, 3542); (3633, 3633);
   (3636, 3642); (3654, 3662); (3761, 3761); (3764, 3772); (3782, 3782);
   (3784, 3789); (3864, 3865); (3893, 3893); (3895, 3895); (3897, 3897);
   (3953, 3966); (3968, 3972); (3974, 3975); (3981, 3991); (3993, 4028);
   (4038, 4038); (4141, 4144); (4146, 4151); (4153, 4154); (4157, 4158);
   (4184, 4185); (4190, 4192); (4209, 4212); (4226, 4226); (4229, 4230);
   (4237, 4237); (4253, 4253); (4348, 4348); (4957, 4959); (5906, 5908);
   (5938, 5939); (5970, 5971); (6002, 6003); (6068, 6069); (6071, 6077);
   (6086, 6086); (6089, 6099); (6103, 6103); (6109, 6109); (6155, 6159);
   (6211, 6211); (6277, 6278); (6313, 6313); (6432, 6434); (6439, 6440);
   (6450, 6450); (6457, 6459); (6679, 6680); (6683, 6683); (6742, 6742);
   (6744, 6750); (6752, 6752); (6754, 6754); (6757, 6764); (6771, 6780);
   (6783, 6783); (6823, 6823); (6832, 6862); (6912, 6915); (6964, 6964);
   (6966, 6970); (6972, 6972); (6978, 6978); (7019, 7027); (7040, 7041);
   (7074, 7077); (7080, 7081); (7083, 7085); (7142, 7142); (7144, 7145);
   (7149, 7149); (7151, 7153); (7212, 7219); (7222, 7223); (7288, 7293);
   (7376, 7378); (7380, 7392); (7394, 7400); (7405, 7405); (7412, 7412);
   (7416, 7417); (7468, 7530); (7544, 7544); (7579, 7679); (8125, 8125);
   (8127, 8129); (8141, 8143); (8157, 8159); (8173, 8175); (8189, 8190);
   (8203, 8207); (8216, 8217); (8228, 8228); (8231, 8231); (8234, 8238);
   (8288, 8292); (8294, 8303); (8305, 8305); (8319, 8319); (8336, 8348);
   (8400, 8432); (11388, 11389); (11503, 11505); (11631, 11631);
   (11647, 11647); (11744, 11775); (11823, 11823); (12293, 12293);
   (12330, 12333); (12337, 12341); (12347, 12347); (12441, 12446);
   (12540, 12542); (40981, 40981); (42232, 42237); (42508, 42508);
   (42607, 42610); (42612, 42621); (42623, 42623); (42652, 42655);
   (42736, 42737); (42752, 42785); (42864, 42864); (42888, 42890);
   (42994, 42996); (43000, 43001); (43010, 43010); (43014, 43014);
   (43019, 43019); (43045, 43046); (43052, 43052); (43204, 43205);
   (43232, 43249); (43263, 43263); (43302, 43309); (43335, 43345);
   (43392, 43394); (43443, 43443); (43446, 43449); (43452, 43453);
   (43471, 43471); (43493, 43494); (43561, 43566); (43569, 43570);
   (43573, 43574); (43587, 43587); (43596, 43596); (43632, 43632);
   (43644, 43644); (43696, 43696); (43698, 43700); (43703, 43704);
   (43710, 43711); (43713, 43713); (43741, 43741); (43756, 43757);
   (43763, 43764); (43766, 43766); (43867, 43871); (43881, 43883);
   (44005, 44005); (44008, 44008); (44013, 44013); (64286, 64286);
   (64434, 64450); (65024, 65039); (65043, 65043); (65056, 65071);
   (65106, 65106); (65109, 65109); (65279, 65279); (65287, 65287);
   (65294, 65294); (65306, 65306); (65342, 65342); (65344, 65344);
   (65392, 65392); (65438, 65439); (65507, 65507); (65529, 65531);
   (66045, 66045); (66272, 66272); (66422, 66426); (67456, 67461);
   (67463, 67504); (67506, 67514); (68097, 68099); (68101, 68102);
   (68108, 68111); (68152, 68154); (68159, 68159); (68325, 68326);
   (68900, 68903); (69291, 69292); (69446, 69456); (69506, 69509);
   (69633, 69633); (69688, 69702); (69744, 69744); (69747, 69748);
   (69759, 69761); (69811, 69814); (69817, 69818); (69821, 69821);
   (69826, 69826); (69837, 69837); (69888, 69890); (69927, 69931);
   (69933, 69940); (70003, 70003); (70016, 70017); (70070, 70078);
   (70089, 70092); (70095, 70095); (70191, 70193); (70196, 70196);
   (70198, 70199); (70206, 70206); (70367, 70367); (70371, 70378);
   (70400, 70401); (70459, 70460); (70464, 70464); (70502, 70508);
   (70512, 70516); (70712, 70719); (70722, 70724); (70726, 70726);
   (70750, 70750); (70835, 70840); (70842, 70842); (70847, 70848);
   (70850, 70851); (71090, 71093); (71100, 71101); (71103, 71104);
   (71132, 71133); (71219, 71226); (71229, 71229); (71231, 71232);
   (71339, 71339); (71341, 71341); (71344, 71349); (71351, 71351);
   (71453, 71455); (71458, 71461); (71463, 71467); (71727, 71735);
   (71737, 71738); (71995, 71996); (71998, 71998); (72003, 72003);
   (72148, 72151); (72154, 72155); (72160, 72160); (72193, 72202);
   (72243, 72248); (72251, 72254); (72263, 72263); (72273, 72278);
   (72281, 72283); (72330, 72342); (72344, 72345); (72752, 72758);
   (72760, 72765); (72767, 72767); (72850, 72871); (72874, 72880);
   (72882, 72883); (72885, 72886); (73009, 73014); (73018, 73018);
   (73020, 73021); (73023, 73029); (73031, 73031); (73104, 73105);
   (73109, 73109); (73111, 73111); (73459, 73460); (78896, 78904);
   (92912, 92916); (92976, 92982); (92992, 92995); (94031, 94031);
   (94095, 94111); (94176, 94177); (94179, 94180); (110576, 110579);
   (110581, 110587); (110589, 110590); (113821, 113822); (113824, 113827);
   (118528, 118573); (118576, 118598); (119143, 119145); (119155, 119170);
   (119173, 119179); (119210, 119213); (119362, 119364); (121344, 121398);
   (121403, 121452); (121461, 121461); (121476, 121476); (121499, 121503);
   (121505, 121519); (122880, 122886); (122888, 122904); (122907, 122913);
   (122915, 122916); (122918, 122922); (123184, 123197); (123566, 123566);
   (123628, 123631); (125136, 125142); (125252, 125259); (127995, 127999);
   (917505, 917505); (917536, 917631); (917760, 917999)].

Definition is_cased (c : N) : bool := in_ranges c cased_ranges.
Definition is_case_ignorable (c : N) : bool := in_ranges c case_ignorable_ranges.

(** ** [str] methods *)

Fixpoint skip_case_ignorable (s : pystr) : pystr :=
  match s with
  | c :: r => if is_case_ignorable c then skip_case_ignorable r else s
  | [] => []
  end.

(** Whether the nearest code point of [s] that is not case-ignorable is
    cased. *)
Definition reaches_cased (s : pystr) : bool :=
  match skip_case_ignorable s with
  | c :: _ => is_cased c
  | [] => false
  end.

(** Whether a capital sigma, U+03A3, is the last letter of a word: a cased
    code point comes before it, and none after it, case-ignorable code
    points apart.  [before] holds the code points before the sigma, the
    nearest first. *)
Definition final_sigma (before after : pystr) : bool :=
  reaches_cased before && negb (reaches_cased after).

(** [s.lower()] from a position on: every code point goes to its
    lower-case form, but a capital sigma goes to the final small sigma,
    U+03C2, at the end of a word and to the small sigma, U+03C3,
    elsewhere. *)
Fixpoint lower_from (before s : pystr) : pystr :=
  match s with
  | [] => []
  | c :: r =>
    (if c =? 931 then [if final_sigma before r then 962 else 963]
     else lower_full c)
    ++ lower_from (c :: before) r
  end.

(** [s.lower()] *)
Definition str_lower (s : pystr) : pystr := lower_from [] s.

Definition nonempty {A} (l : list A) : bool :=
  match l with [] => false | _ => true end.

Fixpoint str_eqb (a b : pystr) : bool :=
  match a, b with
  | [], [] => true
  | x :: a', y :: b' => (x =? y) && str_eqb a' b'
  | _, _ => false
  end.

(** [x in l] for a list of strings. *)
Definition str_in (x : pystr) (l : list pystr) : bool := existsb (str_eqb x) l.

(** [c in s] for a one-character [c]. *)
Definition char_in (c : N) (s : pystr) : bool := existsb (N.eqb c) s.

Definition flush (cur : pystr) : list pystr :=
  match cur with [] => [] | _ => [cur] end.

(** [s.split()]: the maximal runs of non-white-space, [cur] being the run
    under the scan. *)
Fixpoint split_from (cur s : pystr) : list pystr :=
  match s with
  | [] => flush cur
  | c :: r =>
    if isspace c then flush cur ++ split_from [] r
    else split_from (cur ++ [c]) r
  end.

Definition str_split (s : pystr) : list pystr := split_from [] s.

Fixpoint lstrip (s : pystr) : pystr :=
  match s with
  | c :: r => if isspace c then lstrip r else s
  | [] => []
  end.

Definition rstrip (s : pystr) : pystr := rev (lstrip (rev s)).

(** [s.strip()] *)
Definition str_strip (s : pystr) : pystr := rstrip (lstrip s).

(** [sep.join(l)] *)
Fixpoint str_join (sep : pystr) (l : list pystr) : pystr :=
  match l with
  | [] => []
  | x :: r =>
    match r with
    | [] => x
    | _ => x ++ sep ++ str_join sep r
    end
  end.

Fixpoint is_prefix (p s : pystr) : bool :=
  match p, s with
  | [], _ => true
  | x :: p', y :: s' => (x =? y) && is_prefix p' s'
  | _ :: _, [] => false
  end.

(** [needle in hay] for strings. *)
Fixpoint contains (needle hay : pystr) : bool :=
  is_prefix needle hay
  || match hay with
     | [] => false
     | _ :: r => contains needle r
     end.

End PyStr.
Import PyStr.




(* ===================================================================== *)
(** * config.py *)
(* ===================================================================== *)

Module config.

Definition K_MAX : nat := 5.

(** [SYNONYM_MAP.items()]: the entries of the dict in the order of the
    literal. *)
Definition SYNONYM_MAP : list (pystr * list pystr) :=
  [ (u "course", [u "program"; u "study plan"; u "module"]);
    (u "courses", [u "programs"; u "study plans"; u "modules"]);
    (u "deadline", [u "due date"; u "submission date"]);
    (u "application", [u "admission"; u "enrollment"]);
    (u "GSOM", [u "Graduate School of Management"; u "GSOM SPbU"; u "ВШМ"]);
    (u "SPbU", [u "Saint Petersburg State University"; u "СПбГУ"]);
    (u "MiBA", [u "Master in Business Analytics and Big Data"; u "Миба"]);
    (u "ML", [u "Machine Learning"; u "машинное обучение"]);
    (u "AI", [u "Artificial Intelligence"; u "искусственный интеллект"]);
    (u "МЛ", [u "Machine Learning"; u "машинное обучение"]);
    (u "ИИ", [u "Artificial Intelligence"; u "искусственный интеллект"]);
    (u "exam", [u "examination"; u "test"; u "assessment"; u "экзамен"; u "тест"]);
    (u "schedule", [u "timetable"; u "academic calendar"; u "расписание"; u "календарь"]);
    (u "расписание", [u "timetable"; u "academic calendar"; u "расписание"; u "календарь"]);
    (u "обмен", [u "включенное обучение"; u "included learning"; u "программа обмена";
                 u "outgoing"; u "exchange"]);
    (u "exchange program", [u "included learning"; u "включенное обучение"]);
    (u "practice", [u "practical training"; u "internship"]);
    (u "практика", [u "practical training"; u "internship"]) ].

End config.

(* ===================================================================== *)
(** * Exceptions, the logger, and the monad of a call *)
(* ===================================================================== *)

Module Py.

(** The exception classes the program meets, with Python's hierarchy. *)
Inductive exn_class :=
| BaseException | Exception | KeyboardInterrupt | SystemExit | CancelledError
| OSError | FileNotFoundError | IsADirectoryError | PermissionError
| ValueError | UnicodeDecodeError | JSONDecodeError
| LookupError | KeyError | IndexError | AttributeError
| RequestException | TelegramError | RuntimeError | RecursionError.

Definition base (c : exn_class) : option exn_class :=
  match c with
  | BaseException => None
  | Exception | KeyboardInterrupt | SystemExit | CancelledError => Some BaseException
  | OSError | ValueError | LookupError | AttributeError
  | TelegramError | RuntimeError => Some Exception
  | FileNotFoundError | IsADirectoryError | PermissionError
  | RequestException => Some OSError
  | UnicodeDecodeError | JSONDecodeError => Some ValueError
  | KeyError | IndexError => Some LookupError
  | RecursionError => Some RuntimeError
  end.

Definition exn_class_eqb (a b : exn_class) : bool :=
  match a, b with
  | BaseException, BaseException | Exception, Exception
  | KeyboardInterrupt, KeyboardInterrupt | SystemExit, SystemExit
  | CancelledError, CancelledError | OSError, OSError
  | FileNotFoundError, FileNotFoundError
  | IsADirectoryError, IsADirectoryError
  | PermissionError, PermissionError | ValueError, ValueError
  | UnicodeDecodeError, UnicodeDecodeError
  | JSONDecodeError, JSONDecodeError | LookupError, LookupError
  | KeyError, KeyError | IndexError, IndexError
  | AttributeError, AttributeError | RequestException, RequestException
  | TelegramError, TelegramError | RuntimeError, RuntimeError
  | RecursionError, RecursionError => true
  | _, _ => false
  end.

Fixpoint issubclass_upto (n : nat) (c h : exn_class) : bool :=
  exn_class_eqb c h
  || match n with
     | O => false
     | S n' => match base c with
               | Some p => issubclass_upto n' p h
               | None => false
               end
     end.

(** [issubclass(c, h)]; no class is more than three steps below the root. *)
Definition issubclass : exn_class -> exn_class -> bool := issubclass_upto 3.

Record exn := { cls : exn_class; msg : pystr }.

(** What [except h] catches. *)
Definition caught_by (h : exn_class) (e : exn) : bool := issubclass (cls e) h.

Inductive outcome (A : Type) :=
| Ret (a : A)
| Raise (e : exn).
Arguments Ret {A} a.
Arguments Raise {A} e.

Inductive level := INFO | WARNING | ERROR | CRITICAL.
Definition log_record : Type := level * pystr.

(** A state that holds the records of [logger]. *)
Class Logging (S : Type) := log_add : log_record -> S -> S.

#[export] Instance log_only : Logging (list log_record) :=
  fun r l => l ++ [r].

(** A computation over a state [S] that returns or raises. *)
Definition M (S A : Type) : Type := S -> outcome A * S.

Definition ret {S A} (a : A) : M S A := fun s => (Ret a, s).
Definition raise {S A} (e : exn) : M S A := fun s => (Raise e, s).
Definition bind {S A B} (m : M S A) (k : A -> M S B) : M S B :=
  fun s => match m s with
           | (Ret a, s') => k a s'
           | (Raise e, s') => (Raise e, s')
           end.

(** [try: m  except h1 as e: k1 e  except h2 as e: k2 e ...]: the first
    clause whose class the exception is an instance of handles it; what a
    handler raises is not caught by its siblings. *)
Fixpoint dispatch {S A} (clauses : list (exn_class * (exn -> M S A))) (e : exn)
  : M S A :=
  match clauses with
  | [] => raise e
  | (h, k) :: rest => if caught_by h e then k e else dispatch rest e
  end.

Definition try_except {S A} (m : M S A)
    (clauses : list (exn_class * (exn -> M S A))) : M S A :=
  fun s => match m s with
           | (Raise e, s') => dispatch clauses e s'
           | r => r
           end.

(** The outcome of an external call, taken into the computation. *)
Definition call {S A} (r : outcome A) : M S A := fun s => (r, s).

Definition logger {S} `{Logging S} (l : level) (m : pystr) : M S unit :=
  fun s => (Ret tt, log_add (l, m) s).

(** The value a run returns, and the state it leaves. *)
Definition result_of {S A} (r : outcome A * S) : outcome A := fst r.
Definition state_of {S A} (r : outcome A * S) : S := snd r.

End Py.
Import Py.

Notation "'let*' x ':=' e 'in' k" := (bind e (fun x => k))
  (at level 10, x name, e at level 100, k at level 200).
Notation "e ';;' k" := (bind e (fun _ => k))
  (at level 100, k at level 200, right associativity).


(* ===================================================================== *)
(** * The completion endpoint: [ask_llm_for_metadata] *)
(* ===================================================================== *)

Module LLM.

(** What [requests.post] and the reading of its JSON body come to. *)
Inductive api_reply :=
| RequestFailed (e : pystr)        (* requests.exceptions.RequestException *)
| ParseFailed (c : exn_class) (e : pystr)  (* KeyError, IndexError, AttributeError *)
| Unexpected                       (* no alternatives, or no message in the first *)
| MessageText (text : pystr).      (* alternatives[0]['message']['text'] *)

(** The process-wide [llm] handle and the endpoint behind it. *)
Record client := {
  llm : bool;                                (* [llm] is not [None] *)
  completion : pystr -> api_reply            (* reply to a prompt text *)
}.

Definition ask_llm_for_metadata (C : client) (prompt_content instruction_text : pystr)
  : M (list log_record) pystr :=
  if negb (llm C) then
    logger ERROR (u "LLM not initialized, cannot ask for metadata.") ;;
    ret []
  else
    (* the two n of the literal follow a backslash that the source doubles *)
    let full_prompt_text := instruction_text ++ u "\n\n" ++ prompt_content in
    match completion C full_prompt_text with
    | MessageText text => ret (str_strip text)
    | Unexpected =>
      logger WARNING (u "LLM response structure unexpected for metadata: ") ;;
      ret []
    | RequestFailed e =>
      logger ERROR (u "LLM request for metadata failed: " ++ e) ;;
      ret []
    | ParseFailed _ e =>
      logger ERROR (u "Error parsing LLM metadata response: " ++ e) ;;
      ret []
    end.

End LLM.
Import LLM.

(* ===================================================================== *)
(** * Query preprocessing *)
(* ===================================================================== *)

Module Query.

(** ** Python's [set] of strings

    The elements are kept in the order of their insertion.  The order in
    which [list(s)] yields them depends on the hashes of the strings, which
    CPython salts anew in every process: it is a parameter of the model,
    known only to be a rearrangement of the elements. *)

Record set_order := {
  iter : list pystr -> list pystr;
  iter_perm : forall l, Permutation (iter l) l
}.

Definition set_add (x : pystr) (s : list pystr) : list pystr :=
  if str_in x s then s else s ++ [x].

Definition insertion_order : set_order :=
  {| iter := fun l => l; iter_perm := fun l => Permutation_refl l |}.

Definition reverse_order : set_order :=
  {| iter := @rev pystr; iter_perm := fun l => Permutation_sym (Permutation_rev l) |}.

(** ** Language detection (line 500) *)

Definition russian_alphabet : pystr := u "абвгдеёжзийклмнопрстуфхцчшщъыьэюя".

Definition is_russian (corrected_query : pystr) : bool :=
  existsb (fun c => char_in c russian_alphabet) (str_lower corrected_query).

(** ** Synonym expansion (lines 516-532) *)

Definition cleaned_token_lower (token : pystr) : pystr :=
  str_lower (List.filter isalnum token).

(** [for syn in syn_list] *)
Definition add_synonyms (words_in_primary : list pystr)
    (appended_synonyms : list pystr) (syn_list : list pystr) : list pystr :=
  fold_left
    (fun appended syn =>
       if negb (str_in (str_lower syn) words_in_primary)
          && negb (str_in (str_lower syn) (map str_lower appended))
       then set_add syn appended
       else appended)
    syn_list appended_synonyms.

(** [for map_key, syn_list in config.SYNONYM_MAP.items()] *)
Definition scan_synonym_map (items : list (pystr * list pystr))
    (words_in_primary : list pystr) (cleaned : pystr)
    (appended_synonyms : list pystr) : list pystr :=
  fold_left
    (fun appended entry =>
       if str_eqb (str_lower (fst entry)) cleaned
       then add_synonyms words_in_primary appended (snd entry)
       else appended)
    items appended_synonyms.

(** [for token in primary_lang_query_part.split()] *)
Definition scan_tokens (items : list (pystr * list pystr))
    (words_in_primary : list pystr) (tokens : list pystr)
    (appended_synonyms : list pystr) : list pystr :=
  fold_left
    (fun appended token =>
       scan_synonym_map items words_in_primary (cleaned_token_lower token) appended)
    tokens appended_synonyms.

(** The set [appended_synonyms] when the loops are over. *)
Definition appended_synonyms (primary_lang_query_part : pystr) : list pystr :=
  let words_in_primary := str_split (str_lower primary_lang_query_part) in
  scan_tokens config.SYNONYM_MAP words_in_primary
              (str_split primary_lang_query_part) [].

(** [expanded_primary_query], or the query itself when nothing is appended. *)
Definition expanded_primary_query (o : set_order) (primary_lang_query_part : pystr)
  : pystr :=
  let appended := appended_synonyms primary_lang_query_part in
  if nonempty appended
  then primary_lang_query_part ++ u " " ++ str_join (u " ") (iter o appended)
  else primary_lang_query_part.

(** ** [preprocess_query_for_retrieval] *)

Definition preprocess_query_for_retrieval (C : client) (o : set_order)
    (user_query : pystr) : M (list log_record) pystr :=
  if negb (llm C) then
    logger WARNING (u "LLM not initialized, skipping LLM-based query preprocessing.") ;;
    ret user_query
  else
    logger INFO (u "Original Query for preprocessing: " ++ user_query) ;;
    let corrected_query := user_query in
    let is_russian := is_russian corrected_query in
    let translation_instruction :=
      if is_russian
      then u "Translate the following Russian text to English. Output only the translation: "
      else u "Translate the following English text to Russian. Output only the translation: " in
    let* translated_text :=
      ask_llm_for_metadata C corrected_query translation_instruction in
    let final_query_for_retrieval :=
      if nonempty translated_text
      then corrected_query ++ u ", " ++ translated_text
      else corrected_query in
    logger INFO (u "Query after translation step: '" ++ final_query_for_retrieval ++ u "'") ;;
    let* final_query_for_retrieval :=
      if nonempty config.SYNONYM_MAP then
        let primary_lang_query_part := corrected_query in
        let appended := appended_synonyms primary_lang_query_part in
        if nonempty appended then
          let expanded_primary_query :=
            primary_lang_query_part ++ u " " ++ str_join (u " ") (iter o appended) in
          let final_query_for_retrieval :=
            if is_russian
            then (if nonempty translated_text
                  then expanded_primary_query ++ u ", " ++ translated_text
                  else expanded_primary_query)
            else (if nonempty translated_text
                  then expanded_primary_query ++ u ", " ++ translated_text
                  else expanded_primary_query) in
          logger INFO (u "Query with appended synonyms: " ++ final_query_for_retrieval) ;;
          ret final_query_for_retrieval
        else ret final_query_for_retrieval
      else ret final_query_for_retrieval in
    let final_query_for_retrieval :=
      if negb (nonempty (str_strip final_query_for_retrieval))
      then user_query
      else final_query_for_retrieval in
    logger INFO (u "Final Preprocessed Query for RAG: "
                 ++ str_strip final_query_for_retrieval) ;;
    ret (str_strip final_query_for_retrieval).

End Query.
Import Query.

(** Two endpoints for the examples: one that is down, one that answers. *)
Definition no_translation : client :=
  {| llm := true; completion := fun _ => RequestFailed (u "timeout") |}.

Definition translates_to (t : pystr) : client :=
  {| llm := true; completion := fun _ => MessageText t |}.


(* ===================================================================== *)
(** * Documents *)
(* ===================================================================== *)

Record Document := {
  page_content : pystr;
  metadata : list (pystr * pystr)
}.

(* ===================================================================== *)
(** * The hybrid-search retriever *)
(* ===================================================================== *)

Module Retriever.

Section Store.

(** The relevance score of a hit is a float that the retriever only drops. *)
Variable score : Type.

Definition search := pystr -> nat -> list (pystr * pystr)
                     -> outcome (list (Document * score)).

(** The methods of the [OpenSearchVectorSearch] handle.  The handle of some
    versions of the library has no [asimilarity_search_with_score]. *)
Record vectorstore := {
  similarity_search_with_score : search;
  asimilarity_search_with_score : option search
}.

(** The attribute [is_hybrid_search] of the handle ([None]: not set), and
    the log. *)
Record state := {
  is_hybrid_search : option bool;
  log : list log_record
}.

#[export] Instance state_logging : Logging state :=
  fun r s => {| is_hybrid_search := is_hybrid_search s; log := log s ++ [r] |}.

Definition search_kwargs : list (pystr * pystr) :=
  [ (u "fusion_algorithm", u "rrf");
    (u "vector_search_weight", u "0.5");
    (u "keyword_search_weight", u "0.5") ].

(** [getattr(self.vectorstore, 'is_hybrid_search', False)] *)
Definition getattr_is_hybrid_search : M state bool :=
  fun s => (Ret (match is_hybrid_search s with Some b => b | None => false end), s).

Definition set_is_hybrid_search (b : bool) : M state unit :=
  fun s => (Ret tt, {| is_hybrid_search := Some b; log := log s |}).

Definition _get_relevant_documents (vs : vectorstore) (k : nat) (query : pystr)
  : M state (list Document) :=
  try_except
    (let* hybrid := getattr_is_hybrid_search in
     (if negb hybrid then
        set_is_hybrid_search true ;;
        logger WARNING (u "Retriever forced is_hybrid_search=True on vectorstore.")
      else ret tt) ;;
     let* results_with_scores :=
       call (similarity_search_with_score vs query k search_kwargs) in
     ret (map fst results_with_scores))
    [ (Exception, fun e =>
         logger ERROR (u "Error in OpenSearchHybridSearchRetriever _get_relevant_documents: "
                       ++ msg e) ;;
         ret []) ].

(** The coroutine, with each [await] taken as the call it waits for. *)
Definition _aget_relevant_documents (vs : vectorstore) (k : nat) (query : pystr)
  : M state (list Document) :=
  try_except
    (let* hybrid := getattr_is_hybrid_search in
     (if negb hybrid then
        set_is_hybrid_search true ;;
        logger WARNING (u "Retriever (async) forced is_hybrid_search=True on vectorstore.")
      else ret tt) ;;
     match asimilarity_search_with_score vs with
     | Some asimilarity =>
       let* results_with_scores := call (asimilarity query k search_kwargs) in
       ret (map fst results_with_scores)
     | None =>
       logger WARNING (u "asimilarity_search_with_score not found, using sync version in executor.") ;;
       let* results_with_scores :=
         call (similarity_search_with_score vs query k search_kwargs) in
       ret (map fst results_with_scores)
     end)
    [ (Exception, fun e =>
         logger ERROR (u "Error in OpenSearchHybridSearchRetriever _aget_relevant_documents: "
                       ++ msg e) ;;
         ret []) ].

End Store.

Arguments similarity_search_with_score {score} _.
Arguments asimilarity_search_with_score {score} _.
Arguments _get_relevant_documents {score} vs k query.
Arguments _aget_relevant_documents {score} vs k query.

End Retriever.

(* ===================================================================== *)
(** * The prompts of [initialize_rag_chain] *)
(* ===================================================================== *)

Module Chain.

Definition nl : pystr := [10].

(** [qa_system_prompt] (lines 458-478): adjacent literals, joined with
    nothing between them.  Lines 468 and 469 carry double quotes inside
    their literal without a backslash; the text of such a line is what
    stands between its first and its last quote. *)
Definition qa_system_prompt : pystr :=
  u "You are an administrative assistant for students of the Master in Business Analytics and Big Data (MiBA)"
  ++ u "program at SPbU GSOM."
  ++ u "Your role is to answer questions strictly based on the provided context from university documents."
  ++ u "Do not use any external knowledge or make assumptions beyond what is written in the context."
  ++ u "Follow these instructions carefully:"
  ++ u "1.  Thoroughly read the user's question and the provided context."
  ++ u "2.  Formulate a concise and direct answer using ONLY the information found in the context."
  ++ u "3.  If the answer to the question is explicitly stated in the context, provide it."
  ++ (u "4.  If the answer cannot be found in the provided context, you MUST explicitly state: "
      ++ dquote ++ u "Based on my knowledge")
  ++ (u "database, I could not find specific information about that. Please, push the "
      ++ dquote ++ u "Help" ++ dquote ++ u " button and contact the Office." ++ dquote)
  ++ u "5.  If multiple pieces of context are relevant, synthesize them into a coherent answer."
  ++ (u "6.  Maintain a helpful and professional tone." ++ nl ++ nl)
  ++ (u "Context:" ++ nl)
  ++ (u "-----" ++ nl)
  ++ (u "{context}" ++ nl)
  ++ (u "-----" ++ nl)
  ++ (u "Question: {input}" ++ nl)
  ++ u "Answer:".

(** The fallback sentence as the specification quotes it. *)
Definition spec_fallback_sentence : pystr :=
  u "Based on my knowledge database, I could not find specific information about that. Please, push the Help button and contact the Office.".

End Chain.

(* ===================================================================== *)
(** * Credential loading: [load_json_file] *)
(* ===================================================================== *)

Module Credentials.

#[local] Unset Elimination Schemes.
Inductive json :=
| JNull
| JBool (b : bool)
| JNumber (literal : pystr)
| JString (s : pystr)
| JArray (items : list json)
| JObject (members : list (pystr * json)).
#[local] Set Elimination Schemes.

(** What a path names. *)
Inductive node :=
| Absent                          (* [open] raises FileNotFoundError *)
| Directory                       (* [open] raises IsADirectoryError *)
| Unreadable                      (* [open] raises PermissionError *)
| Regular (content : list N).     (* the bytes of the file *)

(** The file system, and [json.loads] on a text: the value, or what the
    parser raises: [JSONDecodeError] for a text that is not JSON, and, from
    a text that is, [ValueError] for an integer of more digits than the
    interpreter converts (4300 in CPython 3.11) and [RecursionError] for
    arrays and objects nested beyond its recursion limit. *)
Record host := {
  node_at : pystr -> node;
  json_loads : pystr -> outcome json
}.

Definition error (c : exn_class) : exn := {| cls := c; msg := [] |}.

(** [open(filename, 'r', encoding='utf-8')] *)
Definition open (H : host) (filename : pystr) : outcome (list N) :=
  match node_at H filename with
  | Absent => Raise (error FileNotFoundError)
  | Directory => Raise (error IsADirectoryError)
  | Unreadable => Raise (error PermissionError)
  | Regular content => Ret content
  end.

(** Text mode reads every line end as a line feed. *)
Fixpoint universal_newlines (s : pystr) : pystr :=
  match s with
  | [] => []
  | c :: r =>
    if c =? 13 then
      match r with
      | c' :: r' => if c' =? 10 then 10 :: universal_newlines r'
                    else 10 :: universal_newlines r
      | [] => [10]
      end
    else c :: universal_newlines r
  end.

(** [json.load(f)]: read and decode the whole file, then parse. *)
Definition json_load (H : host) (f : list N) : outcome json :=
  match utf8_decode f with
  | None => Raise (error UnicodeDecodeError)
  | Some text => json_loads H (universal_newlines text)
  end.

Definition load_json_file (H : host) (filename : pystr) (quiet : bool)
  : M (list log_record) json :=
  try_except
    (let* f := call (open H filename) in
     call (json_load H f))
    [ (FileNotFoundError, fun _ =>
         (if negb quiet
          then logger WARNING (u "JSON file '" ++ filename ++ u "' not found.")
          else ret tt) ;;
         ret (JObject []));
      (JSONDecodeError, fun _ =>
         (if negb quiet
          then logger WARNING (u "Could not decode JSON from '" ++ filename ++ u "'.")
          else ret tt) ;;
         ret (JObject [])) ].

End Credentials.

(* ===================================================================== *)
(** * The Telegram handlers *)
(* ===================================================================== *)

Module Bot.

Inductive message :=
| HumanMessage (content : pystr)
| AIMessage (content : pystr).

(** An entry of [context.chat_data['interactions']]. *)
Record interaction := {
  question : pystr;
  preprocessed_question : pystr;
  answer : pystr;
  contexts_docs : list Document;
  answer_message_id : Z;
  feedback : option pystr;
  timestamp : pystr
}.

(** An entry of [ragas_data_pool]. *)
Record ragas_record := {
  r_interaction_id : pystr;
  r_question : pystr;
  r_preprocessed_question : pystr;
  r_answer : pystr;
  r_contexts : list pystr;
  r_retrieved_document_sources_keys : list pystr;
  r_chat_id : Z;
  r_timestamp : pystr;
  r_feedback : option pystr
}.

Record button := { caption : pystr; callback_data : option pystr }.
Definition keyboard := list (list button).

(** The calls into the Telegram client. *)
Inductive request :=
| reply_text (text : pystr) (reply_markup : option keyboard)
| reply_html (text : pystr)
| edit_message_text (text : pystr) (chat_id message_id : Z)
| delete_message (chat_id message_id : Z)
| send_message (chat_id : Z) (text : pystr)
| query_answer
| query_edit_message_text (text : pystr) (reply_markup : option keyboard).

(** The dict that [rag_chain.ainvoke] returns. *)
Record response := {
  resp_answer : option pystr;
  resp_context : option (list Document)
}.

(** What surrounds one run of a handler: the Telegram client (the id of
    the message a call made, or the exception it raised), the chain, the
    completion endpoint, the hash order of the process, and the values
    drawn from [uuid] and the clock. *)
Record world := {
  telegram : request -> outcome Z;
  rag_chain : option (pystr -> list message -> outcome response);
  llm_client : client;
  hash_order : set_order;
  uuid4 : pystr;
  now : pystr
}.

(** The process-wide stores.  [chat_data] maps a chat to the dict under its
    key ['interactions'], when the key is there. *)
Record state := {
  user_chat_histories : gmap Z (list message);
  chat_data : gmap Z (gmap pystr interaction);
  ragas_data_pool : list ragas_record;
  log : list log_record;
  sent : list request
}.

Definition initial : state :=
  {| user_chat_histories := ∅; chat_data := ∅; ragas_data_pool := [];
     log := []; sent := [] |}.

Definition with_histories (f : gmap Z (list message) -> gmap Z (list message))
    (s : state) : state :=
  {| user_chat_histories := f (user_chat_histories s); chat_data := chat_data s;
     ragas_data_pool := ragas_data_pool s; log := log s; sent := sent s |}.

Definition with_chat_data
    (f : gmap Z (gmap pystr interaction) -> gmap Z (gmap pystr interaction))
    (s : state) : state :=
  {| user_chat_histories := user_chat_histories s; chat_data := f (chat_data s);
     ragas_data_pool := ragas_data_pool s; log := log s; sent := sent s |}.

Definition with_pool (f : list ragas_record -> list ragas_record) (s : state)
  : state :=
  {| user_chat_histories := user_chat_histories s; chat_data := chat_data s;
     ragas_data_pool := f (ragas_data_pool s); log := log s; sent := sent s |}.

Definition with_log (f : list log_record -> list log_record) (s : state) : state :=
  {| user_chat_histories := user_chat_histories s; chat_data := chat_data s;
     ragas_data_pool := ragas_data_pool s; log := f (log s); sent := sent s |}.

Definition with_sent (f : list request -> list request) (s : state) : state :=
  {| user_chat_histories := user_chat_histories s; chat_data := chat_data s;
     ragas_data_pool := ragas_data_pool s; log := log s; sent := f (sent s) |}.

#[export] Instance state_logging : Logging state :=
  fun r => with_log (fun l => l ++ [r]).

Definition update_state (f : state -> state) : M state unit :=
  fun s => (Ret tt, f s).

Definition read {A} (f : state -> A) : M state A := fun s => (Ret (f s), s).

(** A function that only logs, run inside a handler. *)
Definition with_logger {A} (m : M (list log_record) A) : M state A :=
  fun s => let (r, l) := m (log s) in (r, with_log (fun _ => l) s).

(** [await] of a call into the client. *)
Definition tg (W : world) (r : request) : M state Z :=
  fun s => match telegram W r with
           | Ret id => (Ret id, with_sent (fun l => l ++ [r]) s)
           | Raise e => (Raise e, s)
           end.

(** ** [user_chat_histories] *)

Definition has_history (chat_id : Z) : M state bool :=
  read (fun s => bool_decide (is_Some (user_chat_histories s !! chat_id))).

Definition get_history (chat_id : Z) : M state (list message) :=
  read (fun s => default [] (user_chat_histories s !! chat_id)).

Definition set_history (chat_id : Z) (h : list message) : M state unit :=
  update_state (with_histories (insert chat_id h)).

(** [l.extend(more)] on the list that the dict holds. *)
Definition extend_history (chat_id : Z) (more : list message) : M state unit :=
  update_state (with_histories (alter (fun l => l ++ more) chat_id)).

(** [l[-n:]] *)
Definition last_n {A} (n : nat) (l : list A) : list A :=
  skipn (length l - n) l.

(** ** [start_command] *)

Definition start_command (W : world) (chat_id : Z) : M state unit :=
  set_history chat_id [] ;;
  update_state (with_chat_data (alter (fun _ => ∅) chat_id)) ;;
  tg W (reply_html (u "Hi! I am Mibi - an assistant bot - and I am ready to help you with information about MiBA program at GSOM SPbU, different additional materials and student opportunities. How can I help you?")) ;;
  ret tt.

(** ** [handle_text_message] *)

Fixpoint assoc (k : pystr) (l : list (pystr * pystr)) : option pystr :=
  match l with
  | [] => None
  | (k', v) :: r => if str_eqb k k' then Some v else assoc k r
  end.

Definition source_key (doc : Document) : pystr :=
  default (default (u "unknown") (assoc (u "source") (metadata doc)))
          (assoc (u "source_file_key") (metadata doc)).

Definition handle_text_message (W : world) (chat_id : Z) (text : pystr)
  : M state unit :=
  let user_query_original := text in
  match rag_chain W with
  | None =>
    tg W (reply_text (u "I'm currently unable to access my knowledge base. Please try again later.") None) ;;
    ret tt
  | Some chain =>
    (let* known := has_history chat_id in
     if negb known then set_history chat_id [] else ret tt) ;;
    let* processing_msg :=
      tg W (reply_text (u "🔄 Processing your request, please wait...") None) in
    let* preprocessed_query :=
      try_except
        (with_logger (preprocess_query_for_retrieval (llm_client W) (hash_order W)
                                                     user_query_original))
        [ (Exception, fun e =>
             logger ERROR (u "Query preprocessing failed for '" ++ user_query_original
                           ++ u "': " ++ msg e) ;;
             tg W (edit_message_text (u "⚠️ Error in understanding query, using original.")
                                     chat_id processing_msg) ;;
             ret user_query_original) ] in
    try_except
      ((* [current_chat_history] is the list that the dict holds *)
       let* current_chat_history := get_history chat_id in
       let* response := call (chain preprocessed_query current_chat_history) in
       let answer :=
         default (u "I couldn't find a specific answer based on the available information.")
                 (resp_answer response) in
       let retrieved_contexts_docs := default [] (resp_context response) in
       extend_history chat_id [HumanMessage user_query_original; AIMessage answer] ;;
       let* current_chat_history := get_history chat_id in
       set_history chat_id (last_n 20 current_chat_history) ;;
       tg W (delete_message chat_id processing_msg) ;;
       let* answer_message := tg W (reply_text answer None) in
       let interaction_id := uuid4 W in
       update_state (with_chat_data (fun d =>
         match d !! chat_id with
         | None => <[chat_id := ∅]> d
         | Some _ => d
         end)) ;;
       update_state (with_chat_data (alter (insert interaction_id
         {| question := user_query_original;
            preprocessed_question := preprocessed_query;
            answer := answer;
            contexts_docs := retrieved_contexts_docs;
            answer_message_id := answer_message;
            feedback := None;
            timestamp := now W |}) chat_id)) ;;
       let buttons_row1 :=
         if nonempty retrieved_contexts_docs
         then [ {| caption := u "See the sources 📄";
                   callback_data := Some (u "sources_" ++ interaction_id) |} ]
         else [] in
       let buttons_row2 :=
         [ {| caption := u "👍";
              callback_data := Some (u "feedback_positive_" ++ interaction_id) |};
           {| caption := u "👎";
              callback_data := Some (u "feedback_negative_" ++ interaction_id) |};
           {| caption := u "Help"; callback_data := Some (u "action_show_help") |} ] in
       let keyboard_layout :=
         (if nonempty buttons_row1 then [buttons_row1] else []) ++ [buttons_row2] in
       (if nonempty keyboard_layout then
          tg W (reply_text (u "Was this helpful? You can also view sources or get help.")
                           (Some keyboard_layout)) ;;
          ret tt
        else ret tt) ;;
       update_state (with_pool (fun pool => pool ++
         [ {| r_interaction_id := interaction_id;
              r_question := user_query_original;
              r_preprocessed_question := preprocessed_query;
              r_answer := answer;
              r_contexts := map page_content retrieved_contexts_docs;
              r_retrieved_document_sources_keys := map source_key retrieved_contexts_docs;
              r_chat_id := chat_id;
              r_timestamp := now W;
              r_feedback := None |} ])))
      [ (Exception, fun e =>
           logger ERROR (u "Error handling message '" ++ user_query_original
                         ++ u "': " ++ msg e) ;;
           try_except
             (tg W (edit_message_text (u "An internal error occurred. Please try again later.")
                                      chat_id processing_msg) ;;
              ret tt)
             [ (BaseException, fun _ =>
                  tg W (reply_text (u "An internal error occurred. Please try again later.")
                                   None) ;;
                  ret tt) ]) ]
  end.

(** ** [feedback_callback] *)

(** [s.split(sep)] for a one-character separator: the pieces between the
    occurrences of [sep], the empty ones too. *)
Fixpoint split_on_from (sep : N) (cur s : pystr) : list pystr :=
  match s with
  | [] => [cur]
  | c :: r =>
    if c =? sep then cur :: split_on_from sep [] r
    else split_on_from sep (cur ++ [c]) r
  end.

Definition str_split_on (sep : N) (s : pystr) : list pystr :=
  split_on_from sep [] s.

Definition underscore : N := 95.

(** [_, sentiment, interaction_id = parts] *)
Definition unpack3 (parts : list pystr) : outcome (pystr * pystr * pystr) :=
  match parts with
  | [a; b; c] => Ret (a, b, c)
  | _ => Raise {| cls := ValueError; msg := u "unpack" |}
  end.

(** The pressed button: the payload, and the message that carries it. *)
Record callback_query := {
  data : pystr;
  message_text : pystr;
  message_chat_id : Z;
  message_reply_markup : option keyboard
}.

Definition set_feedback (sentiment : pystr) (i : interaction) : interaction :=
  {| question := question i; preprocessed_question := preprocessed_question i;
     answer := answer i; contexts_docs := contexts_docs i;
     answer_message_id := answer_message_id i;
     feedback := Some sentiment; timestamp := timestamp i |}.

Definition set_pool_feedback (sentiment : pystr) (r : ragas_record) : ragas_record :=
  {| r_interaction_id := r_interaction_id r; r_question := r_question r;
     r_preprocessed_question := r_preprocessed_question r; r_answer := r_answer r;
     r_contexts := r_contexts r;
     r_retrieved_document_sources_keys := r_retrieved_document_sources_keys r;
     r_chat_id := r_chat_id r; r_timestamp := r_timestamp r;
     r_feedback := Some sentiment |}.

(** [for item in ragas_data_pool: if ...: item['feedback'] = sentiment; break] *)
Fixpoint mark_first (interaction_id sentiment : pystr) (pool : list ragas_record)
  : list ragas_record :=
  match pool with
  | [] => []
  | item :: rest =>
    if str_eqb (r_interaction_id item) interaction_id
    then set_pool_feedback sentiment item :: rest
    else item :: mark_first interaction_id sentiment rest
  end.

Definition keeps_button (btn : button) : bool :=
  match callback_data btn with
  | Some d => nonempty d && (is_prefix (u "sources_") d || str_eqb d (u "action_show_help"))
  | None => false
  end.

Definition feedback_callback (W : world) (chat_id : Z) (query : callback_query)
  : M state unit :=
  tg W query_answer ;;
  let* parts :=
    try_except
      (let* p := call (unpack3 (str_split_on underscore (data query))) in
       ret (Some p))
      [ (ValueError, fun _ =>
           logger WARNING (u "Malformed feedback callback data: " ++ data query) ;;
           tg W (query_edit_message_text (u "Error: Could not process feedback.") None) ;;
           ret None) ] in
  match parts with
  | None => ret tt                                          (* [return] *)
  | Some (_, sentiment, interaction_id) =>
    let* feedback_recorded :=
      let* known := read (fun s =>
        match chat_data s !! chat_id with
        | Some interactions => bool_decide (is_Some (interactions !! interaction_id))
        | None => false
        end) in
      if known then
        update_state (with_chat_data
          (alter (alter (set_feedback sentiment) interaction_id) chat_id)) ;;
        update_state (with_pool (mark_first interaction_id sentiment)) ;;
        ret true
      else ret false in
    let confirm_text :=
      if str_eqb sentiment (u "positive")
      then u "Thanks for your feedback! 👍"
      else u "Thanks for your feedback. We'll use this to improve. 👎" in
    let confirm_text :=
      if negb feedback_recorded
      then u "Sorry, couldn't record feedback for this message."
      else confirm_text in
    let current_keyboard := default [] (message_reply_markup query) in
    let new_keyboard_layout :=
      List.filter nonempty (map (List.filter keeps_button) current_keyboard) in
    let new_reply_markup :=
      if nonempty new_keyboard_layout then Some new_keyboard_layout else None in
    try_except
      (tg W (query_edit_message_text
               (message_text query ++ u "\n\n_" ++ confirm_text ++ u "_") new_reply_markup) ;;
       ret tt)
      [ (Exception, fun e =>
           logger WARNING (u "Could not edit message for feedback confirmation: " ++ msg e
                           ++ u ". Sending new message.") ;;
           tg W (send_message (message_chat_id query) confirm_text) ;;
           ret tt) ]
  end.

(** ** The updates of a run of the bot *)

Inductive update :=
| Start (chat_id : Z)
| TextMessage (chat_id : Z) (text : pystr)
| FeedbackPressed (chat_id : Z) (query : callback_query).

Definition handler (W : world) (upd : update) : M state unit :=
  match upd with
  | Start chat_id => start_command W chat_id
  | TextMessage chat_id text => handle_text_message W chat_id text
  | FeedbackPressed chat_id query => feedback_callback W chat_id query
  end.

(** The application runs one handler at a time; what a handler raises goes
    to the framework and the next update finds the stores as they were
    left. *)
Definition process (s : state) (wu : world * update) : state :=
  state_of (handler (fst wu) (snd wu) s).

Definition run (updates : list (world * update)) (s : state) : state :=
  fold_left process updates s.

End Bot.

(* ===================================================================== *)
(** * The specification's notions, to compare the code with *)
(* ===================================================================== *)

Module QuerySpec.

(** The Cyrillic blocks U+0400..U+052F. *)
Definition is_cyrillic (c : N) : bool := between 1024 1327 c.

(** The letters of the Russian alphabet, capital and small. *)
Definition is_russian_letter (c : N) : bool :=
  between 1040 1103 c || (c =? 1025) || (c =? 1105).

(** A token of the query that a synonym equals when case is ignored. *)
Definition present_as_token (syn q : pystr) : Prop :=
  exists token, In token (str_split q) /\ str_lower token = str_lower syn.

(** The synonyms of the keys that are, in lower case, a given string, in
    the order of the table. *)
Definition matching (items : list (pystr * list pystr)) (cleaned : pystr)
  : list pystr :=
  flat_map (fun entry => if str_eqb (str_lower (fst entry)) cleaned
                         then snd entry else [])
           items.

(** A token with the characters that are not alphanumeric taken out. *)
Fixpoint without_marks (token : pystr) : pystr :=
  match token with
  | [] => []
  | c :: r => if isalnum c then c :: without_marks r else without_marks r
  end.

(** A token matches a key when, its marks taken out, it is the key but
    for case. *)
Definition matches (token key : pystr) : bool :=
  str_eqb (str_lower (without_marks token)) (str_lower key).

(** The synonyms of the keys that the tokens of the query match, token
    after token and, for a token, key after key in the order of the table:
    the encounter order. *)
Definition candidates (q : pystr) : list pystr :=
  flat_map (fun token =>
              flat_map (fun entry => if matches token (fst entry) then snd entry else [])
                       config.SYNONYM_MAP)
           (str_split q).

(** Of a list, the first of every group of strings equal but for case,
    [seen] being the lower-case forms already met. *)
Fixpoint first_of_each (seen : list pystr) (l : list pystr) : list pystr :=
  match l with
  | [] => []
  | s :: r =>
    if str_in (str_lower s) seen then first_of_each seen r
    else s :: first_of_each (seen ++ [str_lower s]) r
  end.

(** What the specification appends: the candidates that are no token of
    the query, each once, in encounter order. *)
Definition spec_appended (q : pystr) : list pystr :=
  first_of_each []
    (List.filter (fun s => negb (str_in (str_lower s) (map str_lower (str_split q))))
                 (candidates q)).

(** The text returned by the translation call of [preprocess_query_for_retrieval]. *)
Definition translated_text (C : client) (q : pystr) : pystr :=
  let instruction :=
    if is_russian q
    then u "Translate the following Russian text to English. Output only the translation: "
    else u "Translate the following English text to Russian. Output only the translation: " in
  match result_of (ask_llm_for_metadata C q instruction []) with
  | Ret t => t
  | Raise _ => []
  end.

(** The string composed by lines 512-538, before the fallback of line 540. *)
Definition composed_query (o : set_order) (q t : pystr) : pystr :=
  if nonempty t then expanded_primary_query o q ++ u ", " ++ t
  else expanded_primary_query o q.

End QuerySpec.
Import QuerySpec.

(** Hosts and stores for the examples. *)

Definition undecodable_host : Credentials.host :=
  {| Credentials.node_at := fun _ => Credentials.Regular [255; 254];
     Credentials.json_loads := fun _ => Raise (Credentials.error JSONDecodeError) |}.

(** A file of five thousand digits, on a host whose parser stops at 4300. *)
Definition long_integer_host : Credentials.host :=
  {| Credentials.node_at := fun _ => Credentials.Regular (repeat 49 5000);
     Credentials.json_loads := fun text =>
       if (4300 <? length text)%nat
       then Raise {| cls := ValueError;
                     msg := u "Exceeds the limit (4300 digits) for integer string conversion" |}
       else Ret (Credentials.JNumber text) |}.

Definition failing_search : Retriever.search Z :=
  fun _ _ _ => Raise {| cls := RuntimeError; msg := u "ConnectionTimeout" |}.

Definition failing_store : Retriever.vectorstore Z :=
  {| Retriever.similarity_search_with_score := failing_search;
     Retriever.asimilarity_search_with_score := Some failing_search |}.

Definition quiet_world : Bot.world :=
  {| Bot.telegram := fun _ => Ret 1%Z;
     Bot.rag_chain := None;
     Bot.llm_client := no_translation;
     Bot.hash_order := insertion_order;
     Bot.uuid4 := u "0b5a";
     Bot.now := u "2025-01-01T00:00:00" |}.

Definition answering_world : Bot.world :=
  {| Bot.telegram := fun _ => Ret 1%Z;
     Bot.rag_chain := Some (fun _ _ =>
       Ret {| Bot.resp_answer := Some (u "See the study plan.");
              Bot.resp_context := Some [] |});
     Bot.llm_client := no_translation;
     Bot.hash_order := insertion_order;
     Bot.uuid4 := u "0b5a";
     Bot.now := u "2025-01-01T00:00:00" |}.

Definition malformed_press : Bot.callback_query :=
  {| Bot.data := u "feedback_positive";
     Bot.message_text := u "Was this helpful?";
     Bot.message_chat_id := 7%Z;
     Bot.message_reply_markup := None |}.

(** ** Notions of the proofs *)

Import Chain.
Import Credentials.
Import Bot.

(** The code points of an entry of [lower_table], and the code points
    that [lower_full] changes: those of the table, and U+0130. *)
Definition entry_domain (entry : N * N * N * N) : list N :=
  let '(first, last, step, _) := entry in
  map (fun k => first + step * N.of_nat k)
      (seq 0 (S (N.to_nat ((last - first) / step)))).

Definition lower_domain : list N := 304 :: flat_map entry_domain lower_table.

Definition nonspace (c : N) : bool := negb (isspace c).

(** The first code point of the lower-case form of a code point: the
    whole of it for every code point but U+0130. *)
Definition lower_one (c : N) : N := hd c (lower_full c).

(** A synonym that is no word of the query. *)
Definition keep (words : list pystr) (s : pystr) : bool :=
  negb (str_in (str_lower s) words).

(** Every history in the store holds twenty messages at most. *)
Definition bounded (s : state) : Prop :=
  forall c h, user_chat_histories s !! c = Some h -> (length h <= 20)%nat.

(** The same, but for the history of one chat. *)
Definition bounded_but (chat_id : Z) (s : state) : Prop :=
  forall c h, c <> chat_id -> user_chat_histories s !! c = Some h ->
              (length h <= 20)%nat.

(** From [P], the run ends in [Q] when it returns and in [R] when it raises. *)
Definition triple {A} (P : state -> Prop) (m : M state A) (Q R : state -> Prop)
  : Prop :=
  forall s, P s -> match m s with
                   | (Ret _, s') => Q s'
                   | (Raise _, s') => R s'
                   end.

(** The run leaves the histories as they are. *)
Definition frames {A} (m : M state A) : Prop :=
  forall s, user_chat_histories (state_of (m s)) = user_chat_histories s.

(** The reply to a press that cannot be read. *)
Definition error_reply : request :=
  query_edit_message_text (u "Error: Could not process feedback.") None.

(** The search that the coroutine of the retriever runs: the coroutine of
    the store when it has one, the blocking search otherwise. *)
Definition coroutine_search {score} (vs : Retriever.vectorstore score)
  : Retriever.search score :=
  match Retriever.asimilarity_search_with_score vs with
  | Some asearch => asearch
  | None => Retriever.similarity_search_with_score vs
  end.

(** A store whose search is interrupted, a client that can only answer a
    press, and a client that cannot reach Telegram. *)
Definition interrupted_store : Retriever.vectorstore Z :=
  {| Retriever.similarity_search_with_score :=
       fun _ _ _ => Raise {| cls := KeyboardInterrupt; msg := [] |};
     Retriever.asimilarity_search_with_score :=
       Some (fun _ _ _ => Raise {| cls := CancelledError; msg := [] |}) |}.

Definition answer_only_world : world :=
  {| telegram := fun r =>
       match r with
       | query_answer => Ret 1%Z
       | _ => Raise {| cls := TelegramError; msg := u "Message can't be edited" |}
       end;
     rag_chain := None;
     llm_client := no_translation;
     hash_order := insertion_order;
     uuid4 := u "0b5a";
     now := u "2025-01-01T00:00:00" |}.

Definition unreachable_world : world :=
  {| telegram := fun _ => Raise {| cls := TelegramError; msg := u "Timed out" |};
     rag_chain := None;
     llm_client := no_translation;
     hash_order := insertion_order;
     uuid4 := u "0b5a";
     now := u "2025-01-01T00:00:00" |}.

(** ** Notions of the further properties *)

(** Stores for the examples: a search that is cancelled, a search with one hit. *)
Definition cancelled_store : Retriever.vectorstore Z :=
  {| Retriever.similarity_search_with_score :=
       fun _ _ _ => Raise {| cls := CancelledError; msg := [] |};
     Retriever.asimilarity_search_with_score := None |}.

Definition one_hit_store : Retriever.vectorstore Z :=
  {| Retriever.similarity_search_with_score :=
       fun _ _ _ => Ret [({| page_content := u "Exam rules"; metadata := [] |}, 3%Z)];
     Retriever.asimilarity_search_with_score := None |}.

(** The three stores that outlive a handler. *)
Definition stores (s : state)
  : gmap Z (list message) * gmap Z (gmap pystr interaction) * list ragas_record :=
  (user_chat_histories s, chat_data s, ragas_data_pool s).

(** The run leaves the three stores as they are. *)
Definition keeps_stores {A} (m : M state A) : Prop :=
  forall s, stores (state_of (m s)) = stores s.

(** The run raises nothing. *)
Definition returns {S A} (m : M S A) : Prop :=
  forall s, exists a, result_of (m s) = Ret a.

(** From [P], the run returns [a] in a state of [Q a], or raises in a state
    of [R]. *)
Definition hoare {A} (P : state -> Prop) (m : M state A)
    (Q : A -> state -> Prop) (R : state -> Prop) : Prop :=
  forall s, P s -> match m s with
                   | (Ret a, s') => Q a s'
                   | (Raise _, s') => R s'
                   end.

(** Every call into the client returns. *)
Definition client_returns (W : world) : Prop :=
  forall r, exists i, telegram W r = Ret i.

(** The text of the reply that opens a turn. *)
Definition processing_reply : request :=
  reply_text (u "🔄 Processing your request, please wait...") None.

(** The answer of a response, or the text that stands for a missing one. *)
Definition answer_of (r : response) : pystr :=
  default (u "I couldn't find a specific answer based on the available information.")
          (resp_answer r).

(** The query that a turn sends to the chain. *)
Definition preprocessed (W : world) (text : pystr) : pystr :=
  match result_of (preprocess_query_for_retrieval (llm_client W) (hash_order W) text [])
  with
  | Ret r => r
  | Raise _ => text
  end.

(** The two messages that an answered turn adds to the history. *)
Definition turn_messages (text : pystr) (r : response) : list message :=
  [HumanMessage text; AIMessage (answer_of r)].

(** Turns of one chat, each with the world it runs in, its text and the
    response of the chain, that are answered one after the other from the
    history [h]: in every turn the opening reply is sent and the chain,
    called with the preprocessed text and the history that the chat holds
    by then, returns the response. *)
Fixpoint answered (h : list message) (turns : list (world * pystr * response))
  : Prop :=
  match turns with
  | [] => True
  | (W, text, r) :: rest =>
    (exists chain pm,
        rag_chain W = Some chain
        /\ telegram W processing_reply = Ret pm
        /\ chain (preprocessed W text) h = Ret r)
    /\ answered (last_n 20 (h ++ turn_messages text r)) rest
  end.

(** The updates of the turns, and the messages that they add. *)
Definition updates_of (chat_id : Z) (turns : list (world * pystr * response))
  : list (world * update) :=
  map (fun t => (fst (fst t), TextMessage chat_id (snd (fst t)))) turns.

Definition messages_of (turns : list (world * pystr * response)) : list message :=
  flat_map (fun t => turn_messages (snd (fst t)) (snd t)) turns.

(** A world whose chain answers with the number of messages that the
    history holds, after the query. *)
Definition counting_world : world :=
  {| telegram := fun _ => Ret 1%Z;
     rag_chain := Some (fun query h =>
       Ret {| resp_answer := Some (query ++ u " #" ++ repeat 49 (length h));
              resp_context := Some [] |});
     llm_client := no_translation;
     hash_order := insertion_order;
     uuid4 := u "0b5a";
     now := u "2025-01-01T00:00:00" |}.

(** Twelve turns in that world, with three texts in turn. *)
Definition twelve_turns : list (world * pystr * response) :=
  map (fun k =>
         let text := nth (k mod 3) [u "course?"; u "exam dates"; u "Deadline?"] [] in
         (counting_world, text,
          {| resp_answer :=
               Some (preprocessed counting_world text ++ u " #"
                     ++ repeat 49 (Nat.min 20 (2 * k)));
             resp_context := Some [] |}))
      (seq 0 12).

(** The entry that an answered turn writes into the interaction table,
    [sent_as] being the id of the message that carries the answer. *)
Definition recorded_interaction (W : world) (text : pystr) (r : response)
    (sent_as : Z) : interaction :=
  {| question := text;
     preprocessed_question := preprocessed W text;
     answer := answer_of r;
     contexts_docs := default [] (resp_context r);
     answer_message_id := sent_as;
     feedback := None;
     timestamp := now W |}.

(** The record that an answered turn appends to the pool. *)
Definition pooled_record (W : world) (chat_id : Z) (text : pystr) (r : response)
  : ragas_record :=
  {| r_interaction_id := uuid4 W;
     r_question := text;
     r_preprocessed_question := preprocessed W text;
     r_answer := answer_of r;
     r_contexts := map page_content (default [] (resp_context r));
     r_retrieved_document_sources_keys := map source_key (default [] (resp_context r));
     r_chat_id := chat_id;
     r_timestamp := now W;
     r_feedback := None |}.

(** A world whose chain is down. *)
Definition failing_world : world :=
  {| telegram := fun _ => Ret 1%Z;
     rag_chain := Some (fun _ _ => Raise {| cls := RuntimeError; msg := u "timeout" |});
     llm_client := no_translation;
     hash_order := insertion_order;
     uuid4 := u "0b5a";
     now := u "2025-01-01T00:00:00" |}.

(** An interaction, a state that holds it for chat 7, and a press of the
    thumbs-up button under its answer. *)
Definition an_interaction : interaction :=
  {| question := u "course?";
     preprocessed_question := u "course? program study plan module";
     answer := u "See the study plan.";
     contexts_docs := [];
     answer_message_id := 1;
     feedback := None;
     timestamp := u "2025-01-01T00:00:00" |}.

Definition one_answer : state :=
  {| user_chat_histories :=
       {[ 7%Z := [HumanMessage (u "course?"); AIMessage (u "See the study plan.")] ]};
     chat_data := {[ 7%Z := {[ u "0b5a" := an_interaction ]} ]};
     ragas_data_pool := [];
     log := [];
     sent := [] |}.

Definition thumbs_up : callback_query :=
  {| data := u "feedback_positive_0b5a";
     message_text := u "Was this helpful? You can also view sources or get help.";
     message_chat_id := 7;
     message_reply_markup :=
       Some [ [ {| caption := u "See the sources 📄";
                   callback_data := Some (u "sources_0b5a") |} ];
              [ {| caption := u "👍";
                   callback_data := Some (u "feedback_positive_0b5a") |};
                {| caption := u "👎";
                   callback_data := Some (u "feedback_negative_0b5a") |};
                {| caption := u "Help"; callback_data := Some (u "action_show_help") |} ] ] |}.

(* ===================================================================== *)
(** * The sources of an answer: [generate_s3_presigned_url], [sources_callback] *)
(* ===================================================================== *)

Module Sources.

(** [for x in l: acc = body x acc], a loop that may log, call and raise. *)
Fixpoint for_each {S A B} (l : list A) (body : A -> B -> M S B) (acc : B) : M S B :=
  match l with
  | [] => ret acc
  | x :: r => let* acc' := body x acc in for_each r body acc'
  end.

(** The S3 client of the process ([None]: not initialised), whose
    [generate_presigned_url] takes bucket, key and expiry, and the bucket
    name of the credentials. *)
Record s3 := {
  s3_client : option (pystr -> pystr -> nat -> outcome pystr);
  S3_BUCKET : option pystr
}.

Definition generate_s3_presigned_url {S} `{Logging S} (E : s3) (object_key : pystr)
    (expiration : nat) : M S (option pystr) :=
  match s3_client E, S3_BUCKET E with
  | Some client, Some (b :: ucket) =>
    try_except
      (let* url := call (client (b :: ucket) object_key expiration) in
       ret (Some url))
      [ (Exception, fun e =>
           logger ERROR (u "Error generating presigned URL for " ++ (b :: ucket) ++ u "/"
                         ++ object_key ++ u ": " ++ msg e) ;;
           ret None) ]
  | _, _ =>
    logger WARNING (u "S3 client or bucket not configured. Cannot generate presigned URL.") ;;
    ret None
  end.

(** [str(n)] for a natural number. *)
Fixpoint digits (d : Decimal.uint) : pystr :=
  match d with
  | Decimal.Nil => []
  | Decimal.D0 r => 48 :: digits r
  | Decimal.D1 r => 49 :: digits r
  | Decimal.D2 r => 50 :: digits r
  | Decimal.D3 r => 51 :: digits r
  | Decimal.D4 r => 52 :: digits r
  | Decimal.D5 r => 53 :: digits r
  | Decimal.D6 r => 54 :: digits r
  | Decimal.D7 r => 55 :: digits r
  | Decimal.D8 r => 56 :: digits r
  | Decimal.D9 r => 57 :: digits r
  end.

Definition str_of_nat (n : nat) : pystr := digits (Nat.to_uint n).

(** [s.split(sep, 1)]: at most one cut, at the first [sep]. *)
Fixpoint split_once_from (sep : N) (cur s : pystr) : list pystr :=
  match s with
  | [] => [cur]
  | c :: r => if c =? sep then [cur; r] else split_once_from sep (cur ++ [c]) r
  end.

Definition str_split_once (sep : N) (s : pystr) : list pystr :=
  split_once_from sep [] s.

(** [_, interaction_id = parts] *)
Definition unpack2 (parts : list pystr) : outcome (pystr * pystr) :=
  match parts with
  | [a; b] => Ret (a, b)
  | _ => Raise {| cls := ValueError; msg := u "unpack" |}
  end.

Definition slash : N := 47.

(** [key in info] for the dict [unique_s3_keys_info], kept as its items in
    the order of insertion. *)
Definition has_key (key : pystr) (info : list (pystr * pystr)) : bool :=
  str_in key (map fst info).

(** One round of [for doc_obj in interaction_data['contexts_docs']]. *)
Definition add_source (E : s3) (doc_obj : Document)
    (unique_s3_keys_info : list (pystr * pystr)) : M state (list (pystr * pystr)) :=
  if nonempty (metadata doc_obj) then
    let mtd := metadata doc_obj in
    let title := default (u "Unknown Document") (assoc (u "title") mtd) in
    let s3_key :=
      match assoc (u "source_file_key") mtd with
      | Some k => Some k
      | None => assoc (u "source") mtd
      end in
    match s3_key with
    | Some s3_key =>
      if nonempty s3_key && negb (has_key s3_key unique_s3_keys_info) then
        let* presigned_url := generate_s3_presigned_url E s3_key 3600 in
        let doc_filename := List.last (str_split_on slash s3_key) [] in
        let entry := u "📄 <b>" ++ title ++ u "</b> (File: " ++ doc_filename ++ u ")" in
        let entry :=
          match presigned_url with
          | Some (c :: url) =>
            entry ++ u "\n   <a href='" ++ (c :: url)
                  ++ u "'>To see the document (link active for 1 hour)</a>"
          | _ => entry ++ u "\n   (Link unavailable)"
          end in
        ret (unique_s3_keys_info ++ [(s3_key, entry)])
      else ret unique_s3_keys_info
    | None => ret unique_s3_keys_info
    end
  else ret unique_s3_keys_info.

(** [f"{i+1}. {info}" for i, info in enumerate(infos)], from index [i]. *)
Fixpoint numbered (i : nat) (infos : list pystr) : list pystr :=
  match infos with
  | [] => []
  | info :: r => (str_of_nat (S i) ++ u ". " ++ info) :: numbered (S i) r
  end.

(** Lines 686: the cut of a text that is too long. *)
Definition cut_to_limit (final_text : pystr) : pystr :=
  if (4096 <? length final_text)%nat
  then firstn 4090 final_text ++ u "\n...(list truncated)"
  else final_text.

(** The calls of this handler keep, of a call into the client, its text and
    its keyboard. *)
Definition sources_callback (W : world) (E : s3) (chat_id : Z) (query : callback_query)
  : M state unit :=
  tg W query_answer ;;
  let* parts :=
    try_except
      (let* p := call (unpack2 (str_split_once underscore (data query))) in
       ret (Some p))
      [ (ValueError, fun _ =>
           logger WARNING (u "Malformed sources callback data: " ++ data query) ;;
           tg W (query_edit_message_text (u "Error: Could not process this request.") None) ;;
           ret None) ] in
  match parts with
  | None => ret tt                                          (* [return] *)
  | Some (_, interaction_id) =>
    let* interaction_data :=
      read (fun s => chat_data s !! chat_id ≫= (fun table => table !! interaction_id)) in
    match interaction_data with
    | Some interaction_data =>
      if nonempty (contexts_docs interaction_data) then
        let sources_output_list := [u "<b>Sources:</b>"] in
        let* unique_s3_keys_info :=
          for_each (contexts_docs interaction_data) (add_source E) [] in
        let sources_output_list :=
          if negb (nonempty unique_s3_keys_info)
          then sources_output_list ++ [u "No specific document sources were identified."]
          else sources_output_list ++ numbered 0 (map snd unique_s3_keys_info) in
        let final_text := str_join (u "\n\n") sources_output_list in
        let final_text := cut_to_limit final_text in
        try_except
          (tg W (query_edit_message_text final_text None) ;;
           ret tt)
          [ (Exception, fun e =>
               logger ERROR (u "Failed to edit message for sources: " ++ msg e
                             ++ u ". Sending new message.") ;;
               tg W (send_message (message_chat_id query) final_text) ;;
               ret tt) ]
      else
        tg W (query_edit_message_text
                (u "Sorry, the sources for this answer are no longer available.") None) ;;
        ret tt
    | None =>
      tg W (query_edit_message_text
              (u "Sorry, the sources for this answer are no longer available.") None) ;;
      ret tt
    end
  end.

(** ** [show_help_callback] *)

Definition show_help_callback (W : world) (HELP_TEXT_CONTENT : pystr)
    (query : callback_query) : M state unit :=
  tg W query_answer ;;
  tg W (send_message (message_chat_id query) HELP_TEXT_CONTENT) ;;
  ret tt.

(** The text that a call into the client carries, if it carries one. *)
Definition request_text (r : request) : pystr :=
  match r with
  | reply_text text _ | reply_html text | edit_message_text text _ _
  | send_message _ text | query_edit_message_text text _ => text
  | delete_message _ _ | query_answer => []
  end.

(** A run that leaves a part [f] of the state as it is. *)
Definition keeps {A X} (f : state -> X) (m : M state A) : Prop :=
  forall s, f (state_of (m s)) = f s.

(** The first of each key, in order: what a dict keeps of a list of keys. *)
Fixpoint first_keys (seen : list pystr) (keys : list pystr) : list pystr :=
  match keys with
  | [] => []
  | k :: r => if str_in k seen then first_keys seen r
              else k :: first_keys (seen ++ [k]) r
  end.

(** The key under which a document is listed, if it is. *)
Definition listed_key (doc_obj : Document) : option pystr :=
  if nonempty (metadata doc_obj) then
    match assoc (u "source_file_key") (metadata doc_obj) with
    | Some k => if nonempty k then Some k else None
    | None => match assoc (u "source") (metadata doc_obj) with
              | Some k => if nonempty k then Some k else None
              | None => None
              end
    end
  else None.

End Sources.
Import Sources.

(** An S3 that signs, and an interaction with two chunks of one file. *)
Definition signing_s3 : s3 :=
  {| s3_client := Some (fun bucket key _ => Ret (u "https://s3/" ++ bucket ++ u "/" ++ key));
     S3_BUCKET := Some (u "miba") |}.

Definition chunk_of_rules (text : string) : Document :=
  {| page_content := u text;
     metadata := [ (u "title", u "Exam rules");
                   (u "source_file_key", u "docs/exam_rules.pdf") ] |}.

Definition sourced_answer : state :=
  {| user_chat_histories := ∅;
     chat_data :=
       {[ 7%Z := {[ u "0b5a" :=
            {| question := u "exam?"; preprocessed_question := u "exam?";
               answer := u "See the exam rules.";
               contexts_docs := [chunk_of_rules "Part one"; chunk_of_rules "Part two"];
               answer_message_id := 1; feedback := None;
               timestamp := u "2025-01-01T00:00:00" |} ]} ]};
     ragas_data_pool := [];
     log := [];
     sent := [] |}.

Definition sources_press : callback_query :=
  {| data := u "sources_0b5a";
     message_text := u "Was this helpful? You can also view sources or get help.";
     message_chat_id := 7;
     message_reply_markup := None |}.

(** Every text sent since the list [before] has [n] characters at most. *)
Definition texts_within (before : list request) (n : nat) (s : state) : Prop :=
  forall r, In r (sent s) -> In r before \/ (length (request_text r) <= n)%nat.

(** The S3 client raises nothing outside of [Exception]. *)
Definition s3_raises_exceptions_only (E : s3) : Prop :=
  forall client bucket key n e,
    s3_client E = Some client -> client bucket key n = Raise e ->
    caught_by Exception e = true.

(* ===================================================================== *)
(** * Ingestion: [docs_from_s3_files], [get_documents] *)
(* ===================================================================== *)

Module Ingestion.

Import Credentials.

(** A document under ingestion.  Its metadata holds what the model's JSON
    object holds under "title" and "topics": JSON values of any kind. *)
Record Document := {
  page_content : pystr;
  metadata : list (pystr * json)
}.

(** [s.removeprefix(p)], [s.removesuffix(p)] *)
Definition removeprefix (p s : pystr) : pystr :=
  if is_prefix p s then skipn (length p) s else s.

Definition removesuffix (p s : pystr) : pystr :=
  rev (removeprefix (rev p) (rev s)).

(** [d[k] = v] on a dict kept as its items: the place of a key that is
    there, the end for a new key. *)
Fixpoint dict_set (k : pystr) (v : json) (d : list (pystr * json))
  : list (pystr * json) :=
  match d with
  | [] => [(k, v)]
  | (k', v') :: r => if str_eqb k k' then (k, v) :: r else (k', v') :: dict_set k v r
  end.

(** The value of the last member named [k]: what the dict made by
    [json.loads] holds under [k]. *)
Fixpoint last_member (k : pystr) (members : list (pystr * json)) : option json :=
  match members with
  | [] => None
  | (k', v) :: r =>
    match last_member k r with
    | Some v' => Some v'
    | None => if str_eqb k k' then Some v else None
    end
  end.

(** The name of the Python type of what [json.loads] makes of a value; a
    number is a [float] when its literal has a fraction or an exponent or
    is one of NaN, Infinity and -Infinity. *)
Definition type_name (v : json) : pystr :=
  match v with
  | JNull => u "NoneType"
  | JBool _ => u "bool"
  | JNumber literal =>
    if existsb (fun c => char_in c (u ".eENI")) literal then u "float" else u "int"
  | JString _ => u "str"
  | JArray _ => u "list"
  | JObject _ => u "dict"
  end.

(** [metadata_dict.get(k, default)]: only a JSON object has a [get]. *)
Definition dict_get (metadata_dict : json) (k : pystr) (default : json) : outcome json :=
  match metadata_dict with
  | JObject members =>
    Ret (match last_member k members with Some v => v | None => default end)
  | v => Raise {| cls := AttributeError;
                  msg := u "'" ++ type_name v ++ u "' object has no attribute 'get'" |}
  end.

(** The object storage, the model and the parser of a run.
    [FORCE_PROCESS_DOCS_FROM_S3] is the setting of [config.py] ([False]
    there).  [json_loads] is [json.loads] on a text: the value, or what the
    parser raises, [JSONDecodeError], [ValueError] or [RecursionError] as
    for [Credentials.host]; whatever it raises is an instance of
    [Exception]. *)
Record world := {
  s3_client : option (pystr -> pystr -> outcome (option (list pystr)));
                                  (* list_objects_v2(Bucket, Prefix): the keys
                                     under 'Contents', when there are any *)
  S3_BUCKET : option pystr;
  S3_BUCKET_PREFIX : pystr;
  S3FileLoader_load : pystr -> pystr -> outcome (list Document);
  llm_client : client;
  json_loads : pystr -> outcome json;
  json_loads_raises :
    forall text e, json_loads text = Raise e -> caught_by Exception e = true;
  FORCE_PROCESS_DOCS_FROM_S3 : bool;
  loads : pystr -> outcome (list Document);      (* langchain_core.load.loads *)
  dumps : list Document -> outcome pystr         (* langchain_core.load.dumps *)
}.

(** The list under construction and the log.  A record of the log keeps
    the level and the constant part of its message, with the file path and
    the text of the exception where the source puts them; the counts and
    the printed dicts of the messages are left out, and no property below
    reads the text of a record. *)
Record state := {
  processed_docs : list Document;
  log : list log_record
}.

#[export] Instance state_logging : Logging state :=
  fun r s => {| processed_docs := processed_docs s; log := log s ++ [r] |}.

Definition append (doc : Document) : M state unit :=
  fun s => (Ret tt, {| processed_docs := processed_docs s ++ [doc]; log := log s |}).

Definition with_logger {A} (m : M (list log_record) A) : M state A :=
  fun s => let (r, l) := m (log s) in (r, {| processed_docs := processed_docs s; log := l |}).

Definition instruction_text : pystr :=
  u "Extract the title of the document and summarize the main topics. "
  ++ (u "Respond in JSON format with keys " ++ dquote ++ u "title" ++ dquote
      ++ u " (string) and " ++ dquote ++ u "topics" ++ dquote
      ++ u " (string, comma-separated). ")
  ++ (u "Example: {" ++ dquote ++ u "title" ++ dquote ++ u ": " ++ dquote
      ++ u "Document Name" ++ dquote ++ u ", " ++ dquote ++ u "topics" ++ dquote
      ++ u ": " ++ dquote ++ u "topic1, topic2, topic3" ++ dquote ++ u "}. ")
  ++ (u "If extraction fails, use {" ++ dquote ++ u "title" ++ dquote ++ u ": " ++ dquote
      ++ u "Default Title" ++ dquote ++ u ", " ++ dquote ++ u "topics" ++ dquote
      ++ u ": " ++ dquote ++ u "not defined" ++ dquote ++ u "}.").

(** [file_path.split('/')[-1]] *)
Definition file_name (file_path : pystr) : pystr :=
  List.last (str_split_on slash file_path) [].

Definition fallback_metadata (title : pystr) : json :=
  JObject [ (u "title", JString title); (u "topics", JString (u "not defined")) ].

(** [s.strip().removeprefix("```json").removeprefix("```")
       .removesuffix("```").strip()] *)
Definition unfence (s : pystr) : pystr :=
  str_strip (removesuffix (u "```")
               (removeprefix (u "```")
                  (removeprefix (u "```json") (str_strip s)))).

(** One round of [for doc_item in loaded_content]. *)
Definition describe (W : world) (file_path : pystr) (doc_item : Document)
  : M state unit :=
  let page_content_for_prompt := firstn 1800 (page_content doc_item) in
  let* metadata_json_str :=
    with_logger (ask_llm_for_metadata (llm_client W) page_content_for_prompt
                                      instruction_text) in
  let* metadata_dict :=
    if nonempty metadata_json_str then
      try_except
        (let clean_json_str := unfence metadata_json_str in
         let* metadata_dict := call (json_loads W clean_json_str) in
         logger INFO (u "Extracted metadata for " ++ file_path) ;;
         ret metadata_dict)
        [ (JSONDecodeError, fun _ =>
             logger WARNING (u "Failed to parse LLM JSON metadata for " ++ file_path
                             ++ u ": '" ++ metadata_json_str ++ u "'") ;;
             ret (fallback_metadata (u "Metadata error for " ++ file_name file_path))) ]
    else ret (fallback_metadata (u "No LLM metadata for " ++ file_name file_path)) in
  let* title :=
    call (dict_get metadata_dict (u "title") (JString (u "File " ++ file_name file_path))) in
  let* topics :=
    call (dict_get metadata_dict (u "topics") (JString (u "not defined"))) in
  append {| page_content := page_content doc_item;
            metadata := dict_set (u "source_file_key") (JString file_path)
                          (dict_set (u "topics") topics
                             (dict_set (u "title") title (metadata doc_item))) |}.

(** The document that stands for a file that could not be processed. *)
Definition error_document (file_path : pystr) (e : exn) : Document :=
  {| page_content := u "Error processing content from " ++ file_path ++ u ". Error: "
                     ++ msg e;
     metadata := [ (u "source", JString file_path);
                   (u "title", JString (u "Error Document"));
                   (u "topics", JString (u "error"));
                   (u "source_file_key", JString file_path) ] |}.

(** One round of [for file_path in files_to_process]. *)
Definition process_file (W : world) (bucket : pystr) (file_path : pystr)
  : M state unit :=
  logger INFO (u "Processing S3 file: " ++ file_path) ;;
  try_except
    (let* loaded_content := call (S3FileLoader_load W bucket file_path) in
     for_each loaded_content (fun doc_item _ => describe W file_path doc_item) tt)
    [ (Exception, fun e =>
         logger ERROR (u "Failed to process S3 file " ++ file_path ++ u ": " ++ msg e) ;;
         append (error_document file_path e)) ].

(** The body of a function with the local list [processed_docs]: the
    list starts empty and is what the function returns. *)
Definition returning_processed_docs (body : M state unit)
  : M (list log_record) (list Document) :=
  fun l => match body {| processed_docs := []; log := l |} with
           | (Ret _, s) => (Ret (processed_docs s), log s)
           | (Raise e, s) => (Raise e, log s)
           end.

Definition docs_from_s3_files (W : world) (files_to_process : list pystr)
  : M (list log_record) (list Document) :=
  returning_processed_docs
    (match s3_client W, S3_BUCKET W with
     | Some _, Some (b :: ucket) =>
       for_each files_to_process (fun file_path _ => process_file W (b :: ucket) file_path) tt
     | _, _ =>
       logger ERROR (u "S3 client or bucket not configured. Cannot process files from S3.")
     end).

(** ** [get_documents] *)

(** The file [config.SERIALIZED_DOCS_FILE] ([None]: it does not exist) and
    the log. *)
Record disk := {
  serialized_docs_file : option pystr;
  disk_log : list log_record
}.

#[export] Instance disk_logging : Logging disk :=
  fun r d => {| serialized_docs_file := serialized_docs_file d;
                disk_log := disk_log d ++ [r] |}.

Definition on_log {A} (m : M (list log_record) A) : M disk A :=
  fun d => let (r, l) := m (disk_log d) in
           (r, {| serialized_docs_file := serialized_docs_file d; disk_log := l |}).

(** [with open(FILE, 'r') as f: f.read()] *)
Definition read_file (readable : bool) : M disk pystr :=
  fun d => match serialized_docs_file d with
           | Some text =>
             if readable then (Ret text, d)
             else (Raise {| cls := PermissionError; msg := [] |}, d)
           | None => (Raise {| cls := FileNotFoundError; msg := [] |}, d)
           end.

(** [with open(FILE, 'w') as f: f.write(text)] *)
Definition write_file (writable : bool) (text : pystr) : M disk unit :=
  fun d => if writable
           then (Ret tt, {| serialized_docs_file := Some text; disk_log := disk_log d |})
           else (Raise {| cls := PermissionError; msg := [] |}, d).

Definition ends_with (p s : pystr) : bool := is_prefix (rev p) (rev s).

(** The keys of a listing that are files to ingest. *)
Definition rag_files_of (all_files : list pystr) : list pystr :=
  List.filter (fun x => negb (ends_with (u "/") x)
                        && negb (contains (u ".ipynb_checkpoints") x))
              all_files.

(** The first part: the documents of the cache, or none. *)
Definition load_cached (W : world) (readable : bool) : M disk (list Document) :=
  fun d =>
    (if negb (FORCE_PROCESS_DOCS_FROM_S3 W) && bool_decide (is_Some (serialized_docs_file d))
     then
       try_except
         (let* string_representation := read_file readable in
          let* docs := call (loads W string_representation) in
          logger INFO (u "Loaded documents from processed_langchain_docs.json") ;;
          if negb (nonempty docs) then
            logger WARNING (u "processed_langchain_docs.json was empty. Will try to process from S3.") ;;
            raise {| cls := FileNotFoundError; msg := [] |}
          else ret docs)
         [ (Exception, fun e =>
              logger WARNING (u "Error loading documents from processed_langchain_docs.json: "
                              ++ msg e ++ u ". Will try to process from S3.") ;;
              ret []) ]
     else ret []) d.

(** The second part, when the cache gave nothing: [inl] is an early
    [return], [inr] the value of [docs] at the end of the block. *)
Definition ingest_from_s3 (W : world) (writable : bool)
  : M disk (list Document + list Document) :=
  match s3_client W, S3_BUCKET W, S3_BUCKET_PREFIX W with
  | Some list_objects_v2, Some (b :: ucket), p :: refix =>
    logger INFO (u "Processing documents from S3...") ;;
    try_except
      (let* s3_objects := call (list_objects_v2 (b :: ucket) (p :: refix)) in
       let all_files := default [] s3_objects in
       let rag_files := rag_files_of all_files in
       logger INFO (u "Found files in S3 to process.") ;;
       if negb (nonempty rag_files) then
         logger WARNING (u "No files found in S3 bucket.") ;;
         ret (inl [])
       else
         let* docs := on_log (docs_from_s3_files W rag_files) in
         (if nonempty docs then
            try_except
              (let* string_representation := call (dumps W docs) in
               write_file writable string_representation ;;
               logger INFO (u "Processed and saved documents to processed_langchain_docs.json"))
              [ (Exception, fun e =>
                   logger ERROR (u "Error saving serialized documents: " ++ msg e)) ]
          else logger WARNING (u "No documents were processed from S3.")) ;;
         ret (inr docs))
      [ (Exception, fun e =>
           logger ERROR (u "Error listing or processing files from S3: " ++ msg e) ;;
           ret (inl [])) ]
  | _, _, _ =>
    logger ERROR (u "S3 client, bucket or prefix not configured. Cannot fetch files from S3.") ;;
    ret (inl [])
  end.

Definition get_documents (W : world) (readable writable : bool)
  : M disk (list Document) :=
  let* docs := load_cached W readable in
  let* docs :=
    if negb (nonempty docs) then ingest_from_s3 W writable
    else ret (inr docs) in
  match docs with
  | inl returned => ret returned
  | inr docs =>
    (if negb (nonempty docs)
     then logger CRITICAL (u "No documents available for the RAG system. Bot may not function correctly.")
     else ret tt) ;;
    ret docs
  end.

(** The metadata value of a document under a key. *)
Fixpoint item (k : pystr) (d : list (pystr * json)) : option json :=
  match d with
  | [] => None
  | (k', v) :: r => if str_eqb k k' then Some v else item k r
  end.

(** The state in which a list starts. *)
Definition fresh : state := {| processed_docs := []; log := [] |}.

(** A run that only appends to the list, and whose outcome and documents
    do not depend on the state it starts in. *)
Definition appends {A} (m : M state A) : Prop :=
  forall s, result_of (m s) = result_of (m fresh)
            /\ processed_docs (state_of (m s))
               = processed_docs s ++ processed_docs (state_of (m fresh)).

(** A run that returns, or raises what [except Exception] does not catch. *)
Definition raises_no_exception {S A} (m : M S A) : Prop :=
  forall s, match result_of (m s) with
            | Ret _ => True
            | Raise e => caught_by Exception e = false
            end.

(** The documents a batch of files adds to a list that starts empty. *)
Definition batch_docs (W : world) (bucket : pystr) (files : list pystr)
  : list Document :=
  processed_docs
    (state_of (for_each files (fun file_path _ => process_file W bucket file_path) tt
                 fresh)).

(** A run whose outcome does not depend on the file and the log. *)
Definition blind {A} (m : M disk A) : Prop :=
  forall d d', result_of (m d) = result_of (m d').

(** Both parts of the storage configuration are there. *)
Definition s3_configured (W : world) (bucket : pystr) : Prop :=
  is_Some (s3_client W) /\ S3_BUCKET W = Some bucket /\ bucket <> [].

(** A document that carries its title, its topics and the key of the file
    [file_path]. *)
Definition described (file_path : pystr) (doc : Document) : Prop :=
  item (u "source_file_key") (metadata doc) = Some (JString file_path)
  /\ item (u "title") (metadata doc) <> None
  /\ item (u "topics") (metadata doc) <> None.

(** The loaded document [doc_item] with the labels of a file. *)
Definition labelled (file_path : pystr) (doc_item : Document) (title topics : json)
  : Document :=
  {| page_content := page_content doc_item;
     metadata := dict_set (u "source_file_key") (JString file_path)
                   (dict_set (u "topics") topics
                      (dict_set (u "title") title (metadata doc_item))) |}.

(** What [.get] raises on a value that is no dict. *)
Definition no_get (v : json) : exn :=
  {| cls := AttributeError;
     msg := u "'" ++ type_name v ++ u "' object has no attribute 'get'" |}.

(** The three keys that ingestion sets. *)
Definition label_keys : list pystr := [u "title"; u "topics"; u "source_file_key"].

(** [doc] is the loaded document [doc_item] of the file [file_path] with
    its labels: same content, the three keys set, the rest of the metadata
    as loaded. *)
Definition labelled_from (loaded : pystr * Document) (doc : Document) : Prop :=
  page_content doc = page_content (snd loaded)
  /\ described (fst loaded) doc
  /\ forall k, ~ In k label_keys ->
                item k (metadata doc) = item k (metadata (snd loaded)).

(** The parser gives JSON objects only, and raises [JSONDecodeError]
    only. *)
Definition parses_objects_only (W : world) : Prop :=
  forall text,
    (exists members, json_loads W text = Ret (JObject members))
    \/ (exists e, json_loads W text = Raise e /\ caught_by JSONDecodeError e = true).

(** What makes a round of the inner loop raise [e]: the parser has given
    a value that is no object, which has no [get]; or the parser has
    raised [e], and [e] is no [JSONDecodeError]. *)
Definition describe_failure (W : world) (text : pystr) (e : exn) : Prop :=
  (exists v, json_loads W text = Ret v /\ (forall members, v <> JObject members)
             /\ e = no_get v)
  \/ (json_loads W text = Raise e /\ caught_by JSONDecodeError e = false).

(** The loader raises nothing outside of [Exception]. *)
Definition loader_raises_exceptions_only (W : world) : Prop :=
  forall bucket file_path e,
    S3FileLoader_load W bucket file_path = Raise e -> caught_by Exception e = true.

End Ingestion.

(** Worlds for the examples of ingestion: the loader gives two chunks for
    every file but "bad.pdf", the model answers with a fenced JSON object. *)
Definition two_chunks : list Ingestion.Document :=
  [ {| Ingestion.page_content := u "First part"; Ingestion.metadata := [] |};
    {| Ingestion.page_content := u "Second part"; Ingestion.metadata := [] |} ].

Definition campus_listing : pystr -> pystr -> outcome (option (list pystr)) :=
  fun _ _ => Ret (Some [u "docs/"; u "docs/rules.pdf"]).

Definition campus_world : Ingestion.world :=
  {| Ingestion.s3_client := Some campus_listing;
     Ingestion.S3_BUCKET := Some (u "miba");
     Ingestion.S3_BUCKET_PREFIX := u "docs/";
     Ingestion.S3FileLoader_load := fun _ file_path =>
       if str_eqb file_path (u "bad.pdf")
       then Raise {| cls := RuntimeError; msg := u "NoSuchKey" |}
       else Ret two_chunks;
     Ingestion.llm_client := translates_to (u "```json {} ```");
     Ingestion.json_loads := fun _ =>
       Ret (Credentials.JObject [(u "title", Credentials.JString (u "Rules"))]);
     Ingestion.json_loads_raises := ltac:(intros text e H; discriminate H);
     Ingestion.FORCE_PROCESS_DOCS_FROM_S3 := false;
     Ingestion.loads := fun text => if str_eqb text (u "cache") then
         Ret [ {| Ingestion.page_content := u "First part"; Ingestion.metadata := [] |} ]
       else Ret [];
     Ingestion.dumps := fun _ => Ret (u "cache") |}.

(** The documents of the one file of [campus_world], and a world without
    object storage that can only read them back from the cache. *)
Definition campus_docs : list Ingestion.Document :=
  Ingestion.batch_docs campus_world (u "miba") [u "docs/rules.pdf"].

Definition offline_world : Ingestion.world :=
  {| Ingestion.s3_client := None;
     Ingestion.S3_BUCKET := None;
     Ingestion.S3_BUCKET_PREFIX := [];
     Ingestion.S3FileLoader_load := fun _ _ =>
       Raise {| cls := KeyboardInterrupt; msg := [] |};
     Ingestion.llm_client := no_translation;
     Ingestion.json_loads := fun _ => Raise (Credentials.error JSONDecodeError);
     Ingestion.json_loads_raises := ltac:(intros text e H; injection H as <-; reflexivity);
     Ingestion.FORCE_PROCESS_DOCS_FROM_S3 := false;
     Ingestion.loads := fun text =>
       if str_eqb text (u "cache") then Ret campus_docs
       else Raise {| cls := ValueError; msg := [] |};
     Ingestion.dumps := fun _ => Raise {| cls := ValueError; msg := [] |} |}.

(** [campus_world] with a parser that stops at an integer too long. *)
Definition digits_world : Ingestion.world :=
  {| Ingestion.s3_client := Ingestion.s3_client campus_world;
     Ingestion.S3_BUCKET := Ingestion.S3_BUCKET campus_world;
     Ingestion.S3_BUCKET_PREFIX := Ingestion.S3_BUCKET_PREFIX campus_world;
     Ingestion.S3FileLoader_load := Ingestion.S3FileLoader_load campus_world;
     Ingestion.llm_client := translates_to (u "```json {} ```");
     Ingestion.json_loads := fun _ =>
       Raise {| cls := ValueError;
                msg := u "Exceeds the limit (4300 digits) for integer string conversion" |};
     Ingestion.json_loads_raises := ltac:(intros text e H; injection H as <-; reflexivity);
     Ingestion.FORCE_PROCESS_DOCS_FROM_S3 := false;
     Ingestion.loads := Ingestion.loads campus_world;
     Ingestion.dumps := Ingestion.dumps campus_world |}.

(** [campus_world] with a model whose replies parse to a JSON array. *)
Definition array_world : Ingestion.world :=
  {| Ingestion.s3_client := Ingestion.s3_client campus_world;
     Ingestion.S3_BUCKET := Ingestion.S3_BUCKET campus_world;
     Ingestion.S3_BUCKET_PREFIX := Ingestion.S3_BUCKET_PREFIX campus_world;
     Ingestion.S3FileLoader_load := Ingestion.S3FileLoader_load campus_world;
     Ingestion.llm_client := translates_to (u "```json [] ```");
     Ingestion.json_loads := fun _ => Ret (Credentials.JArray []);
     Ingestion.json_loads_raises := ltac:(intros text e H; discriminate H);
     Ingestion.FORCE_PROCESS_DOCS_FROM_S3 := false;
     Ingestion.loads := Ingestion.loads campus_world;
     Ingestion.dumps := Ingestion.dumps campus_world |}.

(* ===================================================================== *)
(** * Theorems *)
(* ===================================================================== *)

(** ** Strings *)

Lemma str_eqb_eq a b : str_eqb a b = true <-> a = b.
Proof.
  revert b. induction a as [|x a IH]; intros [|y b]; simpl; split;
    try congruence; try discriminate.
  - intros H. apply andb_prop in H as [Hx Ha].
    apply N.eqb_eq in Hx. apply IH in Ha. congruence.
  - intros H. injection H as -> ->. rewrite N.eqb_refl. simpl. now apply IH.
Qed.

Lemma str_in_In x l : str_in x l = true <-> In x l.
Proof.
  unfold str_in. rewrite existsb_exists. split.
  - intros [y [Hy He]]. apply str_eqb_eq in He. now subst.
  - intros H. exists x. split; [assumption | now apply str_eqb_eq].
Qed.

Lemma str_in_false x l : str_in x l = false <-> ~ In x l.
Proof.
  rewrite <- str_in_In. destruct (str_in x l); split; congruence.
Qed.

(** A property of every code point below a bound, by running through them. *)
Lemma below_by_enumeration (P : N -> bool) (n : nat) :
  forallb P (map N.of_nat (seq 0 n)) = true ->
  forall c, c < N.of_nat n -> P c = true.
Proof.
  intros H c Hc. rewrite forallb_forall in H. apply H.
  rewrite <- (N2Nat.id c). apply in_map. apply in_seq. lia.
Qed.

Lemma between_above lo hi c : hi < c -> between lo hi c = false.
Proof.
  intros H. unfold between. apply andb_false_iff. right. now apply N.leb_gt.
Qed.

(** *** The tables of [lower] *)

Lemma lower_lookup_domain c table d :
  lower_lookup c table = Some d -> In c (flat_map entry_domain table).
Proof.
  induction table as [|[[[first last] step] image] r IH]; cbn [lower_lookup flat_map];
    [discriminate|].
  destruct (c <? first) eqn:Hlo; [discriminate|].
  destruct ((c <=? last) && ((c - first) mod step =? 0)) eqn:Hin.
  - intros _. apply in_or_app. left.
    apply N.ltb_ge in Hlo. apply andb_prop in Hin as [Hhi Hmod].
    apply N.leb_le in Hhi. apply N.eqb_eq in Hmod.
    unfold entry_domain. apply in_map_iff.
    exists (N.to_nat ((c - first) / step)). split.
    + rewrite N2Nat.id. pose proof (N.Div0.div_mod (c - first) step) as E.
      rewrite Hmod, N.add_0_r in E. rewrite <- E. lia.
    + apply in_seq.
      assert (Hq : (c - first) / step <= (last - first) / step)
        by (apply N.Div0.div_le_mono; lia).
      revert Hq. generalize ((c - first) / step), ((last - first) / step).
      intros q q' Hq. lia.
  - intros H. apply in_or_app. right. now apply IH.
Qed.

(** A property of every code point: of those that [lower] changes, one
    by one, and of those that it leaves as they are. *)
Lemma lower_full_cases (P : N -> Prop) :
  (forall c, In c lower_domain -> P c) ->
  (forall c, lower_full c = [c] -> P c) ->
  forall c, P c.
Proof.
  intros Hdom Hfix c. destruct (c =? 304) eqn:E.
  - apply N.eqb_eq in E. subst c. apply Hdom. now left.
  - destruct (lower_lookup c lower_table) as [d|] eqn:El.
    + apply Hdom. right. now apply lower_lookup_domain with (d := d).
    + apply Hfix. unfold lower_full. now rewrite E, El.
Qed.

Lemma lower_full_check (P : N -> bool) :
  forallb P lower_domain = true ->
  (forall c, lower_full c = [c] -> P c = true) ->
  forall c, P c = true.
Proof.
  intros Hdom Hfix. apply lower_full_cases; [|exact Hfix].
  now apply forallb_forall.
Qed.

Lemma isspace_above c : 12288 < c -> isspace c = false.
Proof.
  intros H. unfold isspace. rewrite !between_above by lia.
  repeat match goal with
         | |- context [c =? ?n] =>
           replace (c =? n) with false by (symmetry; apply N.eqb_neq; lia)
         end.
  reflexivity.
Qed.

(** White space is left as it is by [lower] and is neither cased nor
    case-ignorable. *)
Lemma isspace_plain c :
  isspace c = true ->
  c <> 931 /\ lower_full c = [c] /\ is_case_ignorable c = false /\ is_cased c = false.
Proof.
  intros Hc.
  assert (Hlt : c < 12289).
  { destruct (N.lt_ge_cases c 12289) as [H|H]; [exact H|].
    rewrite isspace_above in Hc by lia. discriminate. }
  pose proof (below_by_enumeration
    (fun c => if isspace c
              then negb (c =? 931) && str_eqb (lower_full c) [c]
                   && negb (is_case_ignorable c) && negb (is_cased c)
              else true) 12289) as E.
  specialize (E ltac:(vm_compute; reflexivity) c Hlt). cbv beta in E.
  rewrite Hc in E.
  apply andb_prop in E as [E E4]. apply andb_prop in E as [E E3].
  apply andb_prop in E as [E1 E2].
  apply negb_true_iff in E1, E3, E4. apply N.eqb_neq in E1. apply str_eqb_eq in E2.
  tauto.
Qed.

Lemma lower_full_nonspace c :
  isspace c = false -> forallb nonspace (lower_full c) = true.
Proof.
  revert c.
  assert (H : forall c, (if isspace c then true
                         else forallb nonspace (lower_full c)) = true).
  { apply lower_full_check; [vm_compute; reflexivity|].
    intros c Hfix. destruct (isspace c) eqn:E; [reflexivity|].
    rewrite Hfix. cbn [forallb]. unfold nonspace. now rewrite E. }
  intros c Hc. specialize (H c). now rewrite Hc in H.
Qed.

(** *** [lower] *)

Lemma reaches_cased_cons c s :
  reaches_cased (c :: s) = if is_case_ignorable c then reaches_cased s else is_cased c.
Proof. unfold reaches_cased. cbn [skip_case_ignorable]. now destruct (is_case_ignorable c). Qed.

Lemma lower_from_context b b' s :
  reaches_cased b = reaches_cased b' -> lower_from b s = lower_from b' s.
Proof.
  revert b b'. induction s as [|c r IH]; intros b b' H; cbn [lower_from]; [reflexivity|].
  unfold final_sigma. rewrite H. f_equal. apply IH.
  now rewrite !reaches_cased_cons, H.
Qed.

Lemma reaches_cased_app_space t w r :
  isspace w = true -> reaches_cased (t ++ w :: r) = reaches_cased t.
Proof.
  intros Hw. destruct (isspace_plain w Hw) as [_ [_ [Hci Hca]]].
  induction t as [|c t IH]; cbn [app].
  - rewrite reaches_cased_cons, Hci, Hca. reflexivity.
  - rewrite !reaches_cased_cons, IH. reflexivity.
Qed.

(** [lower] does not look across white space. *)
Lemma lower_from_app_space b t w r :
  isspace w = true ->
  lower_from b (t ++ w :: r) = lower_from b t ++ w :: str_lower r.
Proof.
  intros Hw. destruct (isspace_plain w Hw) as [Hs [Hfix [Hci Hca]]].
  revert b. induction t as [|c t IH]; intros b; cbn [app lower_from].
  - replace (w =? 931) with false by (symmetry; now apply N.eqb_neq).
    rewrite Hfix. cbn [app]. f_equal. apply lower_from_context.
    rewrite reaches_cased_cons, Hci, Hca. reflexivity.
  - unfold final_sigma. rewrite reaches_cased_app_space by exact Hw.
    rewrite IH. now rewrite app_assoc.
Qed.

Lemma lower_from_nonspace b t :
  forallb nonspace t = true -> forallb nonspace (lower_from b t) = true.
Proof.
  revert b. induction t as [|c t IH]; intros b H; cbn [lower_from]; [reflexivity|].
  cbn [forallb] in H. apply andb_prop in H as [Hc Ht].
  rewrite forallb_app, IH by exact Ht. rewrite andb_true_r.
  destruct (c =? 931).
  - now destruct (final_sigma b t).
  - apply lower_full_nonspace. unfold nonspace in Hc. now apply negb_true_iff in Hc.
Qed.

Lemma lower_full_not_nil c : lower_full c <> [].
Proof.
  unfold lower_full. destruct (c =? 304); [discriminate|].
  destruct (lower_lookup c lower_table); discriminate.
Qed.

Lemma lower_from_nil b t : lower_from b t = [] -> t = [].
Proof.
  destruct t as [|c t]; [reflexivity|]. cbn [lower_from]. intros H.
  apply app_eq_nil in H as [H _]. destruct (c =? 931); [discriminate|].
  now apply lower_full_not_nil in H.
Qed.

(** ** [split] *)

Lemma split_from_nonspace cur t r :
  forallb nonspace t = true -> split_from cur (t ++ r) = split_from (cur ++ t) r.
Proof.
  revert cur. induction t as [|c t IH]; intros cur H; cbn [app].
  - now rewrite app_nil_r.
  - cbn [forallb] in H. apply andb_prop in H as [Hc Ht].
    unfold nonspace in Hc. apply negb_true_iff in Hc.
    cbn [split_from]. rewrite Hc, IH by exact Ht. now rewrite <- app_assoc.
Qed.

Lemma flush_lower cur : flush (str_lower cur) = map str_lower (flush cur).
Proof.
  destruct cur as [|c r]; [reflexivity|]. cbn [flush map].
  destruct (str_lower (c :: r)) eqn:E; [|reflexivity].
  now apply lower_from_nil in E.
Qed.

Lemma split_lower_from cur s :
  forallb nonspace cur = true ->
  str_split (str_lower (cur ++ s)) = map str_lower (split_from cur s).
Proof.
  revert cur. induction s as [|c r IH]; intros cur Hcur.
  - rewrite app_nil_r. cbn [split_from]. unfold str_split.
    rewrite <- (app_nil_r (str_lower cur)).
    rewrite split_from_nonspace by (now apply lower_from_nonspace).
    cbn [app split_from]. apply flush_lower.
  - cbn [split_from]. destruct (isspace c) eqn:Hc.
    + unfold str_lower at 1. rewrite lower_from_app_space by exact Hc.
      unfold str_split. rewrite split_from_nonspace by (now apply lower_from_nonspace).
      cbn [app split_from]. rewrite Hc, map_app. f_equal; [apply flush_lower|].
      apply (IH []). reflexivity.
    + replace (cur ++ c :: r) with ((cur ++ [c]) ++ r) by now rewrite <- app_assoc.
      apply IH. rewrite forallb_app, Hcur. cbn [forallb]. unfold nonspace.
      now rewrite Hc.
Qed.

(** The tokens of the lower-cased query are the lower-cased tokens. *)
Lemma split_lower s : str_split (str_lower s) = map str_lower (str_split s).
Proof. apply (split_lower_from [] s). reflexivity. Qed.

Lemma split_from_app_space cur a sp b :
  isspace sp = true ->
  split_from cur (a ++ sp :: b) = split_from cur a ++ split_from [] b.
Proof.
  intros Hsp. revert cur. induction a as [|c r IH]; intros cur; simpl.
  - now rewrite Hsp.
  - destruct (isspace c).
    + rewrite IH. now rewrite app_assoc.
    + apply IH.
Qed.

Lemma split_app_space a b :
  str_split (a ++ u " " ++ b) = str_split a ++ str_split b.
Proof. apply (split_from_app_space [] a 32 b). reflexivity. Qed.

Lemma split_join l : str_split (str_join (u " ") l) = concat (map str_split l).
Proof.
  induction l as [|x r IH]; [reflexivity|].
  destruct r as [|y r'].
  - simpl. now rewrite app_nil_r.
  - change (str_join (u " ") (x :: y :: r'))
      with (x ++ u " " ++ str_join (u " ") (y :: r')).
    rewrite split_app_space, IH. reflexivity.
Qed.

(** ** [strip] *)

Lemma lstrip_nil s : lstrip s = [] <-> forallb isspace s = true.
Proof.
  induction s as [|c r IH]; simpl; [tauto|].
  destruct (isspace c); simpl; [exact IH | split; discriminate].
Qed.

Lemma lstrip_suffix s : exists p, s = p ++ lstrip s /\ forallb isspace p = true.
Proof.
  induction s as [|c r [p [Hp Hws]]]; simpl.
  - now exists [].
  - destruct (isspace c) eqn:Hc.
    + exists (c :: p). simpl. rewrite Hc, Hws. split; [now f_equal | reflexivity].
    + now exists [].
Qed.

Lemma strip_nil s : str_strip s = [] <-> forallb isspace s = true.
Proof.
  unfold str_strip, rstrip. split.
  - intros H. apply lstrip_nil.
    destruct (lstrip_suffix (rev (lstrip s))) as [p [Hp Hws]].
    assert (Hn : lstrip (rev (lstrip s)) = []).
    { apply (f_equal (@rev N)) in H. now rewrite rev_involutive in H. }
    rewrite Hn, app_nil_r in Hp.
    destruct (lstrip_suffix s) as [p0 [Hp0 _]].
    assert (Hall : forallb isspace (lstrip s) = true).
    { rewrite <- (rev_involutive (lstrip s)), Hp.
      rewrite forallb_forall in *. intros x Hx. apply Hws. now apply in_rev. }
    destruct (lstrip s) as [|c r] eqn:E; [reflexivity|].
    exfalso. clear -E Hall.
    induction s as [|d s IH]; simpl in E; [discriminate|].
    destruct (isspace d) eqn:Hd; [now apply IH|].
    injection E as <- <-. simpl in Hall. now rewrite Hd in Hall.
  - intros H. apply lstrip_nil in H. now rewrite H.
Qed.

(** ** Language detection *)

Lemma char_in_above c s :
  Forall (fun x => x < c) s -> char_in c s = false.
Proof.
  unfold char_in. induction 1 as [|x l Hx _ IH]; simpl; [reflexivity|].
  rewrite IH. replace (c =? x) with false; [reflexivity|].
  symmetry. apply N.eqb_neq. lia.
Qed.

(** A code point lowers into the alphabet of line 500 exactly when it is a
    letter of the Russian alphabet. *)
Lemma lowers_into_alphabet c :
  existsb (fun x => char_in x russian_alphabet) (lower_full c) = is_russian_letter c.
Proof.
  apply Bool.eqb_prop. revert c. apply lower_full_check; [vm_compute; reflexivity|].
  intros c Hfix. rewrite Hfix. cbn [existsb]. rewrite orb_false_r.
  destruct (N.lt_ge_cases c 1328) as [Hlt | Hge].
  - pose proof (below_by_enumeration
      (fun c => if str_eqb (lower_full c) [c]
                then Bool.eqb (char_in c russian_alphabet) (is_russian_letter c)
                else true) 1328) as E.
    specialize (E ltac:(vm_compute; reflexivity) c Hlt). cbv beta in E.
    rewrite Hfix in E.
    replace (str_eqb [c] [c]) with true in E by (symmetry; now apply str_eqb_eq).
    exact E.
  - rewrite char_in_above.
    + unfold is_russian_letter. rewrite between_above by lia.
      replace (c =? 1025) with false by (symmetry; apply N.eqb_neq; lia).
      replace (c =? 1105) with false by (symmetry; apply N.eqb_neq; lia).
      reflexivity.
    + assert (Hall : forallb (fun x => x <? 1328) russian_alphabet = true)
        by (vm_compute; reflexivity).
      rewrite forallb_forall in Hall. apply List.Forall_forall.
      intros x Hx. apply Hall in Hx. apply N.ltb_lt in Hx. lia.
Qed.

Lemma is_russian_letters q : is_russian q = existsb is_russian_letter q.
Proof.
  unfold is_russian, str_lower. generalize (@nil N) as b.
  induction q as [|c r IH]; intros b; cbn [lower_from existsb]; [reflexivity|].
  rewrite existsb_app, IH. f_equal.
  destruct (c =? 931) eqn:E.
  - apply N.eqb_eq in E. subst c. now destruct (final_sigma b r).
  - apply lowers_into_alphabet.
Qed.

(** ** The loops of the synonym expansion *)

Lemma set_add_new s appended :
  str_in (str_lower s) (map str_lower appended) = false ->
  set_add s appended = appended ++ [s].
Proof.
  intros H. unfold set_add.
  destruct (str_in s appended) eqn:E; [|reflexivity].
  apply str_in_In in E. apply str_in_false in H.
  exfalso. apply H. now apply in_map.
Qed.

Lemma first_of_each_app seen a b :
  first_of_each seen (a ++ b)
  = first_of_each seen a
    ++ first_of_each (seen ++ map str_lower (first_of_each seen a)) b.
Proof.
  revert seen. induction a as [|s r IH]; intros seen; simpl.
  - now rewrite app_nil_r.
  - destruct (str_in (str_lower s) seen); [apply IH|].
    simpl. rewrite IH. now rewrite <- app_assoc.
Qed.

Lemma add_synonyms_spec words syns appended :
  add_synonyms words appended syns
  = appended ++ first_of_each (map str_lower appended) (List.filter (keep words) syns).
Proof.
  unfold add_synonyms. revert appended.
  induction syns as [|syn r IH]; intros appended; simpl.
  - now rewrite app_nil_r.
  - rewrite IH. unfold keep at 2.
    destruct (str_in (str_lower syn) words); simpl; [reflexivity|].
    destruct (str_in (str_lower syn) (map str_lower appended)) eqn:E; simpl;
      [reflexivity|].
    rewrite (set_add_new _ _ E), map_app. simpl. now rewrite <- app_assoc.
Qed.

(** A loop whose every round appends the new strings of a chunk appends
    the new strings of the chunks put end to end. *)
Lemma fold_chunks {X} (words : list pystr) (chunk : X -> list pystr)
    (step : list pystr -> X -> list pystr) :
  (forall appended x,
      step appended x
      = appended ++ first_of_each (map str_lower appended)
                                  (List.filter (keep words) (chunk x))) ->
  forall xs appended,
    fold_left step xs appended
    = appended ++ first_of_each (map str_lower appended)
                                (List.filter (keep words) (flat_map chunk xs)).
Proof.
  intros Hstep. induction xs as [|x r IH]; intros appended; simpl.
  - now rewrite app_nil_r.
  - rewrite IH, Hstep, List.filter_app, first_of_each_app, map_app.
    now rewrite <- app_assoc.
Qed.

Lemma scan_synonym_map_spec items words cleaned appended :
  scan_synonym_map items words cleaned appended
  = appended ++ first_of_each (map str_lower appended)
                              (List.filter (keep words) (matching items cleaned)).
Proof.
  unfold scan_synonym_map, matching. apply fold_chunks.
  intros app entry. destruct (str_eqb (str_lower (fst entry)) cleaned).
  - apply add_synonyms_spec.
  - simpl. now rewrite app_nil_r.
Qed.

Lemma scan_tokens_spec items words tokens appended :
  scan_tokens items words tokens appended
  = appended
    ++ first_of_each (map str_lower appended)
         (List.filter (keep words)
            (flat_map (fun token => matching items (cleaned_token_lower token)) tokens)).
Proof.
  unfold scan_tokens.
  apply (fold_chunks words (fun token => matching items (cleaned_token_lower token))).
  intros app token. apply scan_synonym_map_spec.
Qed.

Lemma without_marks_filter token : without_marks token = List.filter isalnum token.
Proof.
  induction token as [|c r IH]; [reflexivity|]. cbn [without_marks List.filter].
  now rewrite IH.
Qed.

Lemma str_eqb_sym a b : str_eqb a b = str_eqb b a.
Proof.
  destruct (str_eqb a b) eqn:E, (str_eqb b a) eqn:E'; try reflexivity.
  - apply str_eqb_eq in E. subst b.
    assert (str_eqb a a = true) by now apply str_eqb_eq. congruence.
  - apply str_eqb_eq in E'. subst b.
    assert (str_eqb a a = true) by now apply str_eqb_eq. congruence.
Qed.

(** The comparison of line 524 on the cleaned token of line 522 is the
    match of the specification. *)
Lemma matching_matches items token :
  matching items (cleaned_token_lower token)
  = flat_map (fun entry => if matches token (fst entry) then snd entry else []) items.
Proof.
  unfold matching, matches, cleaned_token_lower. apply List.flat_map_ext.
  intros entry. rewrite (str_eqb_sym (str_lower (fst entry))).
  now rewrite <- without_marks_filter.
Qed.

(** The set built by the loops is the list of the specification. *)
Lemma appended_synonyms_spec q : appended_synonyms q = spec_appended q.
Proof.
  unfold appended_synonyms, spec_appended, candidates.
  rewrite scan_tokens_spec, split_lower.
  rewrite (List.flat_map_ext
             (fun token => matching config.SYNONYM_MAP (cleaned_token_lower token))
             (fun token =>
                flat_map (fun entry => if matches token (fst entry) then snd entry else [])
                         config.SYNONYM_MAP)
             (matching_matches config.SYNONYM_MAP)).
  reflexivity.
Qed.

(** ** What [first_of_each] keeps *)

Lemma first_of_each_in seen l s :
  In s (first_of_each seen l) -> In s l /\ ~ In (str_lower s) seen.
Proof.
  revert seen. induction l as [|x r IH]; intros seen; simpl; [tauto|].
  destruct (str_in (str_lower x) seen) eqn:E.
  - intros H. apply IH in H. tauto.
  - intros [<- | H].
    + split; [now left | now apply str_in_false].
    + apply IH in H as [Hin Hseen]. split; [now right|].
      intros Hs. apply Hseen. apply in_or_app. now left.
Qed.

Lemma first_of_each_seen seen l s :
  In s (first_of_each seen l) -> ~ In (str_lower s) seen.
Proof. intros H. now apply first_of_each_in in H. Qed.

Lemma first_of_each_nodup seen l :
  List.NoDup (map str_lower (first_of_each seen l)).
Proof.
  revert seen. induction l as [|x r IH]; intros seen; simpl; [constructor|].
  destruct (str_in (str_lower x) seen); [apply IH|].
  simpl. constructor; [|apply IH].
  intros H. apply in_map_iff in H as [y [Hy Hin]].
  apply first_of_each_seen in Hin. apply Hin.
  rewrite Hy. apply in_or_app. right. now left.
Qed.

Lemma first_of_each_complete seen l c :
  In c l ->
  In (str_lower c) seen \/ In (str_lower c) (map str_lower (first_of_each seen l)).
Proof.
  revert seen. induction l as [|x r IH]; intros seen; simpl; [tauto|].
  intros [-> | Hin].
  - destruct (str_in (str_lower c) seen) eqn:E.
    + left. now apply str_in_In.
    + right. now left.
  - destruct (str_in (str_lower x) seen) eqn:E.
    + now apply IH.
    + destruct (IH (seen ++ [str_lower x]) Hin) as [H | H].
      * apply in_app_or in H as [H | [H | []]]; [now left|].
        right. left. exact H.
      * right. now right.
Qed.

Lemma first_of_each_sublist seen l : sublist (first_of_each seen l) l.
Proof.
  revert seen. induction l as [|x r IH]; intros seen; simpl; [constructor|].
  destruct (str_in (str_lower x) seen).
  - apply sublist_cons. apply IH.
  - apply sublist_skip. apply IH.
Qed.

Lemma filter_sublist {A} (f : A -> bool) (l : list A) : sublist (List.filter f l) l.
Proof.
  induction l as [|x r IH]; simpl; [constructor|].
  destruct (f x); [now apply sublist_skip | now apply sublist_cons].
Qed.

Lemma present_as_token_iff s q :
  present_as_token s q <-> In (str_lower s) (map str_lower (str_split q)).
Proof.
  unfold present_as_token. rewrite in_map_iff. split.
  - intros [t [Hin He]]. now exists t.
  - intros [t [He Hin]]. now exists t.
Qed.

Lemma spec_appended_in q s :
  In s (spec_appended q) -> In s (candidates q) /\ ~ present_as_token s q.
Proof.
  unfold spec_appended. intros H. apply first_of_each_in in H as [H _].
  apply List.filter_In in H as [Hin Hk]. split; [exact Hin|].
  rewrite present_as_token_iff. apply str_in_false.
  now apply negb_true_iff in Hk.
Qed.

Lemma russian_letter_is_cyrillic c : is_russian_letter c = true -> is_cyrillic c = true.
Proof.
  unfold is_russian_letter, is_cyrillic, between. intros H.
  apply andb_true_iff. rewrite !N.leb_le.
  apply orb_true_iff in H as [H | H]; [apply orb_true_iff in H as [H | H]|].
  - apply andb_true_iff in H. rewrite !N.leb_le in H. lia.
  - apply N.eqb_eq in H. lia.
  - apply N.eqb_eq in H. lia.
Qed.

(** ** C7: language detection *)

(** C7, as stated, fails: a query of Cyrillic letters that are not letters
    of the Russian alphabet (the Ukrainian word of two U+0457) is
    classified as non-Russian. *)
Lemma language_detection_counterexample :
  u "її" = [1111; 1111]
  /\ forallb is_cyrillic (u "її") = true
  /\ is_russian (u "її") = false.
Proof. repeat split. Qed.

(** C7, amended: the query is classified as Russian exactly when it holds
    a letter of the Russian alphabet, capital or small; so a query with no
    Cyrillic character is classified as non-Russian. *)
Theorem language_detection q :
  (is_russian q = true <-> exists c, In c q /\ is_russian_letter c = true)
  /\ ((forall c, In c q -> is_cyrillic c = false) -> is_russian q = false).
Proof.
  rewrite is_russian_letters. split.
  - apply existsb_exists.
  - intros H. destruct (existsb is_russian_letter q) eqn:E; [|reflexivity].
    apply existsb_exists in E as [c [Hin Hc]].
    apply russian_letter_is_cyrillic in Hc. rewrite (H c Hin) in Hc. discriminate.
Qed.

Lemma language_detection_witness :
  is_russian (u "Привет, GSOM") = true /\ is_russian (u "hello") = false.
Proof.
  split.
  - apply (proj1 (language_detection (u "Привет, GSOM"))).
    exists 1055. split; [now left | reflexivity].
  - apply (proj2 (language_detection (u "hello"))).
    intros c Hc. vm_compute in Hc.
    repeat (destruct Hc as [<- | Hc]; [reflexivity|]). destruct Hc.
Defined.

(** ** C6: what the expansion appends *)

(** C6, as stated, fails in its last part: the synonyms go through a
    [set], and the order in which the set yields them need not be the
    order in which they were met. *)
Lemma expansion_order_counterexample :
  ~ (forall (o : set_order) (q : pystr), iter o (appended_synonyms q) = spec_appended q).
Proof.
  intros H. specialize (H reverse_order (u "deadline")).
  vm_compute in H. discriminate H.
Qed.

(** C6, amended: a token matches a key when, its characters that are not
    alphanumeric taken out, it is the key but for case.  The set that the
    loops build holds exactly the synonyms of the matched keys that are no
    token of the query, one for every group equal but for case, the first
    met; the loops insert them in encounter order, and the query receives
    them in the order of the set, a rearrangement of it. *)
Theorem expansion_appends (o : set_order) (q : pystr) :
  appended_synonyms q = spec_appended q
  /\ Permutation (iter o (appended_synonyms q)) (spec_appended q)
  /\ (forall s, In s (candidates q) <->
                exists token key syns,
                  In token (str_split q) /\ In (key, syns) config.SYNONYM_MAP
                  /\ matches token key = true /\ In s syns)
  /\ (forall s, In s (spec_appended q) -> In s (candidates q) /\ ~ present_as_token s q)
  /\ (forall c, In c (candidates q) -> ~ present_as_token c q ->
                exists s, In s (spec_appended q) /\ str_lower s = str_lower c)
  /\ List.NoDup (map str_lower (spec_appended q))
  /\ sublist (spec_appended q) (candidates q).
Proof.
  split; [apply appended_synonyms_spec|].
  split; [rewrite <- appended_synonyms_spec; apply iter_perm|].
  split.
  { intros s. unfold candidates. rewrite in_flat_map. split.
    - intros [token [Ht Hs]]. apply in_flat_map in Hs as [[key syns] [He Hs]].
      cbn [fst snd] in Hs. destruct (matches token key) eqn:Hm; [|destruct Hs].
      now exists token, key, syns.
    - intros [token [key [syns [Ht [He [Hm Hs]]]]]]. exists token. split; [exact Ht|].
      apply in_flat_map. exists (key, syns). split; [exact He|].
      cbn [fst snd]. now rewrite Hm. }
  split; [apply spec_appended_in|].
  split; [|split].
  - intros c Hc Hnot. unfold spec_appended.
    set (f := fun s => negb (str_in (str_lower s) (map str_lower (str_split q)))).
    assert (Hf : In c (List.filter f (candidates q))).
    { apply List.filter_In. split; [exact Hc|]. unfold f.
      apply negb_true_iff, str_in_false. now rewrite <- present_as_token_iff. }
    destruct (first_of_each_complete [] _ _ Hf) as [[] | H].
    apply in_map_iff in H as [s [He Hin]]. now exists s.
  - apply first_of_each_nodup.
  - unfold spec_appended. etransitivity;
      [apply first_of_each_sublist | apply filter_sublist].
Qed.

Lemma expansion_appends_witness :
  exists s, In s (spec_appended (u "Is the Deadline? near"))
            /\ str_lower s = str_lower (u "due date").
Proof.
  apply (proj1 (proj2 (proj2 (proj2 (proj2
           (expansion_appends insertion_order (u "Is the Deadline? near"))))))).
  - apply (proj2 (proj1 (proj2 (proj2
             (expansion_appends insertion_order (u "Is the Deadline? near"))))
             (u "due date"))).
    exists (u "Deadline?"), (u "deadline"), [u "due date"; u "submission date"].
    repeat split.
    + vm_compute. right. right. left. reflexivity.
    + vm_compute. right. right. left. reflexivity.
    + left. reflexivity.
  - intros [token [Hin He]]. vm_compute in Hin.
    repeat (destruct Hin as [<- | Hin]; [vm_compute in He; discriminate He|]).
    destruct Hin.
Defined.

(** The token "Deadline?" meets the key "deadline", and a token with
    letters of another script keeps them: it meets no key of the table. *)
Example matches_after_cleaning :
  matches (u "Deadline?") (u "deadline") = true
  /\ appended_synonyms (u "Is the Deadline? near") = [u "due date"; u "submission date"]
  /\ appended_synonyms (u "AI是什么") = []
  /\ appended_synonyms (u "ai?") = [u "Artificial Intelligence"; u "искусственный интеллект"].
Proof. vm_compute. repeat split. Qed.

(** ** C1: a second pass of the expansion *)

Lemma permutation_of_three {A} (a b c : A) l :
  Permutation l [a; b; c] ->
  l = [a; b; c] \/ l = [a; c; b] \/ l = [b; a; c]
  \/ l = [b; c; a] \/ l = [c; a; b] \/ l = [c; b; a].
Proof.
  intros H. pose proof (Permutation_length H) as Hlen.
  destruct l as [|x [|y [|z [|]]]]; try discriminate Hlen.
  assert (Ha : In a [x; y; z]) by (apply (Permutation_in _ (Permutation_sym H)); now left).
  apply Permutation_sym in H.
  destruct Ha as [<- | [<- | [<- | []]]].
  - apply Permutation_cons_inv in H. apply Permutation_length_2_inv in H.
    destruct H as [H | H]; injection H as <- <-; tauto.
  - apply (Permutation_cons_app_inv [x] [z]) in H. simpl in H.
    apply Permutation_length_2_inv in H.
    destruct H as [H | H]; injection H as <- <-; tauto.
  - apply (Permutation_cons_app_inv [x; y] []) in H. simpl in H.
    apply Permutation_length_2_inv in H.
    destruct H as [H | H]; injection H as <- <-; tauto.
Qed.

(** C1, as stated, fails: whatever the order of the set, a second pass
    over the expansion of "course" appends again the synonym in two words
    that the first pass appended. *)
Lemma expansion_idempotent_counterexample :
  appended_synonyms (u "course") = [u "program"; u "study plan"; u "module"]
  /\ ~ (exists o : set_order,
          expanded_primary_query o (expanded_primary_query o (u "course"))
          = expanded_primary_query o (u "course")).
Proof.
  split; [vm_compute; reflexivity|].
  intros [o H].
  assert (E : appended_synonyms (u "course") = [u "program"; u "study plan"; u "module"])
    by (vm_compute; reflexivity).
  pose proof (iter_perm o (appended_synonyms (u "course"))) as P.
  unfold expanded_primary_query at 2 3 in H.
  rewrite E in H, P. cbn [nonempty] in H.
  apply permutation_of_three in P.
  destruct P as [P | [P | [P | [P | [P | P]]]]]; rewrite P in H;
    vm_compute in H; discriminate H.
Qed.

(** C1, amended: a pass never appends a synonym that is a token of the
    query it runs on, case ignored, and never two synonyms equal but for
    case; so a second pass over the expanded query appends no synonym of
    one word that the first pass appended. *)
Theorem expansion_second_pass (o : set_order) (q : pystr) :
  (forall s, In s (appended_synonyms q) -> ~ present_as_token s q)
  /\ List.NoDup (map str_lower (appended_synonyms q))
  /\ (forall s1 s2,
         In s1 (appended_synonyms q) -> str_split s1 = [s1] ->
         In s2 (appended_synonyms (expanded_primary_query o q)) ->
         str_lower s2 <> str_lower s1).
Proof.
  assert (first : forall q s, In s (appended_synonyms q) -> ~ present_as_token s q).
  { intros q' s. rewrite appended_synonyms_spec. intros H.
    now apply spec_appended_in in H. }
  split; [apply first|].
  split; [rewrite appended_synonyms_spec; apply first_of_each_nodup|].
  intros s1 s2 H1 Hword H2 Heq.
  apply (first _ _ H2). exists s1. split; [|now symmetry].
  unfold expanded_primary_query.
  destruct (appended_synonyms q) as [|a r] eqn:E; [destruct H1|].
  cbn [nonempty]. rewrite split_app_space, split_join.
  apply in_or_app. right. apply in_concat. exists [s1]. split; [|now left].
  rewrite <- Hword. apply in_map.
  apply (Permutation_in _ (Permutation_sym (iter_perm o (a :: r)))). exact H1.
Qed.

Lemma expansion_second_pass_witness :
  str_lower (u "study plan") <> str_lower (u "program").
Proof.
  apply (proj2 (proj2 (expansion_second_pass insertion_order (u "course")))
           (u "program") (u "study plan")).
  - vm_compute. left. reflexivity.
  - reflexivity.
  - vm_compute. left. reflexivity.
Defined.

(** ** C4 and C8: the value of [preprocess_query_for_retrieval] *)

Lemma ask_returns C p i l :
  exists l',
    ask_llm_for_metadata C p i l
    = (Ret (match result_of (ask_llm_for_metadata C p i []) with
            | Ret t => t
            | Raise _ => []
            end), l').
Proof.
  unfold ask_llm_for_metadata, result_of.
  destruct (llm C); cbn [negb];
    [destruct (completion C (i ++ u "\n\n" ++ p))|]; eexists; reflexivity.
Qed.

(** With the endpoint there, the call returns the composed string
    stripped, or the user text stripped when the composed string is blank. *)
Lemma preprocess_value C o q l :
  llm C = true ->
  result_of (preprocess_query_for_retrieval C o q l)
  = Ret (str_strip
           (if negb (nonempty (str_strip (composed_query o q (translated_text C q))))
            then q
            else composed_query o q (translated_text C q))).
Proof.
  intros Hllm. unfold preprocess_query_for_retrieval, translated_text.
  rewrite Hllm. cbn [negb]. unfold bind at 1. unfold logger at 1.
  unfold bind at 1.
  match goal with
  | |- context [ask_llm_for_metadata C q ?i ?l0] =>
    destruct (ask_returns C q i l0) as [l' E]; rewrite E; clear E;
      set (t := match result_of (ask_llm_for_metadata C q i []) with
                | Ret t => t
                | Raise _ => []
                end)
  end.
  unfold composed_query, expanded_primary_query.
  change (nonempty config.SYNONYM_MAP) with true. cbv iota.
  unfold bind, logger, ret, result_of.
  destruct (nonempty (appended_synonyms q)), (is_russian q), (nonempty t);
    reflexivity.
Qed.

Lemma blank_composed o q t :
  forallb isspace (composed_query o q t) = true ->
  forallb isspace q = true /\ t = [].
Proof.
  unfold composed_query, expanded_primary_query. intros H.
  assert (Hq : forall r, forallb isspace (q ++ r) = true -> forallb isspace q = true).
  { intros r Hr. rewrite forallb_app in Hr. now apply andb_prop in Hr. }
  destruct t as [|c t']; cbn [nonempty] in H.
  - split; [|reflexivity].
    destruct (nonempty (appended_synonyms q)); [now apply Hq in H | exact H].
  - exfalso.
    assert (Hc : forall a, forallb isspace (a ++ u ", " ++ c :: t') = false).
    { intros a. rewrite forallb_app. apply andb_false_iff. now right. }
    now rewrite Hc in H.
Qed.

(** C4, as stated, fails: the value is stripped on return, so the white
    space that opens the user text is not in it. *)
Lemma preprocessed_query_counterexample :
  translated_text (translates_to (u "b")) (u " a") = u "b"
  /\ expanded_primary_query insertion_order (u " a") ++ u ", " ++ u "b" = u " a, b"
  /\ result_of (preprocess_query_for_retrieval (translates_to (u "b"))
                  insertion_order (u " a") [])
     = Ret (u "a, b")
  /\ u "a, b" <> u " a, b".
Proof. repeat split. discriminate. Qed.

(** C4, amended: with the endpoint there, the call returns, stripped of
    the white space at both ends, the primary text with its synonyms, then
    a comma and a space, then the translation, when the translation is not
    empty; and the primary text with its synonyms, stripped, when it is. *)
Theorem preprocessed_query C o q l :
  llm C = true ->
  (translated_text C q <> [] ->
   result_of (preprocess_query_for_retrieval C o q l)
   = Ret (str_strip (expanded_primary_query o q ++ u ", " ++ translated_text C q)))
  /\ (translated_text C q = [] ->
      result_of (preprocess_query_for_retrieval C o q l)
      = Ret (str_strip (expanded_primary_query o q))).
Proof.
  intros Hllm. rewrite (preprocess_value C o q l Hllm).
  destruct (str_strip (composed_query o q (translated_text C q))) as [|c r] eqn:E.
  - apply strip_nil in E. pose proof (blank_composed _ _ _ E) as [Hq Ht].
    split; [intros H; now destruct H|]. intros _. cbn [nonempty negb].
    unfold composed_query in E. rewrite Ht in E. cbn [nonempty] in E.
    apply strip_nil in Hq, E. now rewrite Hq, E.
  - cbn [nonempty negb]. unfold composed_query.
    split; intros H.
    + destruct (translated_text C q); [now destruct H | reflexivity].
    + now rewrite H.
Qed.

Lemma preprocessed_query_witness :
  result_of (preprocess_query_for_retrieval (translates_to (u "Какой срок?"))
               insertion_order (u "What is the deadline?") [])
  = Ret (u "What is the deadline? due date submission date, Какой срок?").
Proof.
  apply (proj1 (preprocessed_query (translates_to (u "Какой срок?")) insertion_order
                  (u "What is the deadline?") [] eq_refl)).
  vm_compute. discriminate.
Defined.

(** C8, as stated, fails: the fallback of line 540 takes the user text,
    and line 542 strips it; a user text of one space comes back empty. *)
Lemma fallback_counterexample :
  str_strip (composed_query insertion_order (u " ") (translated_text no_translation (u " ")))
  = []
  /\ result_of (preprocess_query_for_retrieval no_translation insertion_order (u " ") [])
     = Ret []
  /\ u " " <> [].
Proof. repeat split. discriminate. Qed.

(** C8, amended: when the composed string is empty or blank, the call
    returns the user text stripped of the white space at both ends, which
    is then the empty string. *)
Theorem fallback_on_blank C o q l :
  llm C = true ->
  str_strip (composed_query o q (translated_text C q)) = [] ->
  result_of (preprocess_query_for_retrieval C o q l) = Ret (str_strip q)
  /\ str_strip q = [].
Proof.
  intros Hllm E. rewrite (preprocess_value C o q l Hllm), E. cbn [nonempty negb].
  split; [reflexivity|].
  apply strip_nil. apply strip_nil in E. now apply blank_composed in E.
Qed.

Lemma fallback_on_blank_witness :
  result_of (preprocess_query_for_retrieval no_translation insertion_order
               (u "   ") [])
  = Ret (str_strip (u "   "))
  /\ str_strip (u "   ") = [].
Proof.
  apply (fallback_on_blank no_translation insertion_order (u "   ") []);
    reflexivity.
Defined.

(** ** C2: the retriever swallows a failure of the search *)

(** C2, as stated, fails: an exception that is no instance of
    [Exception], an interrupt from the keyboard or the cancellation of the
    coroutine, is not caught, and either entry point raises it to its
    caller. *)
Lemma retriever_swallows_failure_counterexample :
  result_of (Retriever._get_relevant_documents interrupted_store config.K_MAX
               (u "deadline")
               {| Retriever.is_hybrid_search := None; Retriever.log := [] |})
  = Raise {| cls := KeyboardInterrupt; msg := [] |}
  /\ result_of (Retriever._aget_relevant_documents interrupted_store config.K_MAX
                  (u "deadline")
                  {| Retriever.is_hybrid_search := None; Retriever.log := [] |})
     = Raise {| cls := CancelledError; msg := [] |}.
Proof. split; reflexivity. Qed.

(** C2, amended: when the search that an entry point runs raises, the
    entry point returns the empty list and raises nothing if the exception
    is an instance of [Exception], and raises the exception to its caller
    if it is not; the blocking entry point runs the blocking search, the
    coroutine runs the store's own coroutine when it has one and the
    blocking search otherwise. *)
Theorem retriever_swallows_failure {score} (vs : Retriever.vectorstore score) (k : nat)
    (query : pystr) (s : Retriever.state) (e : exn) :
  (Retriever.similarity_search_with_score vs query k Retriever.search_kwargs = Raise e ->
   result_of (Retriever._get_relevant_documents vs k query s)
   = if caught_by Exception e then Ret [] else Raise e)
  /\ (coroutine_search vs query k Retriever.search_kwargs = Raise e ->
      result_of (Retriever._aget_relevant_documents vs k query s)
      = if caught_by Exception e then Ret [] else Raise e).
Proof.
  split.
  - intros Hsync.
    unfold Retriever._get_relevant_documents, try_except, bind,
      Retriever.getattr_is_hybrid_search, Retriever.set_is_hybrid_search,
      logger, call, ret, result_of.
    destruct (Retriever.is_hybrid_search s) as [[|]|]; cbn [negb fst snd];
      rewrite Hsync; cbn [dispatch]; destruct (caught_by Exception e); reflexivity.
  - unfold coroutine_search. intros Hrun.
    unfold Retriever._aget_relevant_documents, try_except, bind,
      Retriever.getattr_is_hybrid_search, Retriever.set_is_hybrid_search,
      logger, call, ret, result_of.
    destruct (Retriever.asimilarity_search_with_score vs) as [asearch|];
      destruct (Retriever.is_hybrid_search s) as [[|]|]; cbn [negb fst snd];
      rewrite Hrun; cbn [dispatch]; destruct (caught_by Exception e); reflexivity.
Qed.

Lemma retriever_swallows_failure_witness :
  result_of (Retriever._get_relevant_documents failing_store config.K_MAX (u "deadline")
               {| Retriever.is_hybrid_search := None; Retriever.log := [] |}) = Ret []
  /\ result_of (Retriever._aget_relevant_documents failing_store config.K_MAX (u "deadline")
                  {| Retriever.is_hybrid_search := None; Retriever.log := [] |}) = Ret [].
Proof.
  destruct (retriever_swallows_failure failing_store config.K_MAX (u "deadline")
              {| Retriever.is_hybrid_search := None; Retriever.log := [] |}
              {| cls := RuntimeError; msg := u "ConnectionTimeout" |}) as [Hget Haget].
  split; [apply Hget | apply Haget]; reflexivity.
Defined.

(** ** C5: the system prompt of the ANSWER state *)

(** C5, as stated, fails: the sentence that the specification quotes is
    not in the prompt. *)
Lemma fallback_sentence_counterexample :
  contains spec_fallback_sentence qa_system_prompt = false.
Proof. vm_compute. reflexivity. Qed.

(** C5, amended: the prompt tells the model to answer from the provided
    context only, and to state a fixed sentence when the answer is not
    there; of that sentence the prompt holds the opening "Based on my
    knowledge" after a double quote, and the rest from "database" on, with
    the word Help between double quotes. *)
Theorem prompt_grounds_the_answer :
  contains (u "answer questions strictly based on the provided context") qa_system_prompt
  = true
  /\ contains (u "using ONLY the information found in the context") qa_system_prompt = true
  /\ contains (u "If the answer cannot be found in the provided context, you MUST explicitly state: "
               ++ dquote ++ u "Based on my knowledge") qa_system_prompt = true
  /\ contains (u "database, I could not find specific information about that. Please, push the "
               ++ dquote ++ u "Help" ++ dquote ++ u " button and contact the Office." ++ dquote)
              qa_system_prompt = true.
Proof. repeat split; vm_compute; reflexivity. Qed.

(** ** C10: [load_json_file] *)

(** C10, as stated, fails: a file whose bytes are not UTF-8 cannot be
    decoded as JSON, and the call raises [UnicodeDecodeError], which neither
    clause catches. *)
Lemma load_json_file_counterexample :
  result_of (load_json_file undecodable_host (u "api-credentials.json") false [])
  = Raise (error UnicodeDecodeError).
Proof. reflexivity. Qed.

(** Nor does a clause catch what the parser raises on a text that is JSON:
    the [ValueError] of an integer too long goes to the caller. *)
Example load_json_file_long_integer :
  result_of (load_json_file long_integer_host (u "api-credentials.json") false [])
  = Raise {| cls := ValueError;
             msg := u "Exceeds the limit (4300 digits) for integer string conversion" |}.
Proof. vm_compute. reflexivity. Qed.

(** C10, amended: the call returns the parsed value when the file opens,
    its bytes are UTF-8 and the parser returns; it returns the empty dict
    when the file is missing, or when the parser raises [JSONDecodeError]
    (or what else one of the two clauses catches); any other failure, of
    [open], of the decoding of the bytes or of the parser, goes to the
    caller. *)
Theorem load_json_file_outcome (H : host) (filename : pystr) (quiet : bool)
    (l : list log_record) :
  result_of (load_json_file H filename quiet l)
  = match node_at H filename with
    | Absent => Ret (JObject [])
    | Directory => Raise (error IsADirectoryError)
    | Unreadable => Raise (error PermissionError)
    | Regular content =>
      match utf8_decode content with
      | None => Raise (error UnicodeDecodeError)
      | Some text =>
        match json_loads H (universal_newlines text) with
        | Ret v => Ret v
        | Raise e =>
          if caught_by FileNotFoundError e || caught_by JSONDecodeError e
          then Ret (JObject [])
          else Raise e
        end
      end
    end.
Proof.
  unfold load_json_file, try_except, bind, call, open, json_load, result_of.
  destruct (node_at H filename) as [| | |content]; try (destruct quiet; reflexivity).
  destruct (utf8_decode content) as [text|]; [|destruct quiet; reflexivity].
  destruct (json_loads H (universal_newlines text)) as [v|e]; [reflexivity|].
  cbn [dispatch]. destruct (caught_by FileNotFoundError e);
    [destruct quiet; reflexivity|].
  destruct (caught_by JSONDecodeError e); destruct quiet; reflexivity.
Qed.

(** ** C3: the window of the chat history *)

Lemma last_n_length {A} (n : nat) (l : list A) : (length (last_n n l) <= n)%nat.
Proof. unfold last_n. rewrite length_skipn. lia. Qed.

Lemma triple_bind {A B} P Q1 Q R (m : M state A) (k : A -> M state B) :
  triple P m Q1 R -> (forall a, triple Q1 (k a) Q R) -> triple P (bind m k) Q R.
Proof.
  intros Hm Hk s Hs. unfold bind. specialize (Hm s Hs).
  destruct (m s) as [[a|e] s']; [apply (Hk a s' Hm) | exact Hm].
Qed.

Lemma triple_try {A} P Q R R' (m : M state A) h (k : exn -> M state A) :
  triple P m Q R' -> (forall e, triple R' (k e) Q R) -> (forall s, R' s -> R s) ->
  triple P (try_except m [(h, k)]) Q R.
Proof.
  intros Hm Hk Hw s Hs. unfold try_except. specialize (Hm s Hs).
  destruct (m s) as [[a|e] s']; [exact Hm|].
  cbn [dispatch]. destruct (caught_by h e); [apply (Hk e s' Hm)|].
  unfold raise. now apply Hw.
Qed.

Lemma triple_update P Q R (f : state -> state) :
  (forall s, P s -> Q (f s)) -> triple P (update_state f) Q R.
Proof. intros H s Hs. now apply H. Qed.

Lemma triple_read {A} P R (f : state -> A) : triple P (read f) P R.
Proof. intros s Hs. exact Hs. Qed.

Lemma triple_ret {A} P R (a : A) : triple P (ret a) P R.
Proof. intros s Hs. exact Hs. Qed.

Lemma triple_frames {A} (m : M state A) :
  frames m -> triple bounded m bounded bounded.
Proof.
  intros Hm s Hs. specialize (Hm s). unfold state_of in Hm.
  destruct (m s) as [[a|e] s']; intros c h; cbn [snd] in Hm; rewrite Hm; apply Hs.
Qed.

Lemma frames_ret {A} (a : A) : frames (ret a).
Proof. intros s. reflexivity. Qed.

Lemma frames_call {A} (r : outcome A) : frames (call r).
Proof. intros s. reflexivity. Qed.

Lemma frames_read {A} (f : state -> A) : frames (read f).
Proof. intros s. reflexivity. Qed.

Lemma frames_logger l m : frames (logger l m).
Proof. intros s. reflexivity. Qed.

Lemma frames_tg W r : frames (tg W r).
Proof. intros s. unfold tg. now destruct (telegram W r). Qed.

Lemma frames_with_logger {A} (m : M (list log_record) A) : frames (with_logger m).
Proof. intros s. unfold with_logger. now destruct (m (log s)). Qed.

Lemma frames_chat_data f : frames (update_state (with_chat_data f)).
Proof. intros s. reflexivity. Qed.

Lemma frames_pool f : frames (update_state (with_pool f)).
Proof. intros s. reflexivity. Qed.

Lemma frames_bind {A B} (m : M state A) (k : A -> M state B) :
  frames m -> (forall a, frames (k a)) -> frames (bind m k).
Proof.
  intros Hm Hk s. unfold bind, state_of. specialize (Hm s). unfold state_of in Hm.
  destruct (m s) as [[a|e] s']; cbn [snd] in *; [|exact Hm].
  rewrite <- Hm. apply Hk.
Qed.

Lemma frames_try {A} (m : M state A) h (k : exn -> M state A) :
  frames m -> (forall e, frames (k e)) -> frames (try_except m [(h, k)]).
Proof.
  intros Hm Hk s. unfold try_except, state_of. specialize (Hm s).
  unfold state_of in Hm.
  destruct (m s) as [[a|e] s']; cbn [snd dispatch] in *; [exact Hm|].
  destruct (caught_by h e); [rewrite <- Hm; apply Hk | exact Hm].
Qed.

Create HintDb frames.
#[local] Hint Resolve frames_ret frames_call frames_read frames_logger frames_tg
  frames_with_logger frames_chat_data frames_pool : frames.

(** Closes a goal [frames m] for a run built from the steps above. *)
Ltac frame :=
  repeat first
    [ apply frames_bind; [|intros ?]
    | apply frames_try; [|intros ?]
    | solve [auto with frames]
    | match goal with
      | |- frames (if ?b then _ else _) => destruct b
      | |- frames (match ?x with _ => _ end) => destruct x
      end ].

Lemma triple_set_history chat_id h R :
  (length h <= 20)%nat ->
  triple (bounded_but chat_id) (set_history chat_id h) bounded R.
Proof.
  intros Hh. apply triple_update. intros s Hs c h'. cbn.
  destruct (decide (chat_id = c)) as [<- | Hne].
  - rewrite lookup_insert_eq. intros [= <-]. exact Hh.
  - rewrite lookup_insert_ne by exact Hne. apply Hs. congruence.
Qed.

Lemma bounded_weaken chat_id s : bounded s -> bounded_but chat_id s.
Proof. intros H c h _. apply H. Qed.

Lemma triple_extend_history chat_id more R :
  triple bounded (extend_history chat_id more) (bounded_but chat_id) R.
Proof.
  apply triple_update. intros s Hs c h Hne. cbn.
  rewrite lookup_alter_ne by congruence. apply Hs.
Qed.

Lemma triple_pre {A} (P P' Q R : state -> Prop) (m : M state A) :
  (forall s, P s -> P' s) -> triple P' m Q R -> triple P m Q R.
Proof. intros HP Hm s Hs. apply Hm. now apply HP. Qed.

Lemma start_command_bounded W chat_id :
  triple bounded (start_command W chat_id) bounded bounded.
Proof.
  unfold start_command.
  eapply triple_bind.
  - eapply triple_pre; [apply (bounded_weaken chat_id)|].
    apply triple_set_history. simpl. lia.
  - intros _. apply triple_frames. frame.
Qed.

Lemma feedback_callback_frames W chat_id query :
  frames (feedback_callback W chat_id query).
Proof. unfold feedback_callback. frame. Qed.

Lemma handle_text_message_bounded W chat_id text :
  triple bounded (handle_text_message W chat_id text) bounded bounded.
Proof.
  unfold handle_text_message.
  destruct (rag_chain W) as [chain|]; [|apply triple_frames; frame].
  eapply triple_bind.
  { eapply triple_bind; [apply triple_read|]. intros known.
    destruct known; cbn [negb]; [apply triple_ret|].
    eapply triple_pre; [apply (bounded_weaken chat_id)|].
    apply triple_set_history. simpl. lia. }
  intros _. eapply triple_bind; [apply triple_frames; frame|].
  intros processing_msg. eapply triple_bind; [apply triple_frames; frame|].
  intros preprocessed_query.
  apply triple_try with (R' := bounded);
    [|intros e; apply triple_frames; frame | auto].
  eapply triple_bind; [apply triple_read|]. intros history.
  eapply triple_bind; [apply triple_frames; frame|]. intros response.
  eapply triple_bind; [apply triple_extend_history|]. intros _.
  eapply triple_bind; [apply triple_read|]. intros extended.
  eapply triple_bind; [apply triple_set_history, last_n_length|]. intros _.
  apply triple_frames. frame.
Qed.

(** C3: whatever the updates that the bot has served since it started,
    and whatever the client, the chain and the endpoint did meanwhile, no
    chat has more than twenty messages in its history. *)
Theorem chat_history_window (updates : list (world * update)) (chat_id : Z)
    (history : list message) :
  user_chat_histories (run updates initial) !! chat_id = Some history ->
  (length history <= 20)%nat.
Proof.
  assert (Hrun : forall us s, bounded s -> bounded (run us s)).
  { induction us as [|[W upd] us IH]; intros s Hs; [exact Hs|].
    apply IH. unfold process, state_of. cbn [fst snd].
    assert (T : triple bounded (handler W upd) bounded bounded).
    { destruct upd; cbn [handler].
      - apply start_command_bounded.
      - apply handle_text_message_bounded.
      - apply triple_frames, feedback_callback_frames. }
    specialize (T s Hs). now destruct (handler W upd s) as [[a|e] s']. }
  apply (Hrun updates initial). intros c h. cbn. now rewrite lookup_empty.
Qed.

Lemma chat_history_window_witness :
  (length (concat (repeat [HumanMessage (u "course?"); AIMessage (u "See the study plan.")]
                          10)) <= 20)%nat.
Proof.
  apply (chat_history_window
           (repeat (answering_world, TextMessage 7 (u "course?")) 12) 7).
  vm_compute. reflexivity.
Defined.

(** ** C9: a feedback button with a malformed payload *)

(** Whatever the client does, a malformed payload changes no store. *)
Lemma malformed_feedback_stores W chat_id query s :
  length (str_split_on underscore (data query)) <> 3%nat ->
  let s' := state_of (feedback_callback W chat_id query s) in
  chat_data s' = chat_data s
  /\ user_chat_histories s' = user_chat_histories s
  /\ ragas_data_pool s' = ragas_data_pool s.
Proof.
  intros Hparts. unfold feedback_callback, bind, tg, try_except, call, logger, ret,
    state_of.
  destruct (telegram W query_answer) as [i1|e1]; [|now cbn].
  destruct (str_split_on underscore (data query)) as [|a [|b [|c [|d r]]]];
    try (now destruct Hparts); cbn;
    destruct (telegram W (query_edit_message_text _ None)); now cbn.
Qed.

(** C9, as stated, fails: the call that answers the press stands outside
    of any [try], and the call that sends the error text stands in the
    handler of the [except]; when the client raises at the first, or
    returns there and raises at the second, the handler raises. *)
Lemma malformed_feedback_counterexample :
  length (str_split_on underscore (data malformed_press)) <> 3%nat
  /\ result_of (feedback_callback unreachable_world 7 malformed_press initial)
     = Raise {| cls := TelegramError; msg := u "Timed out" |}
  /\ result_of (feedback_callback answer_only_world 7 malformed_press initial)
     = Raise {| cls := TelegramError; msg := u "Message can't be edited" |}.
Proof. split; [vm_compute; discriminate | split; reflexivity]. Qed.

(** C9, amended: when the payload does not split at its underscores into
    three parts, the handler leaves the interaction table, the histories
    and the pool as they were, whatever the client does; and when the two
    calls into the client return, it answers the press, replaces the text
    of the message with the error text and raises nothing. *)
Theorem malformed_feedback W chat_id query s :
  length (str_split_on underscore (data query)) <> 3%nat ->
  (chat_data (state_of (feedback_callback W chat_id query s)) = chat_data s
   /\ user_chat_histories (state_of (feedback_callback W chat_id query s))
      = user_chat_histories s
   /\ ragas_data_pool (state_of (feedback_callback W chat_id query s))
      = ragas_data_pool s)
  /\ (forall i1 i2,
        telegram W query_answer = Ret i1 -> telegram W error_reply = Ret i2 ->
        result_of (feedback_callback W chat_id query s) = Ret tt
        /\ sent (state_of (feedback_callback W chat_id query s))
           = sent s ++ [query_answer; error_reply]).
Proof.
  intros Hparts.
  split; [exact (malformed_feedback_stores W chat_id query s Hparts)|].
  intros i1 i2 H1 H2. split.
  - unfold feedback_callback, bind, tg, try_except, call, logger, ret, result_of.
    rewrite H1.
    destruct (str_split_on underscore (data query)) as [|a [|b [|c [|d r]]]];
      try (now destruct Hparts); cbn; fold error_reply; rewrite H2; reflexivity.
  - unfold feedback_callback, bind, tg, try_except, call, logger, ret, state_of.
    rewrite H1.
    destruct (str_split_on underscore (data query)) as [|a [|b [|c [|d r]]]];
      try (now destruct Hparts); cbn; fold error_reply; rewrite H2; cbn;
      now rewrite <- app_assoc.
Qed.

Lemma malformed_feedback_witness :
  result_of (feedback_callback quiet_world 7 malformed_press initial) = Ret tt
  /\ sent (state_of (feedback_callback quiet_world 7 malformed_press initial))
     = sent initial ++ [query_answer; error_reply].
Proof.
  apply (proj2 (malformed_feedback quiet_world 7 malformed_press initial
                  ltac:(vm_compute; discriminate)) 1%Z 1%Z);
    reflexivity.
Defined.

(** ** The scenarios of the specification, run *)

Example split_words :
  str_split (u "  What is  the deadline? ") = [u "What"; u "is"; u "the"; u "deadline?"].
Proof. reflexivity. Qed.

Example strip_both_ends : str_strip (u "  a b  ") = u "a b".
Proof. reflexivity. Qed.

Example except_clauses :
  caught_by ValueError {| cls := JSONDecodeError; msg := [] |} = true
  /\ caught_by JSONDecodeError {| cls := UnicodeDecodeError; msg := [] |} = false
  /\ caught_by Exception {| cls := CancelledError; msg := [] |} = false.
Proof. repeat split. Qed.

(** The token "deadline?" matches the key "deadline"; "applications?" is
    no key of the table. *)
Example deadline_scenario :
  result_of (preprocess_query_for_retrieval
               (translates_to (u "Какой срок подачи заявок?")) insertion_order
               (u "What is the deadline for applications?") [])
  = Ret (u "What is the deadline for applications? due date submission date, Какой срок подачи заявок?").
Proof. vm_compute. reflexivity. Qed.

(** A second pass also brings the synonyms of a key that the first pass
    wrote into the query. *)
Example second_pass_on_gsom :
  appended_synonyms (expanded_primary_query insertion_order (u "GSOM"))
  = [u "Graduate School of Management"; u "GSOM SPbU";
     u "Saint Petersburg State University"; u "СПбГУ"].
Proof. vm_compute. reflexivity. Qed.

(** With no handle on the model the text comes back as it is. *)
Example no_llm_handle :
  result_of (preprocess_query_for_retrieval
               {| llm := false; completion := fun _ => Unexpected |}
               insertion_order (u " course ") [])
  = Ret (u " course ").
Proof. reflexivity. Qed.

Example load_missing_file :
  load_json_file {| node_at := fun _ => Absent;
                    json_loads := fun _ => Raise (error JSONDecodeError) |}
                 (u "tg-credentials.json") false []
  = (Ret (JObject []), [(WARNING, u "JSON file 'tg-credentials.json' not found.")]).
Proof. reflexivity. Qed.

(** A press with a well-formed payload for an interaction that is not in
    the table: nothing is recorded and the user is told so. *)
Example feedback_unknown_interaction :
  sent (state_of (feedback_callback quiet_world 7
                    {| data := u "feedback_positive_0b5a";
                       message_text := u "Was this helpful?";
                       message_chat_id := 7;
                       message_reply_markup := None |} initial))
  = [ query_answer;
      query_edit_message_text
        (u "Was this helpful?\n\n_Sorry, couldn't record feedback for this message._")
        None ].
Proof. reflexivity. Qed.

(* ===================================================================== *)
(** * Further properties of the code *)
(* ===================================================================== *)

(** ** More on [strip] *)

Lemma lstrip_app a b :
  lstrip (a ++ b) = if forallb isspace a then lstrip b else lstrip a ++ b.
Proof.
  induction a as [|c r IH]; cbn [app lstrip forallb]; [reflexivity|].
  destruct (isspace c); cbn [andb]; [exact IH | reflexivity].
Qed.

Lemma lstrip_idempotent s : lstrip (lstrip s) = lstrip s.
Proof.
  induction s as [|c r IH]; cbn [lstrip]; [reflexivity|].
  destruct (isspace c) eqn:E; [exact IH|]. cbn [lstrip]. now rewrite E.
Qed.

Lemma forallb_rev {A} (f : A -> bool) l : forallb f (rev l) = forallb f l.
Proof.
  induction l as [|x r IH]; [reflexivity|].
  cbn [rev forallb]. rewrite forallb_app, IH. cbn [forallb].
  rewrite andb_true_r. apply andb_comm.
Qed.

Lemma rstrip_app a b :
  rstrip (a ++ b) = if forallb isspace b then rstrip a else a ++ rstrip b.
Proof.
  unfold rstrip. rewrite rev_app_distr, lstrip_app, forallb_rev.
  destruct (forallb isspace b); [reflexivity|].
  now rewrite rev_app_distr, rev_involutive.
Qed.

Lemma rstrip_idempotent s : rstrip (rstrip s) = rstrip s.
Proof. unfold rstrip. now rewrite rev_involutive, lstrip_idempotent. Qed.

(** A string that opens with a character that is no white space keeps it
    at its head when stripped on the right. *)
Lemma rstrip_head c r :
  isspace c = false -> exists r', rstrip (c :: r) = c :: r'.
Proof.
  intros Hc. change (c :: r) with ([c] ++ r). rewrite rstrip_app.
  destruct (forallb isspace r).
  - exists []. unfold rstrip. cbn. now rewrite Hc.
  - now exists (rstrip r).
Qed.

Lemma lstrip_head s : lstrip s = [] \/ exists c r, lstrip s = c :: r /\ isspace c = false.
Proof.
  induction s as [|c r IH]; cbn [lstrip]; [now left|].
  destruct (isspace c) eqn:E; [exact IH|]. right. now exists c, r.
Qed.

Lemma strip_idempotent s : str_strip (str_strip s) = str_strip s.
Proof.
  unfold str_strip.
  assert (H : lstrip (rstrip (lstrip s)) = rstrip (lstrip s)).
  { destruct (lstrip_head s) as [-> | [c [r [-> Hc]]]]; [reflexivity|].
    destruct (rstrip_head c r Hc) as [r' ->]. cbn [lstrip]. now rewrite Hc. }
  rewrite H. apply rstrip_idempotent.
Qed.

Lemma is_prefix_app a b : is_prefix a (a ++ b) = true.
Proof.
  induction a as [|x r IH]; [reflexivity|].
  cbn [app is_prefix]. now rewrite N.eqb_refl, IH.
Qed.

Lemma rstrip_prefix s : exists w, s = rstrip s ++ w /\ forallb isspace w = true.
Proof.
  unfold rstrip. destruct (lstrip_suffix (rev s)) as [p [Hp Hws]].
  exists (rev p). split; [|now rewrite forallb_rev].
  rewrite <- rev_app_distr, <- Hp. now rewrite rev_involutive.
Qed.

(** The stripped text opens the stripped form of whatever follows it. *)
Lemma strip_prefix_app q rest :
  is_prefix (str_strip q) (str_strip (q ++ rest)) = true.
Proof.
  unfold str_strip. rewrite lstrip_app.
  destruct (forallb isspace q) eqn:E.
  - apply lstrip_nil in E. rewrite E. reflexivity.
  - destruct (rstrip_prefix (lstrip q)) as [w [Hw Hws]].
    assert (Hne : rstrip (lstrip q) <> []).
    { intros Hnil. rewrite Hnil in Hw. cbn [app] in Hw.
      assert (Hb : forallb isspace (lstrip q) = true) by now rewrite Hw.
      destruct (lstrip_head q) as [Hl | [c [r [Hl Hc]]]].
      - apply lstrip_nil in Hl. congruence.
      - rewrite Hl in Hb. cbn [forallb] in Hb. now rewrite Hc in Hb. }
    rewrite Hw at 2. rewrite <- app_assoc.
    remember (rstrip (lstrip q)) as core eqn:Hcore.
    assert (Hkeep : rstrip core = core) by (subst core; apply rstrip_idempotent).
    rewrite rstrip_app.
    destruct (forallb isspace (w ++ rest)).
    + rewrite Hkeep. rewrite <- (app_nil_r core) at 2. apply is_prefix_app.
    + apply is_prefix_app.
Qed.

(** ** What [preprocess_query_for_retrieval] returns *)

(** X1: a user text that is not blank never comes back blank, with the
    model handle or without it, whatever the endpoint replies. *)
Theorem preprocess_keeps_text C o q l :
  str_strip q <> [] ->
  exists r, result_of (preprocess_query_for_retrieval C o q l) = Ret r
            /\ str_strip r <> [].
Proof.
  intros Hq. destruct (llm C) eqn:Hllm.
  - rewrite (preprocess_value C o q l Hllm).
    eexists. split; [reflexivity|]. rewrite strip_idempotent.
    destruct (str_strip (composed_query o q (translated_text C q))) as [|c r] eqn:E.
    + exfalso. apply Hq. apply strip_nil. apply strip_nil in E.
      now apply blank_composed in E.
    + cbn [nonempty negb]. rewrite E. discriminate.
  - exists q. split; [|exact Hq].
    unfold preprocess_query_for_retrieval. rewrite Hllm. reflexivity.
Qed.

Lemma preprocess_keeps_text_witness :
  exists r, result_of (preprocess_query_for_retrieval no_translation insertion_order
                         (u " exam ") []) = Ret r
            /\ str_strip r <> [].
Proof.
  apply (preprocess_keeps_text no_translation insertion_order (u " exam ") []).
  vm_compute. discriminate.
Defined.

(** X2: with the model handle there, the returned query has no white
    space at either end. *)
Theorem preprocess_returns_stripped C o q l :
  llm C = true ->
  exists r, result_of (preprocess_query_for_retrieval C o q l) = Ret r
            /\ str_strip r = r.
Proof.
  intros Hllm. rewrite (preprocess_value C o q l Hllm).
  eexists. split; [reflexivity | apply strip_idempotent].
Qed.

Lemma preprocess_returns_stripped_witness :
  exists r, result_of (preprocess_query_for_retrieval (translates_to (u " экзамен "))
                         insertion_order (u " exam ") []) = Ret r
            /\ str_strip r = r.
Proof.
  apply (preprocess_returns_stripped (translates_to (u " экзамен ")) insertion_order
           (u " exam ") []).
  reflexivity.
Defined.

(** X3: with the model handle there, the returned query opens with the
    user text (stripped): synonyms and translation only follow it. *)
Theorem preprocess_opens_with_text C o q l :
  llm C = true ->
  exists r, result_of (preprocess_query_for_retrieval C o q l) = Ret r
            /\ is_prefix (str_strip q) r = true.
Proof.
  intros Hllm. rewrite (preprocess_value C o q l Hllm).
  eexists. split; [reflexivity|].
  destruct (nonempty (str_strip (composed_query o q (translated_text C q))));
    cbn [negb].
  - unfold composed_query, expanded_primary_query.
    destruct (nonempty (translated_text C q)), (nonempty (appended_synonyms q));
      rewrite <- ?app_assoc; try apply strip_prefix_app.
    rewrite <- (app_nil_r q) at 2. apply strip_prefix_app.
  - rewrite <- (app_nil_r (str_strip q)) at 2. apply is_prefix_app.
Qed.

Lemma preprocess_opens_with_text_witness :
  exists r, result_of (preprocess_query_for_retrieval (translates_to (u "экзамен"))
                         insertion_order (u " exam ") []) = Ret r
            /\ is_prefix (str_strip (u " exam ")) r = true.
Proof.
  apply (preprocess_opens_with_text (translates_to (u "экзамен")) insertion_order
           (u " exam ") []).
  reflexivity.
Defined.

(** ** How tokens meet the keys of the table *)

Lemma lower_full_one c : c <> 304 -> lower_full c = [lower_one c].
Proof.
  intros H. unfold lower_one, lower_full.
  replace (c =? 304) with false by (symmetry; now apply N.eqb_neq).
  now destruct (lower_lookup c lower_table).
Qed.

(** But for U+0130 and capital sigma, the lower-case form of a code point
    is one code point, alphanumeric when the code point is, that [lower]
    leaves as it is and that is neither of the two. *)
Lemma lower_one_plain c :
  c <> 304 -> c <> 931 ->
  isalnum (lower_one c) = isalnum c /\ lower_one (lower_one c) = lower_one c
  /\ lower_one c <> 931 /\ lower_one c <> 304.
Proof.
  intros H1 H2.
  assert (H : forall c,
    (c =? 304) || (c =? 931)
    || (Bool.eqb (isalnum (lower_one c)) (isalnum c)
        && (lower_one (lower_one c) =? lower_one c)
        && negb (lower_one c =? 931) && negb (lower_one c =? 304)) = true).
  { apply lower_full_check; [vm_compute; reflexivity|].
    intros d Hfix. unfold lower_one. rewrite Hfix. cbn [hd]. rewrite Hfix. cbn [hd].
    rewrite Bool.eqb_reflx, N.eqb_refl. cbn [andb].
    destruct (d =? 304); [reflexivity|]. destruct (d =? 931); reflexivity. }
  specialize (H c).
  replace (c =? 304) with false in H by (symmetry; now apply N.eqb_neq).
  replace (c =? 931) with false in H by (symmetry; now apply N.eqb_neq).
  cbn [orb] in H.
  apply andb_prop in H as [H E4]. apply andb_prop in H as [H E3].
  apply andb_prop in H as [E1 E2].
  apply Bool.eqb_prop in E1. apply N.eqb_eq in E2.
  apply negb_true_iff, N.eqb_neq in E3. apply negb_true_iff, N.eqb_neq in E4.
  tauto.
Qed.

Lemma char_in_cons_false c x s :
  char_in c (x :: s) = false -> c <> x /\ char_in c s = false.
Proof.
  unfold char_in. cbn [existsb]. intros H. apply orb_false_iff in H as [H1 H2].
  apply N.eqb_neq in H1. tauto.
Qed.

(** Without U+0130 and capital sigma, [lower] works code point by code
    point. *)
Lemma lower_from_plain b t :
  char_in 304 t = false -> char_in 931 t = false ->
  lower_from b t = map lower_one t.
Proof.
  revert b. induction t as [|c t IH]; intros b H1 H2; [reflexivity|].
  apply char_in_cons_false in H1 as [N1 H1]. apply char_in_cons_false in H2 as [N2 H2].
  cbn [lower_from map].
  replace (c =? 931) with false by (symmetry; apply N.eqb_neq; congruence).
  rewrite lower_full_one by congruence. cbn [app]. f_equal. now apply IH.
Qed.

Lemma char_in_filter c f t : char_in c t = false -> char_in c (List.filter f t) = false.
Proof.
  induction t as [|x t IH]; [reflexivity|]. intros H.
  apply char_in_cons_false in H as [Hx Ht]. cbn [List.filter].
  destruct (f x); [|now apply IH].
  unfold char_in. cbn [existsb]. apply orb_false_iff. split.
  - now apply N.eqb_neq.
  - now apply IH.
Qed.

Lemma lower_one_twice t :
  char_in 304 t = false -> char_in 931 t = false ->
  char_in 304 (map lower_one t) = false /\ char_in 931 (map lower_one t) = false
  /\ map lower_one (map lower_one t) = map lower_one t
  /\ List.filter isalnum (map lower_one t) = map lower_one (List.filter isalnum t).
Proof.
  induction t as [|c t IH]; intros H1 H2; [now repeat split|].
  apply char_in_cons_false in H1 as [N1 H1]. apply char_in_cons_false in H2 as [N2 H2].
  destruct (IH H1 H2) as [I1 [I2 [I3 I4]]].
  destruct (lower_one_plain c) as [Ea [Ei [E931 E304]]]; try congruence.
  cbn [map List.filter]. unfold char_in in *. cbn [existsb].
  rewrite I1, I2, I3, I4, Ei, Ea.
  replace (304 =? lower_one c) with false by (symmetry; apply N.eqb_neq; congruence).
  replace (931 =? lower_one c) with false by (symmetry; apply N.eqb_neq; congruence).
  repeat split. now destruct (isalnum c).
Qed.

(** Every code point of a cleaned token is alphanumeric or the combining
    dot above, U+0307, that the lower-case form of U+0130 ends in. *)
Lemma cleaned_is_alnum token :
  forallb (fun c => isalnum c || (c =? 775)) (cleaned_token_lower token) = true.
Proof.
  assert (H : forall c,
    (if isalnum c then forallb (fun x => isalnum x || (x =? 775)) (lower_full c)
     else true) = true).
  { apply lower_full_check; [vm_compute; reflexivity|].
    intros c Hfix. destruct (isalnum c) eqn:E; [|reflexivity].
    rewrite Hfix. cbn [forallb]. now rewrite E. }
  unfold cleaned_token_lower, str_lower. generalize (@nil N) as b.
  induction token as [|c t IH]; intros b; [reflexivity|].
  cbn [List.filter]. destruct (isalnum c) eqn:Ec; [|apply IH].
  cbn [lower_from]. rewrite forallb_app, IH, andb_true_r.
  destruct (c =? 931).
  - now destruct (final_sigma b (List.filter isalnum t)).
  - specialize (H c). now rewrite Ec in H.
Qed.

(** X4: the set of appended synonyms depends on the query through its
    tokens only: two queries that differ in their white space get the same
    synonyms. *)
Theorem appended_synonyms_by_tokens q1 q2 :
  str_split q1 = str_split q2 -> appended_synonyms q1 = appended_synonyms q2.
Proof.
  intros H. unfold appended_synonyms. now rewrite !split_lower, H.
Qed.

Lemma appended_synonyms_by_tokens_witness :
  appended_synonyms (u "  exam   schedule ") = appended_synonyms (u "exam schedule").
Proof. apply appended_synonyms_by_tokens. reflexivity. Defined.

(** X5: a token meets the keys of the table whatever characters that
    are not alphanumeric stand in it, and, when it holds neither U+0130
    nor capital sigma, whatever its case: the form compared with the keys
    is the same. *)
Theorem cleaned_token_ignores_case_and_marks token a b p :
  isalnum p = false ->
  (char_in 304 token = false -> char_in 931 token = false ->
   cleaned_token_lower (str_lower token) = cleaned_token_lower token)
  /\ cleaned_token_lower (a ++ p :: b) = cleaned_token_lower (a ++ b).
Proof.
  intros Hp. unfold cleaned_token_lower. split.
  - intros H1 H2. destruct (lower_one_twice token H1 H2) as [I1 [I2 [I3 I4]]].
    unfold str_lower. rewrite (lower_from_plain [] token H1 H2), I4.
    rewrite !lower_from_plain; try (now apply char_in_filter).
    + destruct (lower_one_twice (List.filter isalnum token)) as [_ [_ [J _]]];
        try (now apply char_in_filter).
      exact J.
    + rewrite <- I4. now apply char_in_filter.
    + rewrite <- I4. now apply char_in_filter.
  - rewrite !List.filter_app. cbn [List.filter]. now rewrite Hp.
Qed.

Lemma cleaned_token_ignores_case_and_marks_witness :
  cleaned_token_lower (str_lower (u "DeadLine?")) = cleaned_token_lower (u "DeadLine?")
  /\ cleaned_token_lower (u "Dead" ++ 45 :: u "Line")
     = cleaned_token_lower (u "Dead" ++ u "Line").
Proof.
  destruct (cleaned_token_ignores_case_and_marks (u "DeadLine?") (u "Dead") (u "Line") 45
              eq_refl) as [H1 H2].
  split; [apply H1; reflexivity | exact H2].
Defined.

(** The two code points that the first part leaves out: lower-casing
    first changes the cleaned form of a token with U+0130, and of a token
    with a capital sigma before a hyphen. *)
Example case_of_dotted_i_and_sigma :
  cleaned_token_lower (str_lower (u "Aİ")) = u "ai"
  /\ cleaned_token_lower (u "Aİ") = [97; 105; 775]
  /\ cleaned_token_lower (str_lower (u "ΑΣ-Β")) = u "αςβ"
  /\ cleaned_token_lower (u "ΑΣ-Β") = u "ασβ".
Proof. vm_compute. repeat split. Qed.

Lemma dead_key_never_equal key token :
  existsb (fun c => negb (isalnum c) && negb (c =? 775)) (str_lower key) = true ->
  str_eqb (str_lower key) (cleaned_token_lower token) = false.
Proof.
  intros H. destruct (str_eqb (str_lower key) (cleaned_token_lower token)) eqn:E;
    [|reflexivity].
  apply str_eqb_eq in E. apply existsb_exists in H as [c [Hin Hc]].
  rewrite E in Hin. pose proof (cleaned_is_alnum token) as Hall.
  rewrite forallb_forall in Hall. specialize (Hall c Hin).
  apply andb_prop in Hc as [Hc1 Hc2]. apply negb_true_iff in Hc1, Hc2.
  rewrite Hc1, Hc2 in Hall. discriminate.
Qed.

(** X6: an entry of the table whose key, in lower case, holds a character
    that is neither alphanumeric nor the combining dot above, U+0307 (a
    space, a hyphen), is never matched: the loops over the tokens give the
    same set with the entry and without it. *)
Theorem key_with_mark_is_dead items1 items2 key syns words tokens appended :
  existsb (fun c => negb (isalnum c) && negb (c =? 775)) (str_lower key) = true ->
  scan_tokens (items1 ++ (key, syns) :: items2) words tokens appended
  = scan_tokens (items1 ++ items2) words tokens appended.
Proof.
  intros Hkey. unfold scan_tokens. revert appended.
  induction tokens as [|token r IH]; intros appended; [reflexivity|].
  cbn [fold_left]. rewrite IH. f_equal.
  unfold scan_synonym_map. rewrite !fold_left_app. cbn [fold_left fst snd].
  now rewrite (dead_key_never_equal key token Hkey).
Qed.

Lemma key_with_mark_is_dead_witness :
  scan_tokens ([] ++ (u "exchange program", [u "included learning"]) :: [])
              [] [u "exchange"; u "program"] []
  = scan_tokens ([] ++ []) [] [u "exchange"; u "program"] [].
Proof.
  apply (key_with_mark_is_dead [] [] (u "exchange program") [u "included learning"]).
  reflexivity.
Defined.

(** The combining dot above is the one mark that a key can hold and be
    matched: the token U+0130 meets the key of small i and U+0307; and a
    key with a letter outside of Latin and Cyrillic is matched as any
    other. *)
Example keys_that_are_matched :
  str_eqb (str_lower [105; 775]) (cleaned_token_lower [304]) = true
  /\ str_eqb (str_lower (u "café")) (cleaned_token_lower (u "Café!")) = true
  /\ cleaned_token_lower (u "AI是什么") = u "ai是什么".
Proof. vm_compute. repeat split. Qed.

(** ** [ask_llm_for_metadata] *)

(** The call raises nothing and returns a text with no white space at
    its ends; the text is empty when there is no model handle. *)
Theorem ask_llm_returns_stripped C prompt instruction l :
  exists t, result_of (ask_llm_for_metadata C prompt instruction l) = Ret t
            /\ str_strip t = t
            /\ (llm C = false -> t = []).
Proof.
  unfold ask_llm_for_metadata, result_of.
  destruct (llm C); cbn [negb].
  - destruct (completion C (instruction ++ u "\n\n" ++ prompt)) as [e|c e| |text];
      eexists; (split; [reflexivity|]); (split; [|discriminate]);
      try reflexivity.
    apply strip_idempotent.
  - exists []. repeat split.
Qed.

(** ** The retriever *)

(** When either entry point is over, the hybrid flag of the store is
    set, whatever it was before and whatever the search did. *)
Theorem retriever_forces_hybrid_flag {score} (vs : Retriever.vectorstore score)
    (k : nat) (query : pystr) (s : Retriever.state) :
  Retriever.is_hybrid_search (state_of (Retriever._get_relevant_documents vs k query s))
  = Some true
  /\ Retriever.is_hybrid_search
       (state_of (Retriever._aget_relevant_documents vs k query s))
     = Some true.
Proof.
  split.
  - unfold Retriever._get_relevant_documents, try_except, bind,
      Retriever.getattr_is_hybrid_search, Retriever.set_is_hybrid_search, logger,
      call, ret, state_of.
    destruct (Retriever.is_hybrid_search s) as [[|]|] eqn:Ef; cbn [negb fst snd];
      destruct (Retriever.similarity_search_with_score vs query k Retriever.search_kwargs)
        as [hits|e]; cbn [dispatch]; try destruct (caught_by Exception e);
      cbn; try exact Ef; reflexivity.
  - unfold Retriever._aget_relevant_documents, try_except, bind,
      Retriever.getattr_is_hybrid_search, Retriever.set_is_hybrid_search, logger,
      call, ret, state_of.
    destruct (Retriever.asimilarity_search_with_score vs) as [asearch|].
    + destruct (Retriever.is_hybrid_search s) as [[|]|] eqn:Ef; cbn [negb fst snd];
        destruct (asearch query k Retriever.search_kwargs) as [hits|e];
        cbn [dispatch]; try destruct (caught_by Exception e);
        cbn; try exact Ef; reflexivity.
    + destruct (Retriever.is_hybrid_search s) as [[|]|] eqn:Ef; cbn [negb fst snd];
        destruct (Retriever.similarity_search_with_score vs query k Retriever.search_kwargs)
          as [hits|e]; cbn [dispatch]; try destruct (caught_by Exception e);
        cbn; try exact Ef; reflexivity.
Qed.

(** X7: what the search raises outside of [Exception] (a cancellation, an
    interrupt) is not swallowed: the blocking entry point raises it to the
    caller. *)
Theorem retriever_lets_base_exceptions_through {score}
    (vs : Retriever.vectorstore score) (k : nat) (query : pystr)
    (s : Retriever.state) (e : exn) :
  Retriever.similarity_search_with_score vs query k Retriever.search_kwargs = Raise e ->
  caught_by Exception e = false ->
  result_of (Retriever._get_relevant_documents vs k query s) = Raise e.
Proof.
  intros Hs He.
  unfold Retriever._get_relevant_documents, try_except, bind,
    Retriever.getattr_is_hybrid_search, Retriever.set_is_hybrid_search, logger,
    call, ret, result_of.
  destruct (Retriever.is_hybrid_search s) as [[|]|]; cbn [negb fst snd];
    rewrite Hs; cbn [dispatch]; rewrite He; reflexivity.
Qed.

Lemma retriever_lets_base_exceptions_through_witness :
  result_of (Retriever._get_relevant_documents cancelled_store config.K_MAX (u "exam")
               {| Retriever.is_hybrid_search := None; Retriever.log := [] |})
  = Raise {| cls := CancelledError; msg := [] |}.
Proof.
  apply (retriever_lets_base_exceptions_through cancelled_store); reflexivity.
Defined.

(** X8: for a store with no coroutine of its own, the coroutine returns
    what the blocking entry point returns. *)
Theorem retriever_async_as_sync {score} (vs : Retriever.vectorstore score)
    (k : nat) (query : pystr) (s : Retriever.state) :
  Retriever.asimilarity_search_with_score vs = None ->
  result_of (Retriever._aget_relevant_documents vs k query s)
  = result_of (Retriever._get_relevant_documents vs k query s).
Proof.
  intros Ha.
  unfold Retriever._aget_relevant_documents, Retriever._get_relevant_documents,
    try_except, bind, Retriever.getattr_is_hybrid_search,
    Retriever.set_is_hybrid_search, logger, call, ret, result_of.
  rewrite Ha.
  destruct (Retriever.is_hybrid_search s) as [[|]|]; cbn [negb fst snd];
    destruct (Retriever.similarity_search_with_score vs query k Retriever.search_kwargs)
      as [hits|e]; cbn [dispatch]; try destruct (caught_by Exception e); reflexivity.
Qed.

Lemma retriever_async_as_sync_witness :
  result_of (Retriever._aget_relevant_documents cancelled_store config.K_MAX (u "exam")
               {| Retriever.is_hybrid_search := Some false; Retriever.log := [] |})
  = result_of (Retriever._get_relevant_documents cancelled_store config.K_MAX (u "exam")
                 {| Retriever.is_hybrid_search := Some false; Retriever.log := [] |}).
Proof. apply (retriever_async_as_sync cancelled_store). reflexivity. Defined.

(** X9: when the search returns its hits, the blocking entry point
    returns their documents, as many and in the same order, with the scores
    dropped. *)
Theorem retriever_returns_documents_of_hits {score}
    (vs : Retriever.vectorstore score) (k : nat) (query : pystr)
    (s : Retriever.state) (hits : list (Document * score)) :
  Retriever.similarity_search_with_score vs query k Retriever.search_kwargs = Ret hits ->
  result_of (Retriever._get_relevant_documents vs k query s) = Ret (map fst hits).
Proof.
  intros Hs.
  unfold Retriever._get_relevant_documents, try_except, bind,
    Retriever.getattr_is_hybrid_search, Retriever.set_is_hybrid_search, logger,
    call, ret, result_of.
  destruct (Retriever.is_hybrid_search s) as [[|]|]; cbn [negb fst snd];
    rewrite Hs; reflexivity.
Qed.

Lemma retriever_returns_documents_of_hits_witness :
  result_of (Retriever._get_relevant_documents one_hit_store config.K_MAX (u "exam")
               {| Retriever.is_hybrid_search := None; Retriever.log := [] |})
  = Ret (map fst [({| page_content := u "Exam rules"; metadata := [] |}, 3%Z)]).
Proof.
  apply (retriever_returns_documents_of_hits one_hit_store). reflexivity.
Defined.

(** ** The log of [load_json_file] *)

(** With [quiet] set the call writes nothing to the log, whatever the
    file is; without it the call writes one warning at most; and the value
    does not depend on [quiet]. *)
Theorem load_json_file_quiet (H : host) (filename : pystr) (l : list log_record) :
  state_of (load_json_file H filename true l) = l
  /\ result_of (load_json_file H filename true l)
     = result_of (load_json_file H filename false l)
  /\ (exists m, state_of (load_json_file H filename false l) = l
                \/ state_of (load_json_file H filename false l) = l ++ [(WARNING, m)]).
Proof.
  unfold load_json_file, try_except, bind, call, open, json_load, result_of, state_of.
  destruct (node_at H filename) as [| | |content].
  - repeat split. eexists. right. reflexivity.
  - repeat split. exists []. now left.
  - repeat split. exists []. now left.
  - destruct (utf8_decode content) as [text|].
    + destruct (json_loads H (universal_newlines text)) as [v|e].
      * repeat split. exists []. now left.
      * cbn [dispatch]. destruct (caught_by FileNotFoundError e).
        { repeat split. eexists. right. reflexivity. }
        destruct (caught_by JSONDecodeError e).
        { repeat split. eexists. right. reflexivity. }
        repeat split. exists []. now left.
    + repeat split. exists []. now left.
Qed.

(** ** Runs of a handler: steps that keep the stores, steps that return *)

Lemma keeps_ret {A} (a : A) : keeps_stores (ret a).
Proof. intros s. reflexivity. Qed.

Lemma keeps_call {A} (r : outcome A) : keeps_stores (call r).
Proof. intros s. reflexivity. Qed.

Lemma keeps_read {A} (f : state -> A) : keeps_stores (read f).
Proof. intros s. reflexivity. Qed.

Lemma keeps_logger l m : keeps_stores (logger l m).
Proof. intros s. reflexivity. Qed.

Lemma keeps_tg W r : keeps_stores (tg W r).
Proof. intros s. unfold tg. now destruct (telegram W r). Qed.

Lemma keeps_with_logger {A} (m : M (list log_record) A) : keeps_stores (with_logger m).
Proof. intros s. unfold with_logger. now destruct (m (log s)). Qed.

Lemma keeps_bind {A B} (m : M state A) (k : A -> M state B) :
  keeps_stores m -> (forall a, keeps_stores (k a)) -> keeps_stores (bind m k).
Proof.
  intros Hm Hk s. unfold bind, state_of. specialize (Hm s). unfold state_of in Hm.
  destruct (m s) as [[a|e] s']; cbn [snd] in *; [|exact Hm].
  rewrite <- Hm. apply Hk.
Qed.

Lemma keeps_try {A} (m : M state A) h (k : exn -> M state A) :
  keeps_stores m -> (forall e, keeps_stores (k e)) ->
  keeps_stores (try_except m [(h, k)]).
Proof.
  intros Hm Hk s. unfold try_except, state_of. specialize (Hm s).
  unfold state_of in Hm.
  destruct (m s) as [[a|e] s']; cbn [snd dispatch] in *; [exact Hm|].
  destruct (caught_by h e); [rewrite <- Hm; apply Hk | exact Hm].
Qed.

Create HintDb keeps.
#[local] Hint Resolve keeps_ret keeps_call keeps_read keeps_logger keeps_tg
  keeps_with_logger : keeps.

(** Closes a goal [keeps_stores m] for a run built from the steps above. *)
Ltac keep_stores :=
  repeat first
    [ apply keeps_bind; [|intros ?]
    | apply keeps_try; [|intros ?]
    | solve [auto with keeps]
    | match goal with
      | |- keeps_stores (if ?b then _ else _) => destruct b
      | |- keeps_stores (match ?x with _ => _ end) => destruct x
      end ].

Lemma returns_ret {S A} (a : A) : returns (@ret S A a).
Proof. intros s. now exists a. Qed.

Lemma returns_logger {S} `{Logging S} l m : returns (@logger S _ l m).
Proof. intros s. now exists tt. Qed.

Lemma returns_read {A} (f : state -> A) : returns (read f).
Proof. intros s. now exists (f s). Qed.

Lemma returns_update f : returns (update_state f).
Proof. intros s. now exists tt. Qed.

Lemma returns_tg W r : client_returns W -> returns (tg W r).
Proof.
  intros HW s. destruct (HW r) as [i Hi]. exists i. unfold tg. now rewrite Hi.
Qed.

Lemma returns_bind {S A B} (m : M S A) (k : A -> M S B) :
  returns m -> (forall a, returns (k a)) -> returns (bind m k).
Proof.
  intros Hm Hk s. unfold bind, result_of. destruct (Hm s) as [a Ha].
  unfold result_of in Ha. destruct (m s) as [[a'|e] s']; cbn [fst] in Ha;
    [|discriminate]. apply Hk.
Qed.

Lemma returns_with_logger {A} (m : M (list log_record) A) :
  returns m -> returns (with_logger m).
Proof.
  intros Hm s. unfold with_logger, result_of. destruct (Hm (log s)) as [a Ha].
  unfold result_of in Ha. destruct (m (log s)) as [r l]. cbn [fst] in *. now exists a.
Qed.

(** A [try] around a run that raises nothing is that run. *)
Lemma try_of_returns {S A} (m : M S A) clauses s :
  returns m -> try_except m clauses s = m s.
Proof.
  intros Hm. unfold try_except. destruct (Hm s) as [a Ha]. unfold result_of in Ha.
  destruct (m s) as [[a'|e] s']; [reflexivity | discriminate].
Qed.

Lemma returns_try {S A} (m : M S A) clauses : returns m -> returns (try_except m clauses).
Proof. intros Hm s. rewrite try_of_returns by exact Hm. apply Hm. Qed.

Lemma ask_llm_returns C p i : returns (ask_llm_for_metadata C p i).
Proof.
  intros l. destruct (ask_returns C p i l) as [l' E]. rewrite E. eexists. reflexivity.
Qed.

Lemma preprocess_returns C o q : returns (preprocess_query_for_retrieval C o q).
Proof.
  unfold preprocess_query_for_retrieval.
  destruct (llm C); cbn [negb].
  - apply returns_bind; [apply returns_logger|]. intros _.
    apply returns_bind; [apply ask_llm_returns|]. intros t.
    apply returns_bind; [apply returns_logger|]. intros _.
    apply returns_bind.
    + destruct (nonempty config.SYNONYM_MAP); [|apply returns_ret].
      destruct (nonempty (appended_synonyms q)); [|apply returns_ret].
      apply returns_bind; [apply returns_logger | intros _; apply returns_ret].
    + intros f. apply returns_bind; [apply returns_logger | intros _; apply returns_ret].
  - apply returns_bind; [apply returns_logger | intros _; apply returns_ret].
Qed.

(** ** Rules of [hoare] *)

Lemma hoare_bind {A B} P Q1 Q R (m : M state A) (k : A -> M state B) :
  hoare P m Q1 R -> (forall a, hoare (Q1 a) (k a) Q R) -> hoare P (bind m k) Q R.
Proof.
  intros Hm Hk s Hs. unfold bind. specialize (Hm s Hs).
  destruct (m s) as [[a|e] s']; [apply (Hk a s' Hm) | exact Hm].
Qed.

Lemma hoare_try {A} P Q R R' (m : M state A) h (k : exn -> M state A) :
  hoare P m Q R' -> (forall e, hoare R' (k e) Q R) -> (forall s, R' s -> R s) ->
  hoare P (try_except m [(h, k)]) Q R.
Proof.
  intros Hm Hk Hw s Hs. unfold try_except. specialize (Hm s Hs).
  destruct (m s) as [[a|e] s']; [exact Hm|].
  cbn [dispatch]. destruct (caught_by h e); [apply (Hk e s' Hm)|].
  unfold raise. now apply Hw.
Qed.

Lemma hoare_conseq {A} (P P' : state -> Prop) (Q Q' : A -> state -> Prop)
    (R R' : state -> Prop) (m : M state A) :
  (forall s, P s -> P' s) -> (forall a s, Q' a s -> Q a s) -> (forall s, R' s -> R s) ->
  hoare P' m Q' R' -> hoare P m Q R.
Proof.
  intros HP HQ HR Hm s Hs. specialize (Hm s (HP s Hs)).
  destruct (m s) as [[a|e] s']; auto.
Qed.

Lemma hoare_pure {A} (phi : Prop) P (m : M state A) Q R :
  (phi -> hoare P m Q R) -> hoare (fun s => phi /\ P s) m Q R.
Proof. intros H s [Hphi Hs]. now apply H. Qed.

Lemma hoare_ret {A} (P : state -> Prop) R (a : A) :
  hoare P (ret a) (fun b s => b = a /\ P s) R.
Proof. intros s Hs. now split. Qed.

Lemma hoare_read {A} (P : state -> Prop) R (f : state -> A) :
  hoare P (read f) (fun a s => a = f s /\ P s) R.
Proof. intros s Hs. now split. Qed.

Lemma hoare_update (P Q : state -> Prop) R (f : state -> state) :
  (forall s, P s -> Q (f s)) -> hoare P (update_state f) (fun _ => Q) R.
Proof. intros H s Hs. now apply H. Qed.

Lemma hoare_call {A} (P : state -> Prop) (r : outcome A) :
  hoare P (call r) (fun a s => r = Ret a /\ P s) (fun s => (exists e, r = Raise e) /\ P s).
Proof. intros s Hs. unfold call. destruct r as [a|e]; split; eauto. Qed.

(** A run that keeps the stores keeps what is said of the stores. *)
Lemma hoare_keeps {A} (phi : _ -> Prop) (m : M state A) :
  keeps_stores m ->
  hoare (fun s => phi (stores s)) m (fun _ s => phi (stores s)) (fun s => phi (stores s)).
Proof.
  intros Hm s Hs. specialize (Hm s). unfold state_of in Hm.
  destruct (m s) as [[a|e] s']; cbn [snd] in Hm; now rewrite Hm.
Qed.

(** The same for a run that returns: it does not end by raising. *)
Lemma hoare_keeps_returns {A} (phi : _ -> Prop) (m : M state A) :
  keeps_stores m -> returns m ->
  hoare (fun s => phi (stores s)) m (fun _ s => phi (stores s)) (fun _ => False).
Proof.
  intros Hm Hr s Hs. specialize (Hm s). destruct (Hr s) as [a Ha].
  unfold state_of in Hm. unfold result_of in Ha.
  destruct (m s) as [[a'|e] s']; cbn [fst snd] in *; [now rewrite Hm | discriminate].
Qed.

(** ** A turn of [handle_text_message] *)

Lemma hoare_frames {A} (phi : gmap Z (list message) -> Prop) (m : M state A) :
  frames m ->
  hoare (fun s => phi (user_chat_histories s)) m
        (fun _ s => phi (user_chat_histories s))
        (fun s => phi (user_chat_histories s)).
Proof.
  intros Hm s Hs. specialize (Hm s). unfold state_of in Hm.
  destruct (m s) as [[a|e] s']; cbn [snd] in Hm; now rewrite Hm.
Qed.

Lemma returns_tg_ret W r i : telegram W r = Ret i -> returns (tg W r).
Proof. intros Hi s. exists i. unfold tg. now rewrite Hi. Qed.

Lemma preprocess_result_any_log C o q l :
  result_of (preprocess_query_for_retrieval C o q l)
  = result_of (preprocess_query_for_retrieval C o q []).
Proof.
  destruct (llm C) eqn:E.
  - now rewrite !preprocess_value by exact E.
  - unfold preprocess_query_for_retrieval. rewrite E. reflexivity.
Qed.

(** A run that leaves the histories alone and raises nothing. *)
Lemma hoare_frames_returns {A} (phi : gmap Z (list message) -> Prop) (m : M state A) R :
  frames m -> returns m ->
  hoare (fun s => phi (user_chat_histories s)) m
        (fun _ s => phi (user_chat_histories s)) R.
Proof.
  intros Hm Hr s Hs. specialize (Hm s). destruct (Hr s) as [a Ha].
  unfold state_of in Hm. unfold result_of in Ha.
  destruct (m s) as [[a'|e] s']; cbn [fst snd] in *; [now rewrite Hm | discriminate].
Qed.

Lemma hoare_call_ret {A} (P : state -> Prop) R (r : outcome A) (a : A) :
  r = Ret a -> hoare P (call r) (fun b s => b = a /\ P s) R.
Proof. intros -> s Hs. now split. Qed.

(** The step of a turn that preprocesses the text: it raises nothing,
    keeps the stores, and gives the query that goes to the chain. *)
Lemma preprocess_step W text clauses (P : state -> Prop) R :
  (forall s f, P s -> P (with_log f s)) ->
  hoare P
        (try_except
           (with_logger (preprocess_query_for_retrieval (llm_client W) (hash_order W) text))
           clauses)
        (fun pq s => pq = preprocessed W text /\ P s)
        R.
Proof.
  intros HP s Hs.
  rewrite try_of_returns by (apply returns_with_logger, preprocess_returns).
  unfold with_logger, preprocessed.
  rewrite <- (preprocess_result_any_log _ _ _ (log s)).
  destruct (preprocess_returns (llm_client W) (hash_order W) text (log s)) as [r Hr].
  unfold result_of in *.
  destruct (preprocess_query_for_retrieval (llm_client W) (hash_order W) text (log s))
    as [[r'|e] l']; cbn [fst] in *; [|discriminate].
  split; [reflexivity | now apply HP].
Qed.

(** The step that makes sure the chat has a history. *)
Lemma ensure_history_step chat_id H0 R :
  hoare (fun s => user_chat_histories s = H0)
        (let* known := has_history chat_id in
         if negb known then set_history chat_id [] else ret tt)
        (fun _ s => user_chat_histories s = <[chat_id := default [] (H0 !! chat_id)]> H0)
        R.
Proof.
  intros s Hs. unfold bind, has_history, read, set_history, update_state, ret.
  rewrite Hs. destruct (H0 !! chat_id) as [h|] eqn:E; cbn.
  - rewrite Hs. symmetry. now apply insert_id.
  - now rewrite Hs.
Qed.

(** The steps that add the turn to the history and cut it to its window. *)
Lemma remember_turn_step chat_id H0 h0 more (k : M state unit) Q R :
  hoare (fun s => user_chat_histories s = <[chat_id := last_n 20 (h0 ++ more)]> H0) k Q R ->
  hoare (fun s => user_chat_histories s = <[chat_id := h0]> H0)
        (extend_history chat_id more ;;
         let* current_chat_history := get_history chat_id in
         set_history chat_id (last_n 20 current_chat_history) ;;
         k)
        Q R.
Proof.
  intros Hk s Hs.
  unfold bind at 1. unfold extend_history, update_state at 1.
  unfold bind at 1. unfold get_history, read.
  unfold bind at 1. unfold set_history, update_state.
  apply Hk. cbn. rewrite Hs.
  rewrite lookup_alter_eq, lookup_insert_eq. cbn.
  now rewrite insert_alter_eq, insert_insert_eq.
Qed.

Lemma answered_turn_history W chat_id text s chain r pm :
  rag_chain W = Some chain ->
  telegram W processing_reply = Ret pm ->
  chain (preprocessed W text) (default [] (user_chat_histories s !! chat_id)) = Ret r ->
  user_chat_histories (state_of (handle_text_message W chat_id text s))
  = <[chat_id := last_n 20 (default [] (user_chat_histories s !! chat_id)
                            ++ turn_messages text r)]> (user_chat_histories s).
Proof.
  intros Hchain Hpm Hr.
  set (H0 := user_chat_histories s). fold H0 in Hr.
  set (h0 := default [] (H0 !! chat_id)) in *.
  set (HF := <[chat_id := last_n 20 (h0 ++ turn_messages text r)]> H0).
  assert (T : hoare (fun s' => user_chat_histories s' = H0)
                    (handle_text_message W chat_id text)
                    (fun _ s' => user_chat_histories s' = HF)
                    (fun s' => user_chat_histories s' = HF)).
  { unfold handle_text_message. rewrite Hchain. cbv zeta.
    eapply hoare_bind; [apply ensure_history_step|]. intros ?. fold h0.
    eapply hoare_bind.
    { apply (hoare_frames_returns (fun H => H = <[chat_id := h0]> H0));
        [apply frames_tg | exact (returns_tg_ret _ _ _ Hpm)]. }
    intros processing_msg. cbv beta.
    eapply hoare_bind.
    { apply (preprocess_step W text _ (fun s' => user_chat_histories s' = <[chat_id := h0]> H0)).
      intros s' f Hs'. exact Hs'. }
    intros pq. apply hoare_pure. intros ->.
    apply hoare_try with (R' := fun s' => user_chat_histories s' = HF).
    - eapply hoare_bind; [apply hoare_read|]. intros history. cbv beta.
      eapply hoare_conseq with
        (P' := fun s' => history = h0 /\ user_chat_histories s' = <[chat_id := h0]> H0);
        [| intros ? ? Hq; exact Hq | intros ? Hq; exact Hq |].
      { intros s' [-> Hs']. split; [|exact Hs']. rewrite Hs'.
        now rewrite lookup_insert_eq. }
      apply hoare_pure. intros ->.
      eapply hoare_bind; [apply (hoare_call_ret _ _ _ _ Hr)|]. intros response.
      apply hoare_pure. intros ->.
      cbv zeta. apply remember_turn_step.
      apply (hoare_frames (fun H => H = HF)). frame.
    - intros e. apply (hoare_frames (fun H => H = HF)). frame.
    - auto. }
  specialize (T s eq_refl). unfold state_of.
  destruct (handle_text_message W chat_id text s) as [[a|e] s']; exact T.
Qed.

Lemma hoare_false {A} (m : M state A) Q R : hoare (fun _ => False) m Q R.
Proof. intros s []. Qed.

Lemma hoare_call_raise {A} (P : state -> Prop) Q (r : outcome A) e :
  r = Raise e -> hoare P (call r) Q P.
Proof. intros -> s Hs. exact Hs. Qed.

Lemma hoare_tg W r (P : state -> Prop) R :
  client_returns W ->
  (forall s f, P s -> P (with_sent f s)) ->
  hoare P (tg W r) (fun i s => telegram W r = Ret i /\ P s) R.
Proof.
  intros HW HP s Hs. unfold tg. destruct (HW r) as [i Hi]. rewrite Hi.
  split; [reflexivity | now apply HP].
Qed.

Lemma ensure_history_stores chat_id H0 D0 P0 R :
  hoare (fun s => stores s = (H0, D0, P0))
        (let* known := has_history chat_id in
         if negb known then set_history chat_id [] else ret tt)
        (fun _ s => stores s = (<[chat_id := default [] (H0 !! chat_id)]> H0, D0, P0))
        R.
Proof.
  intros s Hs. unfold stores in *. injection Hs as Hh Hd Hp.
  unfold bind, has_history, read, set_history, update_state, ret.
  rewrite Hh. destruct (H0 !! chat_id) as [h|] eqn:E; cbn.
  - rewrite Hh, Hd, Hp. do 2 f_equal. symmetry. now apply insert_id.
  - now rewrite Hh, Hd, Hp.
Qed.

Lemma remember_turn_stores chat_id H0 D0 P0 h0 more (k : M state unit) Q R :
  hoare (fun s => stores s = (<[chat_id := last_n 20 (h0 ++ more)]> H0, D0, P0)) k Q R ->
  hoare (fun s => stores s = (<[chat_id := h0]> H0, D0, P0))
        (extend_history chat_id more ;;
         let* current_chat_history := get_history chat_id in
         set_history chat_id (last_n 20 current_chat_history) ;;
         k)
        Q R.
Proof.
  intros Hk s Hs. unfold stores in Hs. injection Hs as Hh Hd Hp.
  unfold bind at 1. unfold extend_history, update_state at 1.
  unfold bind at 1. unfold get_history, read.
  unfold bind at 1. unfold set_history, update_state.
  apply Hk. unfold stores. cbn. rewrite Hh, Hd, Hp.
  rewrite lookup_alter_eq, lookup_insert_eq. cbn.
  now rewrite insert_alter_eq, insert_insert_eq.
Qed.

Lemma stores_with_log s f : stores (with_log f s) = stores s.
Proof. reflexivity. Qed.

Lemma stores_with_sent s f : stores (with_sent f s) = stores s.
Proof. reflexivity. Qed.

(** X10: once the opening reply is sent and the chain has answered, the
    history of the chat is the last twenty of what it held followed by the
    user's own text (not the preprocessed query) and the answer; the other
    chats keep theirs, and nothing that fails afterwards undoes it. *)
Theorem answered_turn_is_remembered W chat_id text s chain r pm :
  rag_chain W = Some chain ->
  telegram W processing_reply = Ret pm ->
  chain (preprocessed W text) (default [] (user_chat_histories s !! chat_id)) = Ret r ->
  user_chat_histories (state_of (handle_text_message W chat_id text s))
  = <[chat_id := last_n 20 (default [] (user_chat_histories s !! chat_id)
                            ++ [HumanMessage text; AIMessage (answer_of r)])]>
      (user_chat_histories s).
Proof. apply answered_turn_history. Qed.

(** X11: when the chain raises, whatever it raises, the turn leaves the
    history of the chat as it was (an empty one is made for a chat that had
    none), and writes nothing into the interaction table or the pool. *)
Theorem failed_turn_leaves_stores W chat_id text s chain e pm :
  rag_chain W = Some chain ->
  telegram W processing_reply = Ret pm ->
  chain (preprocessed W text) (default [] (user_chat_histories s !! chat_id)) = Raise e ->
  stores (state_of (handle_text_message W chat_id text s))
  = (<[chat_id := default [] (user_chat_histories s !! chat_id)]> (user_chat_histories s),
     chat_data s, ragas_data_pool s).
Proof.
  intros Hchain Hpm He.
  set (H0 := user_chat_histories s). fold H0 in He.
  set (h0 := default [] (H0 !! chat_id)) in *.
  set (X := (<[chat_id := h0]> H0, chat_data s, ragas_data_pool s)).
  assert (T : hoare (fun s' => stores s' = (H0, chat_data s, ragas_data_pool s))
                    (handle_text_message W chat_id text)
                    (fun _ s' => stores s' = X) (fun s' => stores s' = X)).
  { unfold handle_text_message. rewrite Hchain. cbv zeta.
    eapply hoare_bind; [apply ensure_history_stores|]. intros ?. fold h0. fold X.
    eapply hoare_bind.
    { apply (hoare_keeps (fun st => st = X)). apply keeps_tg. }
    intros processing_msg. cbv beta.
    eapply hoare_bind.
    { apply (preprocess_step W text _ (fun s' => stores s' = X)).
      intros s' f Hs'. exact Hs'. }
    intros pq. apply hoare_pure. intros ->.
    apply hoare_try with (R' := fun s' => stores s' = X).
    - eapply hoare_bind; [apply hoare_read|]. intros history. cbv beta.
      eapply hoare_conseq with
        (P' := fun s' => history = h0 /\ stores s' = X);
        [| intros ? ? Hq; exact Hq | intros ? Hq; exact Hq |].
      { intros s' [-> Hs']. split; [|exact Hs'].
        unfold stores, X in Hs'. injection Hs' as -> _ _.
        now rewrite lookup_insert_eq. }
      apply hoare_pure. intros ->.
      eapply hoare_bind; [apply (hoare_call_raise _ (fun _ _ => False) _ _ He)|].
      intros response. apply hoare_false.
    - intros e'. apply (hoare_keeps (fun st => st = X)). keep_stores.
    - auto. }
  specialize (T s eq_refl). unfold state_of.
  destruct (handle_text_message W chat_id text s) as [[a|e'] s']; exact T.
Qed.

Lemma alter_on_present {K} `{Countable K} {V} (f : V -> V) (m : gmap K V) i x :
  m !! i = Some x -> alter f i m = <[i := f x]> m.
Proof.
  intros E. rewrite <- (insert_id m i x E) at 1. apply alter_insert_eq.
Qed.

Lemma answered_turn_stores W chat_id text s chain r :
  client_returns W ->
  rag_chain W = Some chain ->
  chain (preprocessed W text) (default [] (user_chat_histories s !! chat_id)) = Ret r ->
  exists sent_as,
    telegram W (reply_text (answer_of r) None) = Ret sent_as
    /\ result_of (handle_text_message W chat_id text s) = Ret tt
    /\ stores (state_of (handle_text_message W chat_id text s))
       = (<[chat_id := last_n 20 (default [] (user_chat_histories s !! chat_id)
                                  ++ [HumanMessage text; AIMessage (answer_of r)])]>
            (user_chat_histories s),
          <[chat_id := <[uuid4 W := recorded_interaction W text r sent_as]>
                         (default ∅ (chat_data s !! chat_id))]> (chat_data s),
          ragas_data_pool s ++ [pooled_record W chat_id text r]).
Proof.
  intros HW Hchain Hr.
  set (H0 := user_chat_histories s). fold H0 in Hr.
  set (D0 := chat_data s). set (P0 := ragas_data_pool s).
  set (h0 := default [] (H0 !! chat_id)) in *.
  set (HF := <[chat_id := last_n 20 (h0 ++ [HumanMessage text; AIMessage (answer_of r)])]> H0).
  set (DF := fun sent_as =>
         <[chat_id := <[uuid4 W := recorded_interaction W text r sent_as]>
                        (default ∅ (D0 !! chat_id))]> D0).
  set (final := fun s' => exists sent_as,
         telegram W (reply_text (answer_of r) None) = Ret sent_as
         /\ stores s' = (HF, DF sent_as, P0 ++ [pooled_record W chat_id text r])).
  assert (T : hoare (fun s' => stores s' = (H0, D0, P0))
                    (handle_text_message W chat_id text)
                    (fun _ => final) (fun _ => False)).
  { unfold handle_text_message. rewrite Hchain. cbv zeta.
    eapply hoare_bind; [apply ensure_history_stores|]. intros ?. fold h0.
    eapply hoare_bind.
    { apply (hoare_keeps_returns (fun st => st = (<[chat_id := h0]> H0, D0, P0)));
        [apply keeps_tg | now apply returns_tg]. }
    intros processing_msg. cbv beta.
    eapply hoare_bind.
    { apply (preprocess_step W text _
               (fun s' => stores s' = (<[chat_id := h0]> H0, D0, P0))).
      intros s' f Hs'. exact Hs'. }
    intros pq. apply hoare_pure. intros ->.
    apply hoare_try with (R' := fun _ => False);
      [|intros e; apply hoare_false | auto].
    eapply hoare_bind; [apply hoare_read|]. intros history. cbv beta.
    eapply hoare_conseq with
      (P' := fun s' => history = h0 /\ stores s' = (<[chat_id := h0]> H0, D0, P0));
      [| intros ? ? Hq; exact Hq | intros ? Hq; exact Hq |].
    { intros s' [-> Hs']. split; [|exact Hs'].
      unfold stores in Hs'. injection Hs' as -> _ _. now rewrite lookup_insert_eq. }
    apply hoare_pure. intros ->.
    eapply hoare_bind; [apply (hoare_call_ret _ _ _ _ Hr)|]. intros response.
    apply hoare_pure. intros ->.
    cbv zeta. apply remember_turn_stores. fold HF.
    eapply hoare_bind.
    { apply (hoare_keeps_returns (fun st => st = (HF, D0, P0)));
        [apply keeps_tg | now apply returns_tg]. }
    intros ?. cbv beta.
    eapply hoare_bind.
    { apply (hoare_tg W _ (fun s' => stores s' = (HF, D0, P0))); [exact HW|].
      intros s' f Hs'. exact Hs'. }
    intros sent_as. apply hoare_pure. intros Hsent.
    eapply hoare_bind.
    { apply hoare_update with
        (Q := fun s' => stores s' = (HF, <[chat_id := default ∅ (D0 !! chat_id)]> D0, P0)).
      intros s' Hs'. unfold stores in *. injection Hs' as Hh Hd Hp. cbn.
      rewrite Hh, Hd, Hp. do 2 f_equal.
      destruct (D0 !! chat_id) as [t|] eqn:E; cbn; [|reflexivity].
      symmetry. now apply insert_id. }
    intros ?. cbv beta.
    eapply hoare_bind.
    { apply hoare_update with (Q := fun s' => stores s' = (HF, DF sent_as, P0)).
      intros s' Hs'. unfold stores in *. injection Hs' as Hh Hd Hp. cbn.
      rewrite Hh, Hd, Hp. do 2 f_equal. unfold DF. apply alter_insert_eq. }
    intros ?. cbv beta.
    eapply hoare_bind.
    { apply (hoare_keeps_returns (fun st => st = (HF, DF sent_as, P0))).
      - keep_stores.
      - match goal with |- returns (if ?b then _ else _) => destruct b end.
        + apply returns_bind; [now apply returns_tg | intros ?; apply returns_ret].
        + apply returns_ret. }
    intros ?. cbv beta.
    apply hoare_update. intros s' Hs'. exists sent_as. split; [exact Hsent|].
    unfold stores in *. injection Hs' as Hh Hd Hp. cbn. now rewrite Hh, Hd, Hp. }
  specialize (T s eq_refl). unfold state_of, result_of.
  destruct (handle_text_message W chat_id text s) as [[[]|e] s']; [|destruct T].
  destruct T as [sent_as [Hsent Hst]]. exists sent_as. repeat split; assumption.
Qed.

(** X12: when every call into the client returns and the chain answers,
    the turn returns, remembers the two messages, writes under the fresh
    id one entry into the interaction table of the chat (the other entries
    stay), with the feedback unset and the id of the message that carries
    the answer, and appends one record to the pool. *)
Theorem answered_turn_is_recorded W chat_id text s chain r :
  client_returns W ->
  rag_chain W = Some chain ->
  chain (preprocessed W text) (default [] (user_chat_histories s !! chat_id)) = Ret r ->
  exists sent_as,
    telegram W (reply_text (answer_of r) None) = Ret sent_as
    /\ result_of (handle_text_message W chat_id text s) = Ret tt
    /\ stores (state_of (handle_text_message W chat_id text s))
       = (<[chat_id := last_n 20 (default [] (user_chat_histories s !! chat_id)
                                  ++ [HumanMessage text; AIMessage (answer_of r)])]>
            (user_chat_histories s),
          <[chat_id := <[uuid4 W := recorded_interaction W text r sent_as]>
                         (default ∅ (chat_data s !! chat_id))]> (chat_data s),
          ragas_data_pool s ++ [pooled_record W chat_id text r]).
Proof. apply answered_turn_stores. Qed.

Lemma answered_turn_is_recorded_witness :
  exists sent_as,
    telegram answering_world
             (reply_text (answer_of {| resp_answer := Some (u "See the study plan.");
                                       resp_context := Some [] |}) None) = Ret sent_as
    /\ result_of (handle_text_message answering_world 7 (u "course?") initial) = Ret tt
    /\ stores (state_of (handle_text_message answering_world 7 (u "course?") initial))
       = (<[7%Z := last_n 20 (default [] (user_chat_histories initial !! 7%Z)
                    ++ [HumanMessage (u "course?");
                        AIMessage (answer_of {| resp_answer := Some (u "See the study plan.");
                                                resp_context := Some [] |})])]>
            (user_chat_histories initial),
          <[7%Z := <[uuid4 answering_world :=
                      recorded_interaction answering_world (u "course?")
                        {| resp_answer := Some (u "See the study plan.");
                           resp_context := Some [] |} sent_as]>
                     (default ∅ (chat_data initial !! 7%Z))]> (chat_data initial),
          ragas_data_pool initial
          ++ [pooled_record answering_world 7 (u "course?")
                {| resp_answer := Some (u "See the study plan.");
                   resp_context := Some [] |}]).
Proof.
  apply (answered_turn_is_recorded answering_world 7 (u "course?") initial
           (fun _ _ => Ret {| resp_answer := Some (u "See the study plan.");
                              resp_context := Some [] |})).
  - intros r. now exists 1%Z.
  - reflexivity.
  - reflexivity.
Defined.

Lemma answered_turn_is_remembered_witness :
  user_chat_histories (state_of (handle_text_message answering_world 7 (u "course?") initial))
  = <[7%Z := last_n 20 (default [] (user_chat_histories initial !! 7%Z)
                ++ [HumanMessage (u "course?");
                    AIMessage (answer_of {| resp_answer := Some (u "See the study plan.");
                                            resp_context := Some [] |})])]>
      (user_chat_histories initial).
Proof.
  apply (answered_turn_is_remembered answering_world 7 (u "course?") initial
           (fun _ _ => Ret {| resp_answer := Some (u "See the study plan.");
                              resp_context := Some [] |}) _ 1%Z);
    reflexivity.
Defined.

Lemma failed_turn_leaves_stores_witness :
  stores (state_of (handle_text_message failing_world 7 (u "course?") initial))
  = (<[7%Z := default [] (user_chat_histories initial !! 7%Z)]> (user_chat_histories initial),
     chat_data initial, ragas_data_pool initial).
Proof.
  apply (failed_turn_leaves_stores failing_world 7 (u "course?") initial
           (fun _ _ => Raise {| cls := RuntimeError; msg := u "timeout" |})
           {| cls := RuntimeError; msg := u "timeout" |} 1%Z);
    reflexivity.
Defined.

(** ** The window over a run of answered turns *)

Lemma skipn_past_prefix {A} (a b : list A) (k : nat) :
  skipn (length a + k) (a ++ b) = skipn k b.
Proof. induction a as [|y a IH]; [reflexivity | exact IH]. Qed.

Lemma last_n_app_last_n {A} (n : nat) (l x : list A) :
  last_n n (last_n n l ++ x) = last_n n (l ++ x).
Proof.
  unfold last_n. rewrite !length_app, length_skipn.
  destruct (Nat.le_gt_cases (length l) n) as [Hle | Hgt].
  - replace (length l - n)%nat with 0%nat by lia. cbn [skipn].
    now rewrite Nat.sub_0_r.
  - set (k := (length l - n)%nat). set (hd := firstn k l). set (tl := skipn k l).
    assert (El : l = hd ++ tl) by (symmetry; apply firstn_skipn).
    assert (Lh : length hd = k) by (unfold hd; rewrite length_firstn; lia).
    transitivity (skipn (length hd + (length l - k + length x - n)) ((hd ++ tl) ++ x)).
    + now rewrite <- app_assoc, skipn_past_prefix.
    + rewrite <- El. f_equal. lia.
Qed.

(** X13: after any turns of a chat that are answered one after the other,
    each with its own text, world and response, the history of the chat is
    the last twenty of what it held followed by the pairs of question and
    answer of the turns: the window fills, then slides. *)
Theorem window_after_turns chat_id turn turns (s : state) :
  answered (default [] (user_chat_histories s !! chat_id)) (turn :: turns) ->
  user_chat_histories (run (updates_of chat_id (turn :: turns)) s) !! chat_id
  = Some (last_n 20 (default [] (user_chat_histories s !! chat_id)
                     ++ messages_of (turn :: turns))).
Proof.
  revert turn s. induction turns as [|next rest IH]; intros [[W text] r] s H.
  - destruct H as [[chain [pm [Hchain [Hpm Hr]]]] _].
    change (run (updates_of chat_id [(W, text, r)]) s)
      with (state_of (handle_text_message W chat_id text s)).
    rewrite (answered_turn_history W chat_id text s chain r pm Hchain Hpm Hr).
    rewrite lookup_insert_eq. unfold messages_of. cbn [flat_map fst snd].
    now rewrite app_nil_r.
  - destruct H as [[chain [pm [Hchain [Hpm Hr]]]] Hrest].
    change (run (updates_of chat_id ((W, text, r) :: next :: rest)) s)
      with (run (updates_of chat_id (next :: rest))
                (state_of (handle_text_message W chat_id text s))).
    pose proof (answered_turn_history W chat_id text s chain r pm Hchain Hpm Hr) as E.
    rewrite IH; rewrite E, lookup_insert_eq; cbn [default id]; [|exact Hrest].
    rewrite last_n_app_last_n, <- app_assoc. reflexivity.
Qed.

Lemma window_after_turns_witness :
  user_chat_histories (run (updates_of 7 twelve_turns) initial) !! 7%Z
  = Some (last_n 20 (default [] (user_chat_histories initial !! 7%Z)
                     ++ messages_of twelve_turns)).
Proof.
  apply (window_after_turns 7 (hd (counting_world, [], {| resp_answer := None;
                                                          resp_context := None |})
                                  twelve_turns)
           (tl twelve_turns) initial).
  vm_compute. repeat split; eexists; eexists; repeat split; reflexivity.
Defined.

(** ** The feedback buttons *)

Lemma hoare_keeps_returns_any {A} (phi : _ -> Prop) (m : M state A) R :
  keeps_stores m -> returns m ->
  hoare (fun s => phi (stores s)) m (fun _ s => phi (stores s)) R.
Proof.
  intros Hm Hr. eapply hoare_conseq; [| | |apply (hoare_keeps_returns phi m Hm Hr)];
    auto. intros s [].
Qed.

(** The step that reads the payload, when it has its three parts. *)
Lemma read_payload_step W query a sentiment interaction_id (P : state -> Prop) R :
  str_split_on underscore (data query) = [a; sentiment; interaction_id] ->
  hoare P
    (try_except
       (let* p := call (unpack3 (str_split_on underscore (data query))) in
        ret (Some p))
       [ (ValueError, fun _ =>
            logger WARNING (u "Malformed feedback callback data: " ++ data query) ;;
            tg W (query_edit_message_text (u "Error: Could not process feedback.") None) ;;
            ret None) ])
    (fun parts s => parts = Some (a, sentiment, interaction_id) /\ P s)
    R.
Proof.
  intros Hsplit s Hs. unfold try_except, bind, call, ret. rewrite Hsplit.
  cbn [unpack3]. now split.
Qed.

Lemma feedback_known_stores W chat_id query s i1 a sentiment interaction_id table i :
  telegram W query_answer = Ret i1 ->
  str_split_on underscore (data query) = [a; sentiment; interaction_id] ->
  chat_data s !! chat_id = Some table ->
  table !! interaction_id = Some i ->
  stores (state_of (feedback_callback W chat_id query s))
  = (user_chat_histories s,
     <[chat_id := <[interaction_id := set_feedback sentiment i]> table]> (chat_data s),
     mark_first interaction_id sentiment (ragas_data_pool s)).
Proof.
  intros H1 Hsplit Htable Hi.
  set (X0 := stores s).
  set (XF := (user_chat_histories s,
              <[chat_id := <[interaction_id := set_feedback sentiment i]> table]> (chat_data s),
              mark_first interaction_id sentiment (ragas_data_pool s))).
  assert (T : hoare (fun s' => stores s' = X0) (feedback_callback W chat_id query)
                    (fun _ s' => stores s' = XF) (fun s' => stores s' = XF)).
  { unfold feedback_callback.
    eapply hoare_bind.
    { apply (hoare_keeps_returns_any (fun st => st = X0));
        [apply keeps_tg | exact (returns_tg_ret _ _ _ H1)]. }
    intros ?. cbv beta.
    eapply hoare_bind; [apply (read_payload_step W query _ _ _ _ _ Hsplit)|].
    intros parts. apply hoare_pure. intros ->. cbv beta iota.
    eapply hoare_bind with (Q1 := fun _ s' => stores s' = XF).
    { intros s' Hs'. unfold X0, stores in Hs'. injection Hs' as Hh Hd Hp.
      unfold bind, read, update_state, ret. rewrite Hd, Htable, Hi.
      rewrite bool_decide_true by eauto.
      unfold stores, XF. cbn. rewrite Hh, Hd, Hp. do 2 f_equal.
      rewrite (alter_on_present _ _ _ _ Htable). f_equal.
      now apply alter_on_present. }
    intros recorded. cbv zeta.
    apply (hoare_keeps (fun st => st = XF)). keep_stores. }
  specialize (T s eq_refl). unfold state_of.
  destruct (feedback_callback W chat_id query s) as [[u0|e] s']; exact T.
Qed.

(** X14: a press whose payload names an interaction of the chat writes
    the sentiment of the payload into that interaction and into the first
    record of the pool with that id; the rest of the interaction, the other
    interactions, the other chats and the histories stay; and it is so
    whatever the client does with the confirmation. *)
Theorem feedback_is_recorded W chat_id query s i1 a sentiment interaction_id table i :
  telegram W query_answer = Ret i1 ->
  str_split_on underscore (data query) = [a; sentiment; interaction_id] ->
  chat_data s !! chat_id = Some table ->
  table !! interaction_id = Some i ->
  stores (state_of (feedback_callback W chat_id query s))
  = (user_chat_histories s,
     <[chat_id := <[interaction_id := set_feedback sentiment i]> table]> (chat_data s),
     mark_first interaction_id sentiment (ragas_data_pool s)).
Proof. apply feedback_known_stores. Qed.

(** X15: a press whose payload names no interaction of the chat changes
    no store, and, when the client returns, the message is edited to say
    that the feedback could not be recorded. *)
Theorem feedback_for_unknown_interaction W chat_id query s a sentiment interaction_id :
  client_returns W ->
  str_split_on underscore (data query) = [a; sentiment; interaction_id] ->
  chat_data s !! chat_id ≫= (fun table => table !! interaction_id) = None ->
  stores (state_of (feedback_callback W chat_id query s)) = stores s
  /\ exists markup,
       sent (state_of (feedback_callback W chat_id query s))
       = sent s
         ++ [ query_answer;
              query_edit_message_text
                (message_text query
                 ++ u "\n\n_" ++ u "Sorry, couldn't record feedback for this message."
                 ++ u "_")
                markup ].
Proof.
  intros HW Hsplit Hnone.
  unfold feedback_callback, bind, tg, try_except, call, ret, read, update_state, state_of.
  destruct (HW query_answer) as [i1 H1]. rewrite H1. rewrite Hsplit.
  cbn [unpack3 fst snd with_sent chat_data].
  assert (Hknown :
    match chat_data s !! chat_id with
    | Some interactions => bool_decide (is_Some (interactions !! interaction_id))
    | None => false
    end = false).
  { destruct (chat_data s !! chat_id) as [table|]; [|reflexivity].
    cbn in Hnone. rewrite Hnone. apply bool_decide_false. now intros [x Hx]. }
  rewrite Hknown. cbn [negb].
  match goal with
  | |- context [telegram W ?r] => destruct (HW r) as [i2 H2]; rewrite H2
  end.
  cbn [fst snd]. split; [reflexivity|].
  eexists. cbn [sent with_sent]. rewrite <- app_assoc. reflexivity.
Qed.

Lemma feedback_is_recorded_witness :
  stores (state_of (feedback_callback quiet_world 7 thumbs_up one_answer))
  = (user_chat_histories one_answer,
     <[7%Z := <[u "0b5a" := set_feedback (u "positive") an_interaction]>
                {[u "0b5a" := an_interaction]}]> (chat_data one_answer),
     mark_first (u "0b5a") (u "positive") (ragas_data_pool one_answer)).
Proof.
  apply (feedback_is_recorded quiet_world 7 thumbs_up one_answer 1%Z (u "feedback"));
    reflexivity.
Defined.

Lemma feedback_for_unknown_interaction_witness :
  stores (state_of (feedback_callback quiet_world 7 thumbs_up initial)) = stores initial
  /\ exists markup,
       sent (state_of (feedback_callback quiet_world 7 thumbs_up initial))
       = sent initial
         ++ [ query_answer;
              query_edit_message_text
                (message_text thumbs_up
                 ++ u "\n\n_" ++ u "Sorry, couldn't record feedback for this message."
                 ++ u "_")
                markup ].
Proof.
  apply (feedback_for_unknown_interaction quiet_world 7 thumbs_up initial
           (u "feedback") (u "positive") (u "0b5a")).
  - intros r. now exists 1%Z.
  - reflexivity.
  - reflexivity.
Defined.

Lemma keeps_button_not_feedback btn :
  keeps_button btn = true ->
  exists d, callback_data btn = Some d /\ is_prefix (u "feedback_") d = false.
Proof.
  unfold keeps_button. destruct (callback_data btn) as [d|]; [|discriminate].
  intros H. exists d. split; [reflexivity|].
  apply andb_prop in H as [Hne H]. destruct d as [|c d']; [discriminate|].
  apply orb_prop in H as [H | H].
  - change (u "sources_") with (115 :: u "ources_") in H.
    change (u "feedback_") with (102 :: u "eedback_").
    cbn [is_prefix] in *. apply andb_prop in H as [Hc _].
    apply N.eqb_eq in Hc. subst c. reflexivity.
  - apply str_eqb_eq in H. rewrite H. reflexivity.
Qed.

Lemma kept_rows_are_clean (kb : keyboard) row :
  In row (List.filter nonempty (map (List.filter keeps_button) kb)) ->
  row <> [] /\ forall btn, In btn row -> keeps_button btn = true.
Proof.
  intros H. apply List.filter_In in H as [Hin Hne].
  split; [now destruct row|].
  apply in_map_iff in Hin as [row0 [<- _]].
  intros btn Hb. now apply List.filter_In in Hb.
Qed.

(** X16: after a press with a payload in three parts, when the client
    returns, the message is edited once and the keyboard it is left with
    has no empty row and no feedback button: every button that stays is a
    sources button or the help button. *)
Theorem feedback_removes_feedback_buttons W chat_id query s a sentiment interaction_id :
  client_returns W ->
  str_split_on underscore (data query) = [a; sentiment; interaction_id] ->
  exists text markup,
    sent (state_of (feedback_callback W chat_id query s))
    = sent s ++ [query_answer; query_edit_message_text text markup]
    /\ forall kb, markup = Some kb ->
         kb <> []
         /\ forall row, In row kb ->
              row <> []
              /\ forall btn, In btn row ->
                   exists d, callback_data btn = Some d
                             /\ is_prefix (u "feedback_") d = false.
Proof.
  intros HW Hsplit.
  unfold feedback_callback, bind, tg, try_except, call, ret, read, update_state, state_of.
  destruct (HW query_answer) as [i1 H1]. rewrite H1. rewrite Hsplit.
  cbn [unpack3 fst snd with_sent chat_data].
  destruct (chat_data s !! chat_id) as [table|];
    [destruct (bool_decide (is_Some (table !! interaction_id)))|];
    (match goal with
     | |- context [telegram W ?r] => destruct (HW r) as [i2 H2]; rewrite H2
     end;
     cbn [fst snd sent with_sent with_chat_data with_pool];
     do 2 eexists; split; [rewrite <- app_assoc; reflexivity|];
     intros kb Hkb;
     destruct (List.filter nonempty
                 (map (List.filter keeps_button) (default [] (message_reply_markup query))))
       as [|row0 rows] eqn:E; cbn [nonempty] in Hkb; [discriminate|];
     injection Hkb as <-; split; [discriminate|];
     intros row Hrow; rewrite <- E in Hrow;
     apply kept_rows_are_clean in Hrow as [Hne Hall];
     split; [exact Hne|];
     intros btn Hb; apply keeps_button_not_feedback; now apply Hall).
Qed.

Lemma feedback_removes_feedback_buttons_witness :
  exists text markup,
    sent (state_of (feedback_callback quiet_world 7 thumbs_up one_answer))
    = sent one_answer ++ [query_answer; query_edit_message_text text markup]
    /\ forall kb, markup = Some kb ->
         kb <> []
         /\ forall row, In row kb ->
              row <> []
              /\ forall btn, In btn row ->
                   exists d, callback_data btn = Some d
                             /\ is_prefix (u "feedback_") d = false.
Proof.
  apply (feedback_removes_feedback_buttons quiet_world 7 thumbs_up one_answer
           (u "feedback") (u "positive") (u "0b5a")).
  - intros r. now exists 1%Z.
  - reflexivity.
Defined.

(** ** From the buttons of an answer to the recorded feedback *)










(** ** [start_command] *)

Lemma start_command_stores W chat_id s :
  stores (state_of (start_command W chat_id s))
  = (<[chat_id := []]> (user_chat_histories s),
     alter (fun _ => ∅) chat_id (chat_data s),
     ragas_data_pool s).
Proof.
  unfold start_command, bind, set_history, update_state, tg, ret, state_of.
  cbn [fst snd]. now destruct (telegram W _).
Qed.

Lemma start_command_forgets W chat_id s interaction_id :
  chat_data (state_of (start_command W chat_id s)) !! chat_id
    ≫= (fun table => table !! interaction_id) = None.
Proof.
  pose proof (start_command_stores W chat_id s) as E.
  unfold stores in E. injection E as _ -> _.
  rewrite lookup_alter_eq. now destruct (chat_data s !! chat_id).
Qed.

(** X19: after /start, whatever the client does with the greeting, the
    history of the chat is empty and its interaction table, if it has one,
    is empty too, so that no earlier answer can receive feedback; the other
    chats and the pool stay as they were. *)
Theorem start_resets_the_chat W chat_id s :
  stores (state_of (start_command W chat_id s))
  = (<[chat_id := []]> (user_chat_histories s),
     alter (fun _ => ∅) chat_id (chat_data s),
     ragas_data_pool s)
  /\ forall interaction_id,
       chat_data (state_of (start_command W chat_id s)) !! chat_id
         ≫= (fun table => table !! interaction_id) = None.
Proof.
  split; [apply start_command_stores | intros i; apply start_command_forgets].
Qed.

(** ** [sources_callback] *)

Lemma keeps_stores_for_each {A B} (l : list A) (body : A -> B -> M state B) acc :
  (forall x a, keeps_stores (body x a)) -> keeps_stores (for_each l body acc).
Proof.
  intros Hb. revert acc. induction l as [|x r IH]; intros acc; cbn [for_each].
  - apply keeps_ret.
  - apply keeps_bind; [apply Hb | intros ?; apply IH].
Qed.

Lemma keeps_stores_presign E key n : keeps_stores (generate_s3_presigned_url E key n).
Proof.
  unfold generate_s3_presigned_url.
  destruct (s3_client E) as [client|], (S3_BUCKET E) as [[|b ucket]|]; keep_stores.
Qed.

Lemma keeps_stores_add_source E doc info : keeps_stores (add_source E doc info).
Proof.
  unfold add_source.
  destruct (nonempty (metadata doc)); [|apply keeps_ret].
  cbv zeta.
  destruct (match assoc (u "source_file_key") (metadata doc) with
            | Some k => Some k
            | None => assoc (u "source") (metadata doc)
            end) as [key|]; [|apply keeps_ret].
  destruct (nonempty key && negb (has_key key info)); [|apply keeps_ret].
  apply keeps_bind; [apply keeps_stores_presign | intros url; apply keeps_ret].
Qed.

(** X20: the two handlers that only show something, [sources_callback] and
    [show_help_callback], change no store: histories, interaction tables
    and pool are after them as before, whatever the payload, the client
    and the S3 do. *)
Theorem showing_changes_no_store W E help chat_id query s :
  stores (state_of (sources_callback W E chat_id query s)) = stores s
  /\ stores (state_of (show_help_callback W help query s)) = stores s.
Proof.
  split.
  - assert (K : keeps_stores (sources_callback W E chat_id query)); [|apply K].
    unfold sources_callback.
    apply keeps_bind; [apply keeps_tg|]. intros ?.
    apply keeps_bind; [keep_stores|]. intros [[prefix interaction_id]|]; [|apply keeps_ret].
    apply keeps_bind; [apply keeps_read|]. intros [idata|]; [|keep_stores].
    destruct (nonempty (contexts_docs idata)); [|keep_stores].
    cbv zeta.
    apply keeps_bind.
    + apply keeps_stores_for_each. intros doc info. apply keeps_stores_add_source.
    + intros info. keep_stores.
  - assert (K : keeps_stores (show_help_callback W help query)); [|apply K].
    unfold show_help_callback. keep_stores.
Qed.





(** *** Steps that keep a part of the state *)

Lemma keeps_gen_ret {A X} (f : state -> X) (a : A) : keeps f (ret a).
Proof. intros s. reflexivity. Qed.

Lemma keeps_gen_call {A X} (f : state -> X) (r : outcome A) : keeps f (call r).
Proof. intros s. reflexivity. Qed.

Lemma keeps_gen_read {A X} (f : state -> X) (g : state -> A) : keeps f (read g).
Proof. intros s. reflexivity. Qed.

Lemma keeps_sent_logger l m : keeps sent (logger l m).
Proof. intros s. reflexivity. Qed.

Lemma keeps_gen_bind {A B X} (f : state -> X) (m : M state A) (k : A -> M state B) :
  keeps f m -> (forall a, keeps f (k a)) -> keeps f (bind m k).
Proof.
  intros Hm Hk s. unfold bind, state_of. specialize (Hm s). unfold state_of in Hm.
  destruct (m s) as [[a|e] s']; cbn [snd] in *; [|exact Hm].
  rewrite <- Hm. apply Hk.
Qed.

Lemma keeps_gen_try {A X} (f : state -> X) (m : M state A) h (k : exn -> M state A) :
  keeps f m -> (forall e, keeps f (k e)) -> keeps f (try_except m [(h, k)]).
Proof.
  intros Hm Hk s. unfold try_except, state_of. specialize (Hm s).
  unfold state_of in Hm.
  destruct (m s) as [[a|e] s']; cbn [snd dispatch] in *; [exact Hm|].
  destruct (caught_by h e); [rewrite <- Hm; apply Hk | exact Hm].
Qed.

Lemma keeps_gen_for_each {A B X} (f : state -> X) (l : list A)
    (body : A -> B -> M state B) acc :
  (forall x b, keeps f (body x b)) -> keeps f (for_each l body acc).
Proof.
  intros Hb. revert acc. induction l as [|x r IH]; intros acc; cbn [for_each].
  - apply keeps_gen_ret.
  - apply keeps_gen_bind; [apply Hb | intros ?; apply IH].
Qed.

Lemma keeps_sent_presign E key n : keeps sent (generate_s3_presigned_url E key n).
Proof.
  unfold generate_s3_presigned_url.
  destruct (s3_client E) as [client|], (S3_BUCKET E) as [[|b ucket]|];
    repeat first [ apply keeps_gen_bind; [|intros ?]
                 | apply keeps_gen_try; [|intros ?]
                 | apply keeps_gen_ret | apply keeps_gen_call | apply keeps_sent_logger ].
Qed.

Lemma keeps_sent_add_source E doc info : keeps sent (add_source E doc info).
Proof.
  unfold add_source.
  destruct (nonempty (metadata doc)); [|apply keeps_gen_ret].
  cbv zeta.
  destruct (match assoc (u "source_file_key") (metadata doc) with
            | Some k => Some k
            | None => assoc (u "source") (metadata doc)
            end) as [key|]; [|apply keeps_gen_ret].
  destruct (nonempty key && negb (has_key key info)); [|apply keeps_gen_ret].
  apply keeps_gen_bind; [apply keeps_sent_presign | intros url; apply keeps_gen_ret].
Qed.

Lemma triple_keeps_sent {A} before n (m : M state A) :
  keeps sent m ->
  triple (texts_within before n) m (texts_within before n) (texts_within before n).
Proof.
  intros Hm s Hs. specialize (Hm s). unfold state_of in Hm.
  destruct (m s) as [[a|e] s']; cbn [snd] in Hm; unfold texts_within; now rewrite Hm.
Qed.

Lemma triple_tg_text W r before n :
  (length (request_text r) <= n)%nat ->
  triple (texts_within before n) (tg W r) (texts_within before n) (texts_within before n).
Proof.
  intros Hr s Hs. unfold tg. destruct (telegram W r) as [i|e]; [|exact Hs].
  intros r' Hin. cbn in Hin. apply in_app_or in Hin as [Hin | [<- | []]];
    [now apply Hs | now right].
Qed.

Lemma cut_to_limit_length t : (length (cut_to_limit t) <= 4111)%nat.
Proof.
  unfold cut_to_limit. destruct (4096 <? length t)%nat eqn:E.
  - rewrite length_app, length_firstn.
    change (length (u "\n...(list truncated)")) with 21%nat. lia.
  - apply Nat.ltb_ge in E. lia.
Qed.

(** X22: no text that [sources_callback] sends has more than 4111
    characters, whatever the documents and their titles; and a list over
    4096 characters is sent as a text of 4111 exactly (the first 4090 and
    the mark of the cut). *)
Theorem sources_text_is_bounded W E chat_id query s :
  (forall r, In r (sent (state_of (sources_callback W E chat_id query s))) ->
             In r (sent s) \/ (length (request_text r) <= 4111)%nat)
  /\ (forall t, (4096 < length t)%nat -> length (cut_to_limit t) = 4111%nat).
Proof.
  split.
  - assert (T : triple (texts_within (sent s) 4111) (sources_callback W E chat_id query)
                       (texts_within (sent s) 4111) (texts_within (sent s) 4111)).
    { unfold sources_callback.
      eapply triple_bind; [apply triple_tg_text; cbn; lia|]. intros ?.
      eapply triple_bind.
      { apply triple_try with (R' := texts_within (sent s) 4111); [| |auto].
        - apply triple_keeps_sent.
          apply keeps_gen_bind; [apply keeps_gen_call | intros ?; apply keeps_gen_ret].
        - intros e. eapply triple_bind;
            [apply triple_keeps_sent, keeps_sent_logger|]. intros ?.
          eapply triple_bind; [apply triple_tg_text; vm_compute; lia|]. intros ?.
          apply triple_ret. }
      intros [[prefix interaction_id]|]; [|apply triple_ret].
      eapply triple_bind; [apply triple_read|]. intros [idata|].
      - destruct (nonempty (contexts_docs idata)).
        + cbv zeta. eapply triple_bind.
          { apply triple_keeps_sent, keeps_gen_for_each.
            intros doc info. apply keeps_sent_add_source. }
          intros info.
          apply triple_try with (R' := texts_within (sent s) 4111); [| |auto].
          * eapply triple_bind; [|intros ?; apply triple_ret].
            apply triple_tg_text. apply cut_to_limit_length.
          * intros e. eapply triple_bind;
              [apply triple_keeps_sent, keeps_sent_logger|]. intros ?.
            eapply triple_bind; [|intros ?; apply triple_ret].
            apply triple_tg_text. apply cut_to_limit_length.
        + eapply triple_bind; [apply triple_tg_text; vm_compute; lia|]. intros ?.
          apply triple_ret.
      - eapply triple_bind; [apply triple_tg_text; vm_compute; lia|]. intros ?.
        apply triple_ret. }
    assert (P0 : texts_within (sent s) 4111 s) by (intros r Hr; now left).
    specialize (T s P0). unfold state_of.
    destruct (sources_callback W E chat_id query s) as [[a|e] s']; exact T.
  - intros t Ht. unfold cut_to_limit.
    apply Nat.ltb_lt in Ht. rewrite Ht. apply Nat.ltb_lt in Ht.
    rewrite length_app, length_firstn.
    change (length (u "\n...(list truncated)")) with 21%nat. lia.
Qed.

Lemma sources_text_is_bounded_witness :
  length (cut_to_limit (repeat 65 5000)) = 4111%nat.
Proof.
  apply (proj2 (sources_text_is_bounded quiet_world signing_s3 7 sources_press initial)).
  rewrite repeat_length. lia.
Defined.

(** *** The dict of the listed sources *)

Lemma presign_returns E key n (s : state) :
  s3_raises_exceptions_only E ->
  exists url s', generate_s3_presigned_url E key n s = (Ret url, s').
Proof.
  intros HE. unfold generate_s3_presigned_url.
  destruct (s3_client E) as [client|] eqn:Ec; [|do 2 eexists; reflexivity].
  destruct (S3_BUCKET E) as [[|b ucket]|]; try (do 2 eexists; reflexivity).
  unfold try_except, bind, call, ret.
  destruct (client (b :: ucket) key n) as [url|e] eqn:Er; [do 2 eexists; reflexivity|].
  cbn [dispatch]. rewrite (HE client _ _ _ _ Ec Er).
  do 2 eexists. reflexivity.
Qed.

Lemma add_source_keys E doc info s :
  s3_raises_exceptions_only E ->
  exists info' s',
    add_source E doc info s = (Ret info', s')
    /\ map fst info'
       = match listed_key doc with
         | Some k => if str_in k (map fst info) then map fst info else map fst info ++ [k]
         | None => map fst info
         end.
Proof.
  intros HE. unfold add_source, listed_key, has_key.
  destruct (nonempty (metadata doc)); [|do 2 eexists; split; reflexivity].
  cbv zeta.
  destruct (assoc (u "source_file_key") (metadata doc)) as [k|].
  - destruct (nonempty k); cbn [andb]; [|do 2 eexists; split; reflexivity].
    destruct (str_in k (map fst info)); cbn [negb];
      [do 2 eexists; split; reflexivity|].
    unfold bind. destruct (presign_returns E k 3600 s HE) as [url [s' Hu]].
    rewrite Hu. do 2 eexists. split; [reflexivity|].
    rewrite map_app. reflexivity.
  - destruct (assoc (u "source") (metadata doc)) as [k|];
      [|do 2 eexists; split; reflexivity].
    destruct (nonempty k); cbn [andb]; [|do 2 eexists; split; reflexivity].
    destruct (str_in k (map fst info)); cbn [negb];
      [do 2 eexists; split; reflexivity|].
    unfold bind. destruct (presign_returns E k 3600 s HE) as [url [s' Hu]].
    rewrite Hu. do 2 eexists. split; [reflexivity|].
    rewrite map_app. reflexivity.
Qed.

Lemma first_keys_fresh seen keys k : In k (first_keys seen keys) -> ~ In k seen.
Proof.
  revert seen. induction keys as [|x r IH]; intros seen; cbn [first_keys]; [tauto|].
  destruct (str_in x seen) eqn:E.
  - apply IH.
  - intros [<- | H]; [now apply str_in_false|].
    intros Hs. apply (IH _ H). apply in_or_app. now left.
Qed.

Lemma first_keys_nodup seen keys : List.NoDup (first_keys seen keys).
Proof.
  revert seen. induction keys as [|x r IH]; intros seen; cbn [first_keys];
    [constructor|].
  destruct (str_in x seen); [apply IH|].
  constructor; [|apply IH].
  intros H. apply first_keys_fresh in H. apply H. apply in_or_app. right. now left.
Qed.

Lemma for_each_add_source_keys E docs info s :
  s3_raises_exceptions_only E ->
  exists info' s',
    for_each docs (add_source E) info s = (Ret info', s')
    /\ map fst info' = map fst info ++ first_keys (map fst info) (omap listed_key docs).
Proof.
  intros HE. revert info s. induction docs as [|doc r IH]; intros info s.
  - do 2 eexists. split; [reflexivity|]. cbn. now rewrite app_nil_r.
  - cbn [for_each]. unfold bind.
    destruct (add_source_keys E doc info s HE) as [info1 [s1 [H1 K1]]].
    rewrite H1. destruct (IH info1 s1) as [info' [s' [H' K']]].
    exists info', s'. split; [exact H'|]. rewrite K', K1.
    cbn [omap list_omap]. destruct (listed_key doc) as [k|]; [|reflexivity].
    cbn [first_keys]. destruct (str_in k (map fst info)); [reflexivity|].
    now rewrite <- app_assoc.
Qed.

(** X23: when the S3 client raises nothing outside of [Exception], the
    loop over the documents of an answer returns, with one entry for every
    file among them and no more: the keys of the entries are the keys of
    the documents that have one, each once, in the order of their first
    document. *)
Theorem sources_lists_each_file_once E docs s :
  s3_raises_exceptions_only E ->
  exists info,
    result_of (for_each docs (add_source E) [] s) = Ret info
    /\ map fst info = first_keys [] (omap listed_key docs)
    /\ List.NoDup (map fst info).
Proof.
  intros HE. destruct (for_each_add_source_keys E docs [] s HE) as [info [s' [H K]]].
  exists info. rewrite H. split; [reflexivity|]. cbn in K.
  split; [exact K|]. rewrite K. apply first_keys_nodup.
Qed.

Lemma sources_lists_each_file_once_witness :
  exists info,
    result_of (for_each [chunk_of_rules "Part one"; chunk_of_rules "Part two"]
                        (add_source signing_s3) [] initial) = Ret info
    /\ map fst info
       = first_keys [] (omap listed_key [chunk_of_rules "Part one"; chunk_of_rules "Part two"])
    /\ List.NoDup (map fst info).
Proof.
  apply (sources_lists_each_file_once signing_s3).
  intros client bucket key n e Hc Hr. injection Hc as <-. discriminate Hr.
Defined.

(** X24: after /start, a press of the sources button of any earlier
    answer of the chat is answered, when the client returns, by the one
    text that the sources are no longer available, and nothing else is
    sent. *)
Theorem sources_after_start W W' E chat_id query s prefix interaction_id :
  client_returns W' ->
  str_split_once underscore (data query) = [prefix; interaction_id] ->
  sent (state_of (sources_callback W' E chat_id query
                    (state_of (start_command W chat_id s))))
  = sent (state_of (start_command W chat_id s))
    ++ [ query_answer;
         query_edit_message_text
           (u "Sorry, the sources for this answer are no longer available.") None ].
Proof.
  intros HW Hsplit.
  pose proof (start_command_forgets W chat_id s interaction_id) as Hnone.
  set (s1 := state_of (start_command W chat_id s)) in *.
  unfold sources_callback, bind, tg, try_except, call, ret, read, state_of.
  destruct (HW query_answer) as [i1 H1]. rewrite H1. rewrite Hsplit.
  cbn [unpack2 fst snd with_sent chat_data]. rewrite Hnone.
  match goal with
  | |- context [telegram W' ?r] => destruct (HW r) as [i2 H2]; rewrite H2
  end.
  cbn [fst snd sent with_sent]. now rewrite <- app_assoc.
Qed.

Lemma sources_after_start_witness :
  sent (state_of (sources_callback quiet_world signing_s3 7 sources_press
                    (state_of (start_command quiet_world 7 sourced_answer))))
  = sent (state_of (start_command quiet_world 7 sourced_answer))
    ++ [ query_answer;
         query_edit_message_text
           (u "Sorry, the sources for this answer are no longer available.") None ].
Proof.
  apply (sources_after_start quiet_world quiet_world signing_s3 7 sources_press
           sourced_answer (u "sources") (u "0b5a")).
  - intros r. now exists 1%Z.
  - reflexivity.
Defined.

Example sources_of_two_chunks :
  sent (state_of (sources_callback quiet_world signing_s3 7 sources_press sourced_answer))
  = [ query_answer;
      query_edit_message_text
        (u "<b>Sources:</b>\n\n1. 📄 <b>Exam rules</b> (File: exam_rules.pdf)\n   <a href='https://s3/miba/docs/exam_rules.pdf'>To see the document (link active for 1 hour)</a>")
        None ].
Proof. vm_compute. reflexivity. Qed.

(* ===================================================================== *)
(** ** Ingestion *)

Section IngestionFacts.

Import Ingestion.

Lemma appends_ret {A} (a : A) : appends (ret a).
Proof. intros s. cbn. split; [reflexivity | now rewrite app_nil_r]. Qed.

Lemma appends_call {A} (r : outcome A) : appends (call r).
Proof. intros s. cbn. split; [reflexivity | now rewrite app_nil_r]. Qed.

Lemma appends_raise {A} e : appends (raise (A:=A) e).
Proof. intros s. cbn. split; [reflexivity | now rewrite app_nil_r]. Qed.

Lemma appends_logger lvl m : appends (logger lvl m).
Proof. intros s. cbn. split; [reflexivity | now rewrite app_nil_r]. Qed.

Lemma appends_append doc : appends (append doc).
Proof. intros s. cbn. split; reflexivity. Qed.

Lemma appends_with_logger {A} (m : M (list log_record) A) :
  (forall l, result_of (m l) = result_of (m [])) -> appends (with_logger m).
Proof.
  intros Hm s. specialize (Hm (log s)).
  unfold with_logger, result_of, state_of in *. cbn [log fresh].
  destruct (m (log s)) as [r l], (m []) as [r0 l0]. cbn in *.
  split; [exact Hm | now rewrite app_nil_r].
Qed.

Lemma appends_bind {A B} (m : M state A) (k : A -> M state B) :
  appends m -> (forall a, appends (k a)) -> appends (bind m k).
Proof.
  intros Hm Hk s. destruct (Hm s) as [Rm Dm].
  unfold bind, result_of, state_of in *.
  destruct (m s) as [[a|e] s1], (m fresh) as [[a0|e0] s0]; cbn [fst snd] in *;
    try discriminate.
  - injection Rm as ->. destruct (Hk a0 s1) as [R1 D1], (Hk a0 s0) as [R0 D0].
    unfold result_of, state_of in *. split.
    + now rewrite R1, R0.
    + rewrite D1, D0, Dm. cbn [fresh processed_docs]. now rewrite app_assoc.
  - injection Rm as ->. split; [reflexivity | exact Dm].
Qed.

Lemma appends_dispatch {A} (clauses : list (exn_class * (exn -> M state A))) e :
  Forall (fun c => forall e, appends (snd c e)) clauses -> appends (dispatch clauses e).
Proof.
  induction 1 as [|[h k] r Hk _ IH]; cbn [dispatch].
  - apply appends_raise.
  - destruct (caught_by h e); [apply Hk | apply IH].
Qed.

Lemma appends_try {A} (m : M state A) clauses :
  appends m -> Forall (fun c => forall e, appends (snd c e)) clauses ->
  appends (try_except m clauses).
Proof.
  intros Hm Hk s. destruct (Hm s) as [Rm Dm].
  unfold try_except, result_of, state_of in *.
  destruct (m s) as [[a|e] s1], (m fresh) as [[a0|e0] s0]; cbn [fst snd] in *;
    try discriminate.
  - injection Rm as ->. split; [reflexivity | exact Dm].
  - injection Rm as ->.
    destruct (appends_dispatch clauses e0 Hk s1) as [R1 D1],
             (appends_dispatch clauses e0 Hk s0) as [R0 D0].
    unfold result_of, state_of in *. split.
    + now rewrite R1, R0.
    + rewrite D1, D0, Dm. cbn [fresh processed_docs]. now rewrite app_assoc.
Qed.

Lemma appends_for_each {A B} (l : list A) (body : A -> B -> M state B) acc :
  (forall x b, appends (body x b)) -> appends (for_each l body acc).
Proof.
  intros Hb. revert acc. induction l as [|x r IH]; intros acc; cbn [for_each].
  - apply appends_ret.
  - apply appends_bind; [apply Hb | intros b; apply IH].
Qed.

Lemma ask_result_any_log C p i l :
  result_of (ask_llm_for_metadata C p i l) = result_of (ask_llm_for_metadata C p i []).
Proof.
  destruct (ask_returns C p i l) as [l1 E1], (ask_returns C p i []) as [l0 E0].
  set (t := match result_of (ask_llm_for_metadata C p i []) with
            | Ret t => t
            | Raise _ => []
            end) in *.
  clearbody t. now rewrite E1, E0.
Qed.

Lemma appends_describe W file_path doc_item : appends (describe W file_path doc_item).
Proof.
  unfold describe.
  apply appends_bind; [apply appends_with_logger; intros l; apply ask_result_any_log|].
  intros metadata_json_str. apply appends_bind.
  - destruct (nonempty metadata_json_str); [|apply appends_ret].
    apply appends_try.
    + apply appends_bind; [apply appends_call|]. intros v.
      apply appends_bind; [apply appends_logger | intros _; apply appends_ret].
    + constructor; [|constructor]. intros e. cbn [snd].
      apply appends_bind; [apply appends_logger | intros _; apply appends_ret].
  - intros metadata_dict. apply appends_bind; [apply appends_call|]. intros title.
    apply appends_bind; [apply appends_call|]. intros topics. apply appends_append.
Qed.

Lemma appends_process_file W bucket file_path :
  appends (process_file W bucket file_path).
Proof.
  unfold process_file. apply appends_bind; [apply appends_logger|]. intros _.
  apply appends_try.
  - apply appends_bind; [apply appends_call|]. intros loaded.
    apply appends_for_each. intros doc_item _. apply appends_describe.
  - constructor; [|constructor]. intros e. cbn [snd].
    apply appends_bind; [apply appends_logger | intros _; apply appends_append].
Qed.

(** *** One document *)

Lemma item_dict_set_same k v d : item k (dict_set k v d) = Some v.
Proof.
  assert (Hk : str_eqb k k = true) by now apply str_eqb_eq.
  induction d as [|[k' v'] r IH]; cbn [dict_set item].
  - now rewrite Hk.
  - destruct (str_eqb k k') eqn:E; cbn [item]; rewrite ?Hk, ?E; [reflexivity | exact IH].
Qed.

Lemma item_dict_set_other k k' v d :
  k <> k' -> item k (dict_set k' v d) = item k d.
Proof.
  intros Hne.
  assert (Hk : str_eqb k k' = false).
  { destruct (str_eqb k k') eqn:E; [|reflexivity]. now apply str_eqb_eq in E. }
  induction d as [|[k2 v2] r IH]; cbn [dict_set item].
  - now rewrite Hk.
  - destruct (str_eqb k' k2) eqn:E; cbn [item].
    + apply str_eqb_eq in E. subst k2. now rewrite Hk.
    + now rewrite IH.
Qed.

Lemma item_dict_set_keeps k k' v d :
  item k d <> None -> item k (dict_set k' v d) <> None.
Proof.
  intros H. destruct (str_eqb k k') eqn:E.
  - apply str_eqb_eq in E. subst k'. now rewrite item_dict_set_same.
  - rewrite item_dict_set_other; [exact H|]. intros ->.
    assert (str_eqb k' k' = true) by now apply str_eqb_eq. congruence.
Qed.

Lemma labelled_is_labelled file_path doc_item title topics :
  labelled_from (file_path, doc_item) (labelled file_path doc_item title topics).
Proof.
  unfold labelled_from, described, labelled. cbn [metadata page_content fst snd].
  repeat split.
  - apply item_dict_set_same.
  - apply item_dict_set_keeps, item_dict_set_keeps. now rewrite item_dict_set_same.
  - apply item_dict_set_keeps. now rewrite item_dict_set_same.
  - intros k Hk. unfold label_keys in Hk. cbn [In] in Hk.
    rewrite !item_dict_set_other; [reflexivity | | |]; intros ->; tauto.
Qed.

Lemma error_document_described file_path e :
  described file_path (error_document file_path e).
Proof. unfold described, error_document. cbn [metadata]. vm_compute. now repeat split. Qed.

Lemma describe_failure_is_exception W text e :
  describe_failure W text e -> caught_by Exception e = true.
Proof.
  intros [[v [_ [_ ->]]] | [H _]]; [reflexivity|].
  now apply (json_loads_raises W text).
Qed.

Lemma describe_cases W file_path doc_item s (P : outcome unit * state -> Prop) :
  (forall l' title topics,
      P (Ret tt, {| processed_docs :=
                      processed_docs s ++ [labelled file_path doc_item title topics];
                    log := l' |})) ->
  (forall l' text e,
      describe_failure W text e ->
      P (Raise e, {| processed_docs := processed_docs s; log := l' |})) ->
  P (describe W file_path doc_item s).
Proof.
  intros Hret Hraise. unfold describe. cbv zeta.
  set (prompt := firstn 1800 (page_content doc_item)). clearbody prompt.
  unfold bind at 1. unfold with_logger.
  destruct (ask_returns (llm_client W) prompt instruction_text (log s)) as [l1 E].
  rewrite E.
  set (t := match result_of (ask_llm_for_metadata (llm_client W) prompt instruction_text [])
            with Ret t => t | Raise _ => [] end). clearbody t.
  destruct (nonempty t).
  - unfold bind at 1. unfold try_except, bind, call.
    destruct (json_loads W (unfence t)) as [v|e] eqn:Ev.
    + unfold logger, ret.
      destruct v as [|b|n|str|items|members];
        [apply (Hraise _ (unfence t)); left; eexists; split; [exact Ev|];
         split; [discriminate | reflexivity] ..|].
      unfold dict_get, append. apply Hret.
    + cbn [dispatch]. destruct (caught_by JSONDecodeError e) eqn:Ec.
      * unfold logger, ret, fallback_metadata, dict_get, append. apply Hret.
      * unfold raise. apply (Hraise _ (unfence t)). right. now split.
  - unfold bind, ret, call, fallback_metadata, dict_get, append. apply Hret.
Qed.

(** *** One file *)

Lemma describe_all_cases W file_path loaded :
  forall s (P : outcome unit * state -> Prop),
  (forall l' docs,
      Forall2 labelled_from (map (pair file_path) loaded) docs ->
      P (Ret tt, {| processed_docs := processed_docs s ++ docs; log := l' |})) ->
  (forall l' before doc_item after docs text e,
      loaded = before ++ doc_item :: after ->
      Forall2 labelled_from (map (pair file_path) before) docs ->
      describe_failure W text e ->
      P (Raise e, {| processed_docs := processed_docs s ++ docs; log := l' |})) ->
  P (for_each loaded (fun doc_item _ => describe W file_path doc_item) tt s).
Proof.
  induction loaded as [|d r IH]; intros s P Hret Hraise; cbn [for_each].
  - unfold ret. specialize (Hret (log s) [] (List.Forall2_nil _)).
    rewrite app_nil_r in Hret. now destruct s.
  - unfold bind. pattern (describe W file_path d s). apply describe_cases.
    + intros l' title topics. apply IH.
      * intros l2 docs Hdocs. cbn [processed_docs]. rewrite <- app_assoc.
        apply Hret. cbn [map]. constructor; [apply labelled_is_labelled | exact Hdocs].
      * intros l2 before doc_item after docs text e -> Hdocs Hfail.
        cbn [processed_docs]. rewrite <- app_assoc.
        apply (Hraise l2 (d :: before) doc_item after _ text e); try assumption.
        -- reflexivity.
        -- cbn [map]. constructor; [apply labelled_is_labelled | exact Hdocs].
    + intros l' text e Hfail.
      specialize (Hraise l' [] d r [] text e eq_refl (List.Forall2_nil _) Hfail).
      now rewrite app_nil_r in Hraise.
Qed.

Lemma no_get_is_exception v : caught_by Exception (no_get v) = true.
Proof. reflexivity. Qed.

Lemma process_file_cases W bucket file_path s (P : outcome unit * state -> Prop) :
  (forall l' e,
      S3FileLoader_load W bucket file_path = Raise e -> caught_by Exception e = true ->
      P (Ret tt, {| processed_docs := processed_docs s ++ [error_document file_path e];
                    log := l' |})) ->
  (forall l' e,
      S3FileLoader_load W bucket file_path = Raise e -> caught_by Exception e = false ->
      P (Raise e, {| processed_docs := processed_docs s; log := l' |})) ->
  (forall l' loaded docs,
      S3FileLoader_load W bucket file_path = Ret loaded ->
      Forall2 labelled_from (map (pair file_path) loaded) docs ->
      P (Ret tt, {| processed_docs := processed_docs s ++ docs; log := l' |})) ->
  (forall l' before doc_item after docs text e,
      S3FileLoader_load W bucket file_path = Ret (before ++ doc_item :: after) ->
      Forall2 labelled_from (map (pair file_path) before) docs ->
      describe_failure W text e ->
      P (Ret tt, {| processed_docs :=
                      processed_docs s ++ docs ++ [error_document file_path e];
                    log := l' |})) ->
  P (process_file W bucket file_path s).
Proof.
  intros Hcaught Hpass Hret Hget. unfold process_file.
  unfold bind at 1. unfold logger at 1. unfold try_except. unfold bind at 1.
  unfold call.
  destruct (S3FileLoader_load W bucket file_path) as [loaded|e] eqn:El.
  - match goal with
    | |- context [for_each loaded ?body tt ?s0] => pattern (for_each loaded body tt s0)
    end.
    apply describe_all_cases.
    + intros l' docs Hdocs. cbn [processed_docs]. now apply (Hret l' loaded).
    + intros l' before doc_item after docs text e -> Hdocs Hfail.
      cbn [dispatch]. rewrite (describe_failure_is_exception W text e Hfail).
      unfold bind, logger, append. cbn [processed_docs log_add state_logging log].
      rewrite <- app_assoc. now apply (Hget _ before doc_item after docs text e).
  - cbn [dispatch]. destruct (caught_by Exception e) eqn:Ec.
    + unfold bind, logger, append. now apply Hcaught.
    + unfold raise. now apply Hpass.
Qed.

(** *** A batch of files *)

Lemma for_each_app {S A B} (a b : list A) (body : A -> B -> M S B) acc s :
  for_each (a ++ b) body acc s
  = (let* acc' := for_each a body acc in for_each b body acc') s.
Proof.
  revert acc s. induction a as [|x r IH]; intros acc s; cbn [for_each app].
  - reflexivity.
  - unfold bind at 1 2 3. destruct (body x acc s) as [[a'|e] s1]; [|reflexivity].
    rewrite IH. reflexivity.
Qed.

Lemma returns_for_each {S A B} (l : list A) (body : A -> B -> M S B) acc :
  (forall x b, returns (body x b)) -> returns (for_each l body acc).
Proof.
  intros Hb. revert acc. induction l as [|x r IH]; intros acc; cbn [for_each].
  - apply returns_ret.
  - apply returns_bind; [apply Hb | intros b; apply IH].
Qed.

Lemma process_file_returns W bucket file_path :
  loader_raises_exceptions_only W -> returns (process_file W bucket file_path).
Proof.
  intros HW s. pattern (process_file W bucket file_path s). apply process_file_cases.
  - intros. now exists tt.
  - intros l' e El Ec. apply HW in El. congruence.
  - intros. now exists tt.
  - intros. now exists tt.
Qed.

Lemma batch_step W bucket files s :
  loader_raises_exceptions_only W ->
  result_of (for_each files (fun file_path _ => process_file W bucket file_path) tt s)
  = Ret tt
  /\ processed_docs
       (state_of (for_each files (fun file_path _ => process_file W bucket file_path) tt s))
     = processed_docs s ++ batch_docs W bucket files.
Proof.
  intros HW. split.
  - destruct (returns_for_each files
                (fun file_path (_ : unit) => process_file W bucket file_path) tt
                (fun x _ => process_file_returns W bucket x HW) s) as [[] H].
    exact H.
  - apply (appends_for_each files
             (fun file_path (_ : unit) => process_file W bucket file_path) tt).
    intros x _. apply appends_process_file.
Qed.

Lemma batch_docs_app W bucket a b :
  loader_raises_exceptions_only W ->
  batch_docs W bucket (a ++ b) = batch_docs W bucket a ++ batch_docs W bucket b.
Proof.
  intros HW. unfold batch_docs at 1. rewrite for_each_app. unfold bind.
  destruct (batch_step W bucket a fresh HW) as [Ra Da].
  unfold result_of, state_of in Ra, Da.
  destruct (for_each a _ tt fresh) as [[[]|e] s1]; cbn [fst snd] in Ra, Da;
    [|discriminate].
  destruct (batch_step W bucket b s1 HW) as [_ Db]. rewrite Db, Da. reflexivity.
Qed.

Lemma batch_docs_unloadable W bucket file_path e :
  S3FileLoader_load W bucket file_path = Raise e -> caught_by Exception e = true ->
  batch_docs W bucket [file_path] = [error_document file_path e].
Proof.
  intros El Ec. unfold batch_docs. cbn [for_each]. unfold bind.
  pattern (process_file W bucket file_path fresh). apply process_file_cases.
  - intros l' e' El' _. rewrite El in El'. injection El' as <-. reflexivity.
  - intros l' e' El' Ec'. rewrite El in El'. injection El' as <-. congruence.
  - intros l' loaded docs El'. congruence.
  - intros l' before doc_item after docs text e' El'. congruence.
Qed.

Lemma docs_from_s3_configured W bucket files l :
  s3_configured W bucket -> loader_raises_exceptions_only W ->
  result_of (docs_from_s3_files W files l) = Ret (batch_docs W bucket files).
Proof.
  intros [[c Hc] [Hb Hne]] HW. unfold docs_from_s3_files, returning_processed_docs.
  rewrite Hc, Hb. destruct bucket as [|b ucket]; [contradiction|].
  destruct (batch_step W (b :: ucket) files {| processed_docs := []; log := l |} HW)
    as [R D].
  unfold result_of, state_of in R, D.
  destruct (for_each files _ tt _) as [[[]|e] s1]; cbn [fst snd] in R, D;
    [|discriminate].
  cbn [result_of fst]. now rewrite D.
Qed.

Lemma docs_from_s3_unconfigured W files l :
  (forall bucket, ~ s3_configured W bucket) ->
  result_of (docs_from_s3_files W files l) = Ret [].
Proof.
  intros Hno. unfold docs_from_s3_files, returning_processed_docs.
  destruct (s3_client W) as [c|] eqn:Hc; [|reflexivity].
  destruct (S3_BUCKET W) as [[|b ucket]|] eqn:Hb; try reflexivity.
  exfalso. apply (Hno (b :: ucket)). repeat split; [now exists c | exact Hb | discriminate].
Qed.

Lemma s3_configured_dec W :
  (exists bucket, s3_configured W bucket) \/ (forall bucket, ~ s3_configured W bucket).
Proof.
  destruct (s3_client W) as [c|] eqn:Hc.
  - destruct (S3_BUCKET W) as [[|b ucket]|] eqn:Hb.
    + right. intros bucket [_ [H Hne]]. rewrite Hb in H. injection H as <-. now apply Hne.
    + left. exists (b :: ucket). repeat split; [now exists c | exact Hb | discriminate].
    + right. intros bucket [_ [H _]]. rewrite Hb in H. discriminate.
  - right. intros bucket [[c H] _]. rewrite Hc in H. discriminate.
Qed.

Lemma campus_loader_raises_exceptions_only : loader_raises_exceptions_only campus_world.
Proof.
  intros bucket file_path e. cbn [campus_world S3FileLoader_load].
  destruct (str_eqb file_path (u "bad.pdf")); [|discriminate].
  intros [= <-]. reflexivity.
Qed.

Lemma campus_configured : s3_configured campus_world (u "miba").
Proof.
  split; [now exists campus_listing | split; [reflexivity | vm_compute; discriminate]].
Qed.

Lemma array_configured : s3_configured array_world (u "miba").
Proof.
  split; [now exists campus_listing | split; [reflexivity | vm_compute; discriminate]].
Qed.

(** What a batch of files yields is what its parts yield, one after
    the other: when the loader raises nothing outside of [Exception],
    [docs_from_s3_files] returns on every batch, and on [a ++ b] it returns
    the documents of [a] followed by those of [b], whatever the logs. *)
Theorem ingestion_file_by_file W a b l la lb :
  loader_raises_exceptions_only W ->
  exists da db,
    result_of (docs_from_s3_files W a la) = Ret da
    /\ result_of (docs_from_s3_files W b lb) = Ret db
    /\ result_of (docs_from_s3_files W (a ++ b) l) = Ret (da ++ db).
Proof.
  intros HW. destruct (s3_configured_dec W) as [[bucket Hc]|Hno].
  - exists (batch_docs W bucket a), (batch_docs W bucket b).
    rewrite !(docs_from_s3_configured W bucket) by assumption.
    now rewrite batch_docs_app.
  - exists [], []. now rewrite !docs_from_s3_unconfigured.
Qed.

Lemma ingestion_file_by_file_witness :
  exists da db,
    result_of (docs_from_s3_files campus_world [u "docs/rules.pdf"] []) = Ret da
    /\ result_of (docs_from_s3_files campus_world [u "bad.pdf"; u "docs/plan.pdf"] [])
       = Ret db
    /\ result_of (docs_from_s3_files campus_world
                    ([u "docs/rules.pdf"] ++ [u "bad.pdf"; u "docs/plan.pdf"]) [])
       = Ret (da ++ db).
Proof.
  apply (ingestion_file_by_file campus_world [u "docs/rules.pdf"]
           [u "bad.pdf"; u "docs/plan.pdf"] [] [] []).
  exact campus_loader_raises_exceptions_only.
Defined.

(** X25: A file that cannot be loaded costs only itself: in a batch, every
    file before and after it yields its own documents, and the file yields
    one document that carries the error. *)
Theorem unloadable_file_is_isolated W bucket before file_path after e l la lb :
  s3_configured W bucket -> loader_raises_exceptions_only W ->
  S3FileLoader_load W bucket file_path = Raise e ->
  exists da db,
    result_of (docs_from_s3_files W before la) = Ret da
    /\ result_of (docs_from_s3_files W after lb) = Ret db
    /\ result_of (docs_from_s3_files W (before ++ file_path :: after) l)
       = Ret (da ++ error_document file_path e :: db).
Proof.
  intros Hc HW El.
  exists (batch_docs W bucket before), (batch_docs W bucket after).
  rewrite !(docs_from_s3_configured W bucket) by assumption.
  repeat split.
  change (file_path :: after) with ([file_path] ++ after).
  rewrite !batch_docs_app by assumption.
  rewrite (batch_docs_unloadable W bucket file_path e El) by (eapply HW; exact El).
  reflexivity.
Qed.

Lemma unloadable_file_is_isolated_witness :
  exists da db,
    result_of (docs_from_s3_files campus_world [u "docs/rules.pdf"] []) = Ret da
    /\ result_of (docs_from_s3_files campus_world [u "docs/plan.pdf"] []) = Ret db
    /\ result_of (docs_from_s3_files campus_world
                    ([u "docs/rules.pdf"] ++ u "bad.pdf" :: [u "docs/plan.pdf"]) [])
       = Ret (da ++ error_document (u "bad.pdf")
                      {| cls := RuntimeError; msg := u "NoSuchKey" |} :: db).
Proof.
  apply (unloadable_file_is_isolated campus_world (u "miba") [u "docs/rules.pdf"]
           (u "bad.pdf") [u "docs/plan.pdf"]
           {| cls := RuntimeError; msg := u "NoSuchKey" |} [] [] []).
  - exact campus_configured.
  - exact campus_loader_raises_exceptions_only.
  - reflexivity.
Defined.

Lemma labelled_from_described file_path loaded docs :
  Forall2 labelled_from (map (pair file_path) loaded) docs ->
  Forall (described file_path) docs.
Proof.
  revert docs. induction loaded as [|d r IH]; intros docs H; inversion H; subst.
  - constructor.
  - constructor; [|now apply IH].
    match goal with Hl : labelled_from _ _ |- _ => apply Hl end.
Qed.

Lemma batch_described W bucket files sub :
  incl sub files ->
  forall s,
    Forall (fun doc => exists f, In f files /\ described f doc) (processed_docs s) ->
    Forall (fun doc => exists f, In f files /\ described f doc)
      (processed_docs
         (state_of (for_each sub (fun file_path _ => process_file W bucket file_path) tt s))).
Proof.
  induction sub as [|x r IH]; intros Hsub s Hs; cbn [for_each].
  - exact Hs.
  - assert (Hx : In x files) by (apply Hsub; now left).
    assert (Hr : incl r files) by (intros y Hy; apply Hsub; now right).
    assert (Hall : forall docs, Forall (described x) docs ->
              Forall (fun doc => exists f, In f files /\ described f doc)
                     (processed_docs s ++ docs)).
    { intros docs Hd. apply Forall_app. split; [exact Hs|].
      eapply List.Forall_impl; [|exact Hd]. intros doc Hdoc. now exists x. }
    unfold bind. pattern (process_file W bucket x s). apply process_file_cases.
    + intros l' e _ _. apply IH; [exact Hr|]. cbn [processed_docs].
      apply Hall. constructor; [apply error_document_described | constructor].
    + intros l' e _ _. exact Hs.
    + intros l' loaded docs _ Hdocs. apply IH; [exact Hr|]. cbn [processed_docs].
      apply Hall. now apply labelled_from_described with (loaded := loaded).
    + intros l' before doc_item after docs text e _ Hdocs _.
      apply IH; [exact Hr|]. cbn [processed_docs]. apply Hall.
      apply Forall_app. split.
      * now apply labelled_from_described with (loaded := before).
      * constructor; [apply error_document_described | constructor].
Qed.

(** X26: Every document that [docs_from_s3_files] returns, an error
    document included, carries a title, topics and under "source_file_key"
    the key of one of the files of the batch. *)
Theorem ingested_documents_are_described W files l docs :
  result_of (docs_from_s3_files W files l) = Ret docs ->
  Forall (fun doc => exists f, In f files /\ described f doc) docs.
Proof.
  unfold docs_from_s3_files, returning_processed_docs.
  destruct (s3_client W) as [c|]; [destruct (S3_BUCKET W) as [[|b ucket]|]|];
    try (cbn; intros [= <-]; constructor).
  pose proof (batch_described W (b :: ucket) files files (incl_refl _)
                {| processed_docs := []; log := l |} (List.Forall_nil _)) as H.
  unfold state_of in H.
  destruct (for_each files _ tt _) as [[[]|e] s1]; cbn [fst snd result_of] in *;
    [|discriminate].
  intros [= <-]. exact H.
Qed.

Lemma ingested_documents_are_described_witness :
  result_of (docs_from_s3_files campus_world [u "docs/rules.pdf"; u "bad.pdf"] [])
  = Ret (batch_docs campus_world (u "miba") [u "docs/rules.pdf"; u "bad.pdf"])
  /\ Forall (fun doc => exists f,
                In f [u "docs/rules.pdf"; u "bad.pdf"] /\ described f doc)
            (batch_docs campus_world (u "miba") [u "docs/rules.pdf"; u "bad.pdf"]).
Proof.
  split; [vm_compute; reflexivity|].
  apply (ingested_documents_are_described campus_world
           [u "docs/rules.pdf"; u "bad.pdf"] []).
  vm_compute. reflexivity.
Defined.

Lemma batch_labelled W bucket files loaded :
  parses_objects_only W ->
  (forall f, In f files -> S3FileLoader_load W bucket f = Ret (loaded f)) ->
  forall s, exists docs l',
    for_each files (fun file_path _ => process_file W bucket file_path) tt s
    = (Ret tt, {| processed_docs := processed_docs s ++ docs; log := l' |})
    /\ Forall2 labelled_from (flat_map (fun f => map (pair f) (loaded f)) files) docs.
Proof.
  intros Hobj. induction files as [|x r IH]; intros Hload s; cbn [for_each flat_map].
  - exists [], (log s). split; [|constructor].
    unfold ret. rewrite app_nil_r. now destruct s.
  - assert (Hx : S3FileLoader_load W bucket x = Ret (loaded x))
      by (apply Hload; now left).
    assert (Hr : forall f, In f r -> S3FileLoader_load W bucket f = Ret (loaded f))
      by (intros f Hf; apply Hload; now right).
    unfold bind. pattern (process_file W bucket x s). apply process_file_cases.
    + intros l' e El. congruence.
    + intros l' e El. congruence.
    + intros l' loaded0 docs El Hdocs. rewrite Hx in El. injection El as <-.
      destruct (IH Hr {| processed_docs := processed_docs s ++ docs; log := l' |})
        as [docs' [l2 [E H2]]].
      exists (docs ++ docs'), l2. split.
      * rewrite E. cbn [processed_docs]. now rewrite app_assoc.
      * now apply Forall2_app.
    + intros l' before doc_item after docs text e _ _ Hfail.
      destruct (Hobj text) as [[members Hm] | [e' [He' Hc']]],
               Hfail as [[v [Hv [Hno _]]] | [Hv Hc]]; congruence.
Qed.

(** X27: When every file of the batch loads and the parser gives objects
    only, [docs_from_s3_files] returns the loaded documents, file by file
    and in their order, each with its whole content (only the prompt is cut
    to 1800 characters), with the three labels set and the rest of its
    metadata as loaded. *)
Theorem ingestion_labels_the_loaded_documents W bucket files loaded l :
  s3_configured W bucket -> parses_objects_only W ->
  (forall f, In f files -> S3FileLoader_load W bucket f = Ret (loaded f)) ->
  exists docs,
    result_of (docs_from_s3_files W files l) = Ret docs
    /\ Forall2 labelled_from (flat_map (fun f => map (pair f) (loaded f)) files) docs.
Proof.
  intros [[c Hc] [Hb Hne]] Hobj Hload.
  unfold docs_from_s3_files, returning_processed_docs. rewrite Hc, Hb.
  destruct bucket as [|b ucket]; [contradiction|].
  destruct (batch_labelled W (b :: ucket) files loaded Hobj Hload
              {| processed_docs := []; log := l |}) as [docs [l' [E H]]].
  rewrite E. exists docs. split; [reflexivity | exact H].
Qed.

Lemma ingestion_labels_the_loaded_documents_witness :
  exists docs,
    result_of (docs_from_s3_files campus_world [u "docs/rules.pdf"; u "docs/plan.pdf"] [])
    = Ret docs
    /\ Forall2 labelled_from
         (flat_map (fun f => map (pair f) two_chunks)
                   [u "docs/rules.pdf"; u "docs/plan.pdf"]) docs.
Proof.
  apply (ingestion_labels_the_loaded_documents campus_world (u "miba")
           [u "docs/rules.pdf"; u "docs/plan.pdf"] (fun _ => two_chunks) []).
  - exact campus_configured.
  - intros text. left. now eexists.
  - intros f [<-|[<-|[]]]; reflexivity.
Defined.

Lemma describe_non_object W file_path doc_item reply v s :
  result_of (ask_llm_for_metadata (llm_client W) (firstn 1800 (page_content doc_item))
               instruction_text []) = Ret reply ->
  nonempty reply = true ->
  json_loads W (unfence reply) = Ret v -> (forall members, v <> JObject members) ->
  exists l',
    describe W file_path doc_item s
    = (Raise (no_get v), {| processed_docs := processed_docs s; log := l' |}).
Proof.
  intros Hreply Hne Hv Hno. unfold describe. cbv zeta.
  set (prompt := firstn 1800 (page_content doc_item)) in *. clearbody prompt.
  unfold bind at 1. unfold with_logger.
  destruct (ask_returns (llm_client W) prompt instruction_text (log s)) as [l1 E].
  rewrite E, Hreply, Hne.
  unfold bind at 1. unfold try_except, bind, call. rewrite Hv.
  unfold logger, ret.
  destruct v as [|b|n|str|items|members]; try (eexists; reflexivity).
  now destruct (Hno members).
Qed.

(** X28: A reply of the model that is valid JSON but no object fails the
    whole file: when that happens at the first document of a file,
    [docs_from_s3_files] returns for the file the error document alone and
    none of its documents. *)
Theorem non_object_reply_fails_the_file W bucket file_path doc_item rest reply v l :
  s3_configured W bucket ->
  S3FileLoader_load W bucket file_path = Ret (doc_item :: rest) ->
  result_of (ask_llm_for_metadata (llm_client W) (firstn 1800 (page_content doc_item))
               instruction_text []) = Ret reply ->
  nonempty reply = true ->
  json_loads W (unfence reply) = Ret v -> (forall members, v <> JObject members) ->
  result_of (docs_from_s3_files W [file_path] l)
  = Ret [error_document file_path (no_get v)].
Proof.
  intros [[c Hc] [Hb Hne]] El Hreply Hreply_ne Hv Hno.
  unfold docs_from_s3_files, returning_processed_docs. rewrite Hc, Hb.
  destruct bucket as [|b ucket]; [contradiction|].
  cbn [for_each]. unfold process_file.
  unfold bind at 1. unfold bind at 1. unfold logger at 1.
  unfold try_except. unfold bind at 1. unfold call. rewrite El.
  cbn [for_each]. unfold bind at 1.
  match goal with
  | |- context [describe W file_path doc_item ?s0] =>
    destruct (describe_non_object W file_path doc_item reply v s0
                Hreply Hreply_ne Hv Hno) as [l' E]
  end.
  rewrite E. cbn [dispatch]. rewrite no_get_is_exception.
  reflexivity.
Qed.

Lemma non_object_reply_fails_the_file_witness :
  result_of (docs_from_s3_files array_world [u "docs/rules.pdf"] [])
  = Ret [error_document (u "docs/rules.pdf") (no_get (JArray []))].
Proof.
  apply (non_object_reply_fails_the_file array_world (u "miba") (u "docs/rules.pdf")
           {| page_content := u "First part"; metadata := [] |}
           [ {| page_content := u "Second part"; metadata := [] |} ]
           (u "```json [] ```") (JArray []) []).
  - exact array_configured.
  - reflexivity.
  - vm_compute. reflexivity.
  - reflexivity.
  - reflexivity.
  - discriminate.
Defined.

(** What the parser raises on a text that is JSON, as [ValueError] for an
    integer too long, is no [JSONDecodeError]: it fails the file as a
    value that is no object does. *)
Example parser_error_fails_the_file :
  result_of (docs_from_s3_files digits_world [u "docs/rules.pdf"] [])
  = Ret [error_document (u "docs/rules.pdf")
           {| cls := ValueError;
              msg := u "Exceeds the limit (4300 digits) for integer string conversion" |}].
Proof. vm_compute. reflexivity. Qed.

(** *** What the two functions raise *)

Lemma nx_ret {S A} (a : A) : raises_no_exception (ret (S:=S) a).
Proof. intros s. exact I. Qed.

Lemma nx_logger {S} `{Logging S} lvl m : raises_no_exception (logger (S:=S) lvl m).
Proof. intros s. exact I. Qed.

Lemma nx_bind {S A B} (m : M S A) (k : A -> M S B) :
  raises_no_exception m -> (forall a, raises_no_exception (k a)) ->
  raises_no_exception (bind m k).
Proof.
  intros Hm Hk s. specialize (Hm s). unfold bind, result_of in *.
  destruct (m s) as [[a|e] s1]; cbn [fst] in *; [apply Hk | exact Hm].
Qed.

Lemma nx_catch_all {S A} (m : M S A) k :
  (forall e, raises_no_exception (k e)) ->
  raises_no_exception (try_except m [(Exception, k)]).
Proof.
  intros Hk s. unfold try_except, result_of.
  destruct (m s) as [[a|e] s1]; cbn [fst dispatch]; [exact I|].
  destruct (caught_by Exception e) eqn:E; [apply Hk | exact E].
Qed.

Lemma nx_for_each {S A B} (l : list A) (body : A -> B -> M S B) acc :
  (forall x b, raises_no_exception (body x b)) -> raises_no_exception (for_each l body acc).
Proof.
  intros Hb. revert acc. induction l as [|x r IH]; intros acc; cbn [for_each].
  - apply nx_ret.
  - apply nx_bind; [apply Hb | intros b; apply IH].
Qed.

Lemma nx_process_file W bucket file_path :
  raises_no_exception (process_file W bucket file_path).
Proof.
  unfold process_file. apply nx_bind; [apply nx_logger|]. intros _.
  apply nx_catch_all. intros e. apply nx_bind; [apply nx_logger|]. intros _ s. exact I.
Qed.

Lemma nx_returning (body : M state unit) :
  raises_no_exception body -> raises_no_exception (returning_processed_docs body).
Proof.
  intros Hb l. specialize (Hb {| processed_docs := []; log := l |}).
  unfold returning_processed_docs, result_of in *.
  destruct (body {| processed_docs := []; log := l |}) as [[a|e] s1];
    [exact I | exact Hb].
Qed.

Lemma nx_docs_from_s3_files W files : raises_no_exception (docs_from_s3_files W files).
Proof.
  unfold docs_from_s3_files. apply nx_returning.
  destruct (s3_client W); [destruct (S3_BUCKET W) as [[|b ucket]|]|];
    try apply nx_logger.
  apply nx_for_each. intros x _. apply nx_process_file.
Qed.

Lemma nx_on_log {A} (m : M (list log_record) A) :
  raises_no_exception m -> raises_no_exception (on_log m).
Proof.
  intros Hm d. specialize (Hm (disk_log d)). unfold on_log, result_of in *.
  now destruct (m (disk_log d)) as [r l].
Qed.

Lemma nx_load_cached W readable : raises_no_exception (load_cached W readable).
Proof.
  intros d. unfold load_cached.
  destruct (negb (FORCE_PROCESS_DOCS_FROM_S3 W)
            && bool_decide (is_Some (serialized_docs_file d))); [|exact I].
  apply nx_catch_all. intros e. apply nx_bind; [apply nx_logger | intros _; apply nx_ret].
Qed.

Lemma nx_ingest_from_s3 W writable : raises_no_exception (ingest_from_s3 W writable).
Proof.
  unfold ingest_from_s3.
  destruct (s3_client W) as [c|];
    [destruct (S3_BUCKET W) as [[|b ucket]|];
     [|destruct (S3_BUCKET_PREFIX W) as [|p refix]|]|];
    try (apply nx_bind; [apply nx_logger | intros _; apply nx_ret]).
  apply nx_bind; [apply nx_logger|]. intros _. apply nx_catch_all. intros e.
  apply nx_bind; [apply nx_logger | intros _; apply nx_ret].
Qed.

Lemma nx_get_documents W readable writable :
  raises_no_exception (get_documents W readable writable).
Proof.
  unfold get_documents. apply nx_bind; [apply nx_load_cached|]. intros docs.
  apply nx_bind.
  - destruct (negb (nonempty docs)); [apply nx_ingest_from_s3 | apply nx_ret].
  - intros [returned|docs']; [apply nx_ret|].
    apply nx_bind; [|intros _; apply nx_ret].
    destruct (negb (nonempty docs')); [apply nx_logger | apply nx_ret].
Qed.

(** X29: Neither [docs_from_s3_files] nor [get_documents] raises an
    [Exception]: whatever the storage, the loader, the model, the parser,
    the cache file and the serialiser do, both return a list, unless
    something raises what [except Exception] does not catch. *)
Theorem ingestion_raises_no_exception W files l readable writable d :
  match result_of (docs_from_s3_files W files l) with
  | Ret _ => True
  | Raise e => caught_by Exception e = false
  end
  /\ match result_of (get_documents W readable writable d) with
     | Ret _ => True
     | Raise e => caught_by Exception e = false
     end.
Proof. split; [apply nx_docs_from_s3_files | apply nx_get_documents]. Qed.

(** *** The cache of [get_documents] *)

Lemma docs_result_any_log W files l :
  result_of (docs_from_s3_files W files l) = result_of (docs_from_s3_files W files []).
Proof.
  unfold docs_from_s3_files, returning_processed_docs.
  set (body := match s3_client W, S3_BUCKET W with
               | Some _, Some (b :: ucket) =>
                 for_each files (fun file_path _ => process_file W (b :: ucket) file_path) tt
               | _, _ =>
                 logger ERROR
                   (u "S3 client or bucket not configured. Cannot process files from S3.")
               end).
  assert (Hb : appends body).
  { subst body. destruct (s3_client W); [destruct (S3_BUCKET W) as [[|b ucket]|]|];
      try apply appends_logger.
    apply appends_for_each. intros x _. apply appends_process_file. }
  destruct (Hb {| processed_docs := []; log := l |}) as [R D].
  unfold result_of, state_of, fresh in *. cbn [processed_docs app] in D.
  destruct (body {| processed_docs := []; log := l |}) as [[a|e] s1],
           (body {| processed_docs := []; log := [] |}) as [[a0|e0] s0];
    cbn [fst snd] in *; congruence.
Qed.

Lemma blind_ret {A} (a : A) : blind (ret a).
Proof. intros d d'. reflexivity. Qed.

Lemma blind_logger lvl m : blind (logger lvl m).
Proof. intros d d'. reflexivity. Qed.

Lemma blind_call {A} (r : outcome A) : blind (call r).
Proof. intros d d'. reflexivity. Qed.

Lemma blind_write_file writable text : blind (write_file writable text).
Proof. intros d d'. unfold write_file. now destruct writable. Qed.

Lemma blind_bind {A B} (m : M disk A) (k : A -> M disk B) :
  blind m -> (forall a, blind (k a)) -> blind (bind m k).
Proof.
  intros Hm Hk d d'. specialize (Hm d d'). unfold bind, result_of in *.
  destruct (m d) as [[a|e] d1], (m d') as [[a'|e'] d1']; cbn [fst] in *;
    try discriminate.
  - injection Hm as ->. apply Hk.
  - injection Hm as ->. reflexivity.
Qed.

Lemma blind_catch_all {A} (m : M disk A) k :
  blind m -> (forall e, blind (k e)) -> blind (try_except m [(Exception, k)]).
Proof.
  intros Hm Hk d d'. specialize (Hm d d'). unfold try_except, result_of in *.
  destruct (m d) as [[a|e] d1], (m d') as [[a'|e'] d1']; cbn [fst] in *;
    try discriminate.
  - exact Hm.
  - injection Hm as ->. cbn [dispatch].
    destruct (caught_by Exception e'); [apply Hk | reflexivity].
Qed.

Lemma blind_on_log {A} (m : M (list log_record) A) :
  (forall l, result_of (m l) = result_of (m [])) -> blind (on_log m).
Proof.
  intros Hm d d'. pose proof (Hm (disk_log d)) as H1. pose proof (Hm (disk_log d')) as H2.
  unfold on_log, result_of in *.
  destruct (m (disk_log d)) as [r l], (m (disk_log d')) as [r' l']. cbn [fst] in *.
  congruence.
Qed.

Lemma blind_ingest_from_s3 W writable : blind (ingest_from_s3 W writable).
Proof.
  unfold ingest_from_s3.
  destruct (s3_client W) as [c|];
    [destruct (S3_BUCKET W) as [[|b ucket]|];
     [|destruct (S3_BUCKET_PREFIX W) as [|p refix]|]|];
    try (apply blind_bind; [apply blind_logger | intros _; apply blind_ret]).
  apply blind_bind; [apply blind_logger|]. intros _. apply blind_catch_all.
  - apply blind_bind; [apply blind_call|]. intros s3_objects.
    apply blind_bind; [apply blind_logger|]. intros _.
    destruct (negb (nonempty (rag_files_of (default [] s3_objects)))).
    + apply blind_bind; [apply blind_logger | intros _; apply blind_ret].
    + apply blind_bind; [apply blind_on_log; intros l; apply docs_result_any_log|].
      intros docs. apply blind_bind; [|intros _; apply blind_ret].
      destruct (nonempty docs); [|apply blind_logger].
      apply blind_catch_all.
      * apply blind_bind; [apply blind_call|]. intros text.
        apply blind_bind; [apply blind_write_file | intros _; apply blind_logger].
      * intros e. apply blind_logger.
  - intros e. apply blind_bind; [apply blind_logger | intros _; apply blind_ret].
Qed.

Lemma blind_after_cache W writable (docs : list Document) :
  blind (let* docs :=
           if negb (nonempty docs) then ingest_from_s3 W writable
           else ret (inr docs) in
         match docs with
         | inl returned => ret returned
         | inr docs =>
           (if negb (nonempty docs)
            then logger CRITICAL
                   (u "No documents available for the RAG system. Bot may not function correctly.")
            else ret tt) ;;
           ret docs
         end).
Proof.
  apply blind_bind.
  - destruct (negb (nonempty docs)); [apply blind_ingest_from_s3 | apply blind_ret].
  - intros [returned|docs']; [apply blind_ret|].
    apply blind_bind; [|intros _; apply blind_ret].
    destruct (negb (nonempty docs')); [apply blind_logger | apply blind_ret].
Qed.

Lemma load_cached_unusable W readable d text :
  serialized_docs_file d = Some text ->
  FORCE_PROCESS_DOCS_FROM_S3 W = true \/ readable = false
  \/ loads W text = Ret []
  \/ (exists e, loads W text = Raise e /\ caught_by Exception e = true) ->
  exists d', load_cached W readable d = (Ret [], d').
Proof.
  intros Hf H. unfold load_cached. rewrite Hf.
  destruct (FORCE_PROCESS_DOCS_FROM_S3 W) eqn:EF; cbn [negb andb].
  { eexists. reflexivity. }
  rewrite bool_decide_true by (now exists text). cbv iota.
  unfold try_except, bind at 1, read_file. rewrite Hf.
  destruct readable.
  - destruct H as [H|[H|[H|[e [H He]]]]]; try discriminate.
    + unfold bind, call, logger, raise. rewrite H. cbn [nonempty negb dispatch].
      change (caught_by Exception _) with true. cbv iota. eexists. reflexivity.
    + unfold bind, call. rewrite H. cbn [dispatch]. rewrite He.
      unfold logger, ret. eexists. reflexivity.
  - cbn [dispatch]. change (caught_by Exception _) with true. cbv iota.
    unfold bind, logger, ret. eexists. reflexivity.
Qed.

(** A cache that cannot be used is as good as none: when loading is
    forced, or the file cannot be read, or it holds no document, or
    [loads] raises an [Exception] on it, [get_documents] returns what it
    returns without the file. *)
Theorem unusable_cache_is_ignored W readable writable d text :
  serialized_docs_file d = Some text ->
  FORCE_PROCESS_DOCS_FROM_S3 W = true \/ readable = false
  \/ loads W text = Ret []
  \/ (exists e, loads W text = Raise e /\ caught_by Exception e = true) ->
  result_of (get_documents W readable writable d)
  = result_of (get_documents W readable writable
                 {| serialized_docs_file := None; disk_log := [] |}).
Proof.
  intros Hf H. destruct (load_cached_unusable W readable d text Hf H) as [d' E].
  unfold get_documents. unfold bind at 1 4. rewrite E.
  unfold load_cached at 1. cbn [serialized_docs_file].
  rewrite bool_decide_false by (intros [x Hx]; discriminate).
  rewrite andb_false_r. unfold ret at 1.
  apply (blind_after_cache W writable []).
Qed.

Lemma unusable_cache_is_ignored_witness :
  result_of (get_documents campus_world true true
               {| serialized_docs_file := Some (u "junk"); disk_log := [] |})
  = result_of (get_documents campus_world true true
                 {| serialized_docs_file := None; disk_log := [] |}).
Proof.
  apply (unusable_cache_is_ignored campus_world true true
           {| serialized_docs_file := Some (u "junk"); disk_log := [] |} (u "junk")).
  - reflexivity.
  - right. right. left. vm_compute. reflexivity.
Defined.

(** X30: What one run saves, the next run loads: a run that finds no
    cache file, ingests documents and can write leaves their serialisation
    in the file and returns them; a later run that is not forced and reads
    the documents back from that text returns the same list and leaves the
    file as it is, whatever its object storage does. *)
Theorem cache_round_trip W W' list_objects bucket keys docs text readable writable' d :
  serialized_docs_file d = None ->
  s3_client W = Some list_objects -> S3_BUCKET W = Some bucket -> bucket <> [] ->
  S3_BUCKET_PREFIX W <> [] ->
  list_objects bucket (S3_BUCKET_PREFIX W) = Ret keys ->
  rag_files_of (default [] keys) <> [] ->
  result_of (docs_from_s3_files W (rag_files_of (default [] keys)) []) = Ret docs ->
  docs <> [] ->
  dumps W docs = Ret text ->
  FORCE_PROCESS_DOCS_FROM_S3 W' = false -> loads W' text = Ret docs ->
  result_of (get_documents W readable true d) = Ret docs
  /\ serialized_docs_file (state_of (get_documents W readable true d)) = Some text
  /\ result_of (get_documents W' true writable'
                  (state_of (get_documents W readable true d))) = Ret docs
  /\ serialized_docs_file
       (state_of (get_documents W' true writable'
                    (state_of (get_documents W readable true d)))) = Some text.
Proof.
  intros Hf Hc Hb Hbne Hpne Hlist Hrag Hdocs Hdne Hdumps HF Hloads.
  assert (Hdocs_ne : nonempty docs = true) by (destruct docs; [contradiction | reflexivity]).
  assert (Hrag_ne : nonempty (rag_files_of (default [] keys)) = true)
    by (destruct (rag_files_of (default [] keys)); [contradiction | reflexivity]).
  assert (First : exists l',
    get_documents W readable true d
    = (Ret docs, {| serialized_docs_file := Some text; disk_log := l' |})).
  { unfold get_documents. unfold bind at 1. unfold load_cached. rewrite Hf.
    rewrite bool_decide_false by (intros [x Hx]; discriminate).
    rewrite andb_false_r. unfold ret at 1. cbn [nonempty negb].
    unfold bind at 1. unfold ingest_from_s3. rewrite Hc, Hb.
    destruct bucket as [|b ucket]; [contradiction|].
    destruct (S3_BUCKET_PREFIX W) as [|p refix] eqn:Hp; [contradiction|].
    unfold bind at 1. unfold logger at 1. unfold try_except at 1.
    unfold bind at 1. unfold call at 1. rewrite Hlist.
    unfold bind at 1. unfold logger at 1. rewrite Hrag_ne. cbn [negb].
    unfold bind at 1. unfold on_log.
    pose proof (docs_result_any_log W (rag_files_of (default [] keys))) as Hany.
    match goal with
    | |- context [docs_from_s3_files W _ ?l0] =>
      specialize (Hany l0); rewrite Hdocs in Hany; unfold result_of in Hany;
      destruct (docs_from_s3_files W (rag_files_of (default [] keys)) l0) as [r l1]
    end.
    cbn [fst] in Hany. subst r. rewrite Hdocs_ne.
    unfold bind, try_except, call, write_file, logger, ret. rewrite Hdumps.
    cbn [negb]. rewrite Hdocs_ne. cbn [negb]. eexists. reflexivity. }
  destruct First as [l' E1]. rewrite E1. cbn [result_of state_of fst snd].
  assert (Second : exists l2,
    get_documents W' true writable' {| serialized_docs_file := Some text; disk_log := l' |}
    = (Ret docs, {| serialized_docs_file := Some text; disk_log := l2 |})).
  { unfold get_documents. unfold bind at 1. unfold load_cached. rewrite HF.
    cbn [serialized_docs_file negb].
    rewrite bool_decide_true by (now exists text). cbn [andb].
    unfold try_except, bind, read_file, call, logger, ret.
    cbn [serialized_docs_file]. rewrite Hloads.
    repeat (cbv beta iota; rewrite Hdocs_ne; cbn [negb]).
    eexists. reflexivity. }
  destruct Second as [l2 E2]. rewrite E2. cbn [fst snd serialized_docs_file].
  repeat split; reflexivity.
Qed.

Lemma cache_round_trip_witness :
  result_of (get_documents campus_world true true
               {| serialized_docs_file := None; disk_log := [] |}) = Ret campus_docs
  /\ serialized_docs_file
       (state_of (get_documents campus_world true true
                    {| serialized_docs_file := None; disk_log := [] |}))
     = Some (u "cache")
  /\ result_of
       (get_documents offline_world true false
          (state_of (get_documents campus_world true true
                       {| serialized_docs_file := None; disk_log := [] |})))
     = Ret campus_docs
  /\ serialized_docs_file
       (state_of
          (get_documents offline_world true false
             (state_of (get_documents campus_world true true
                          {| serialized_docs_file := None; disk_log := [] |}))))
     = Some (u "cache").
Proof.
  apply (cache_round_trip campus_world offline_world campus_listing (u "miba")
           (Some [u "docs/"; u "docs/rules.pdf"]) campus_docs (u "cache")
           true false {| serialized_docs_file := None; disk_log := [] |}).
  - reflexivity.
  - reflexivity.
  - reflexivity.
  - vm_compute. discriminate.
  - vm_compute. discriminate.
  - reflexivity.
  - vm_compute. discriminate.
  - vm_compute. reflexivity.
  - vm_compute. discriminate.
  - reflexivity.
  - reflexivity.
  - vm_compute. reflexivity.
Defined.

End IngestionFacts.
